(** * This-Day-in-History door: fetch, selection and layout

    A shallow embedding of the Go sources of the door program
    ([main.go], the [terminal] package and [internal/wikimedia/client.go])
    and the properties of its fetch / select / layout pipeline.

    Conventions of the embedding.
    - A Go [int] and a [time.Duration] are integers in [Z]; every quantity
      computed here stays far below 2^63, so wrap-around is never reached.
    - A Go [string] is modelled by the sequence of runes that [[]rune(s)]
      yields ([gostring]); [string(rs)] of a rune slice is the slice itself.
      Lengths taken with [len([]rune(s))] are therefore list lengths.
    - The process-wide pseudo-random generator is an explicit state: the
      list of the raw values it is going to produce.  Every run of the
      program corresponds to some such list. *)

From Stdlib Require Import ZArith Lia Ascii String.
From stdpp Require Import base option list sorting gmap.

Local Open Scope Z_scope.

(* ===================================================================== *)
(** * Part I: the program                                                *)
(* ===================================================================== *)

(** ** Go strings and the pieces of [strings], [unicode] and [fmt] used *)

Module GoStrings.

Definition rune := Z.
Definition gostring := list rune.

(** [len(x)] of a slice, as a Go [int]. *)
Definition len {A} (l : list A) : Z := Z.of_nat (length l).

(** A string literal of the source (ASCII only). *)
Definition lit (s : string) : gostring :=
  (fun a => Z.of_N (N_of_ascii a)) <$> list_ascii_of_string s.

(** [unicode.IsSpace]: the code points with the Unicode property
    White_Space. *)
Definition IsSpace (r : rune) : bool :=
  ((9 <=? r) && (r <=? 13)) (* \t \n \v \f \r *)
  || (r =? 32) || (r =? 133) || (r =? 160)
  || (r =? 5760)
  || ((8192 <=? r) && (r <=? 8202))
  || (r =? 8232) || (r =? 8233) || (r =? 8239) || (r =? 8287)
  || (r =? 12288).

(** Drop the leading white space of a string. *)
Fixpoint TrimLeftSpace (s : gostring) : gostring :=
  match s with
  | [] => []
  | r :: s' => if IsSpace r then TrimLeftSpace s' else s
  end.

(** [strings.TrimSpace]: leading and trailing white space removed. *)
Definition TrimSpace (s : gostring) : gostring :=
  reverse (TrimLeftSpace (reverse (TrimLeftSpace s))).

(** [strings.Fields]: the maximal runs of non-space runes, in order.
    [cur] is the field being scanned. *)
Fixpoint fieldsFrom (cur : gostring) (s : gostring) : list gostring :=
  match s with
  | [] => if decide (cur = []) then [] else [cur]
  | r :: s' =>
      if IsSpace r
      then (if decide (cur = []) then fieldsFrom [] s'
            else cur :: fieldsFrom [] s')
      else fieldsFrom (cur ++ [r]) s'
  end.

Definition Fields (s : gostring) : list gostring := fieldsFrom [] s.

(** Decimal digits of a non-negative number, most significant first;
    [fuel] bounds the number of digits. *)
Fixpoint digits (fuel : nat) (n : Z) (acc : gostring) : gostring :=
  match fuel with
  | O => acc
  | S fuel' =>
      let acc' := (48 + n mod 10) :: acc in
      if n <? 10 then acc' else digits fuel' (n / 10) acc'
  end.

(** [fmt.Sprintf("%d", n)]. *)
Definition Itoa (n : Z) : gostring :=
  if n <? 0 then 45 :: digits (Z.to_nat (Z.log2 (- n)) + 1) (- n) []
  else digits (Z.to_nat (Z.log2 n) + 1) n [].

(** [strings.Contains]. *)
Fixpoint isPrefix (p s : gostring) : bool :=
  match p, s with
  | [], _ => true
  | _ :: _, [] => false
  | a :: p', b :: s' => (a =? b) && isPrefix p' s'
  end.

Fixpoint Contains (s sub : gostring) : bool :=
  isPrefix sub s ||
  match s with
  | [] => false
  | _ :: s' => Contains s' sub
  end.

End GoStrings.

Import GoStrings.

(** ** Package [terminal]: word wrap and the row budget of [RenderEvents] *)

Module Terminal.

(** [terminal.Event] (and [wikimedia.Event], which has the same fields). *)
Record Event := mkEvent { Year : Z; Text : gostring }.

#[global] Instance Event_eq_dec : EqDecision Event.
Proof. solve_decision. Defined.

(** A word longer than the line: cut to [maxWidth-3] runes and an
    ellipsis, or to [maxWidth] runes when there is no room for one.  The
    loop comes here only with [len(wr) > maxWidth >= 1], so the slices
    [wr[:maxWidth-3]] and [wr[:maxWidth]] are within range. *)
Definition truncateWord (wr : list rune) (maxWidth : Z) : gostring :=
  if 3 <? maxWidth
  then take (Z.to_nat (maxWidth - 3)) wr ++ lit "..."
  else take (Z.to_nat maxWidth) wr.

(** One iteration of the loop of [wrapText] over [words]; the state is
    the pair of [lines] and [current]. *)
Definition wrapStep (maxWidth : Z)
    (st : list gostring * list rune) (word : gostring)
    : list gostring * list rune :=
  let '(lines, current) := st in
  let wr := word in
  if len current =? 0 then
    if len wr <=? maxWidth
    then (lines, current ++ wr)
    else (lines ++ [truncateWord wr maxWidth], current)
  else if len current + 1 + len wr <=? maxWidth then
    (lines, (current ++ [32]) ++ wr)
  else
    let lines := lines ++ [current] in
    if len wr <=? maxWidth
    then (lines, wr)
    else (lines ++ [truncateWord wr maxWidth], []).

(** A line fits when it has at most [maxWidth] runes. *)
Definition fits (maxWidth : Z) (line : gostring) : Prop :=
  len line <= maxWidth.

(** The loop of [wrapText] over [words] and the flush of the last
    line after it. *)
Definition wrapWords (maxWidth : Z) (words : list gostring)
    : list gostring :=
  let '(lines, current) := foldl (wrapStep maxWidth) ([], []) words in
  if 0 <? len current then lines ++ [current] else lines.

(** [wrapText] of package terminal; the rune-aware [wrapText] of
    [main.go] is the same function. *)
Definition wrapText (text : gostring) (maxWidth : Z) : list gostring :=
  if maxWidth <=? 0 then [text]
  else
    let runes := text in
    if len runes <=? maxWidth then [text]
    else
      let words := Fields text in
      if len words =? 0 then [ [] ]
      else
        let lines := wrapWords maxWidth words in
        if len lines =? 0 then [ [] ] else lines.

Definition maxContentRows : Z := 12.
Definition prefixDisplayLength : Z := 10.
Definition maxLineLength : Z := 75 - prefixDisplayLength.

(** The fitting loop ("Dynamic Event Fitting"): [selected] and
    [totalRowsUsed] are the loop's variables, the [else] branch is its
    [break].  The same loop stands in [RenderEvents], over the rune-aware
    [wrapText], and in the older [generateEventList] of [main.go], over
    that file's byte-counting [wrapText]; it takes the wrap function as
    [wrap]. *)
Fixpoint fitLoop (wrap : gostring -> Z -> list gostring)
    (events : list Event) (selected : list Event)
    (totalRowsUsed : Z) : list Event * Z :=
  match events with
  | [] => (selected, totalRowsUsed)
  | e :: rest =>
      let wrapped := wrap (TrimSpace (Text e)) maxLineLength in
      let eventRows := len wrapped + 1 in
      if (totalRowsUsed + eventRows <=? maxContentRows) && (len selected <? 5)
      then fitLoop wrap rest (selected ++ [e]) (totalRowsUsed + eventRows)
      else (selected, totalRowsUsed)
  end.

(** The rows an event costs, its wrapped lines and one blank line, and
    the rows a list of events costs. *)
Definition eventRows (wrap : gostring -> Z -> list gostring) (e : Event)
    : Z :=
  len (wrap (TrimSpace (Text e)) maxLineLength) + 1.

Definition rowsUsed (wrap : gostring -> Z -> list gostring)
    (events : list Event) : Z :=
  foldr (fun e n => eventRows wrap e + n) 0 events.

(** The loop as [RenderEvents] runs it: the accepted events and the
    rows they use. *)
Definition fitEvents (events : list Event) : list Event * Z :=
  fitLoop wrapText events [] 0.

(** What the display loop of [RenderEvents] puts on a row. *)
Inductive Cell :=
| FirstLine (year : Z) (line : gostring)
| Continuation (line : gostring).

(** The display loop: every wrapped line with its row [yPos].  [None]
    stands for the run-time panic of an index out of range at
    [wrapped[0]]. *)
Fixpoint displayLoop (selected : list Event) (yPos : Z)
    : option (list (Z * Cell)) :=
  match selected with
  | [] => Some []
  | e :: rest =>
      let wrapped := wrapText (TrimSpace (Text e)) maxLineLength in
      first ← wrapped !! 0%nat;
      let conts := imap (fun i l => (yPos + 1 + Z.of_nat i, Continuation l))
                        (drop 1 wrapped) in
      (* one row per line, then a blank row *)
      more ← displayLoop rest (yPos + len wrapped + 1);
      Some ((yPos, FirstLine (Year e) first) :: conts ++ more)
  end.

(** The part of [RenderEvents] between header and footer. *)
Definition RenderEvents (events : list Event) : option (list (Z * Cell)) :=
  displayLoop (fitEvents events).1 8.

End Terminal.

Import Terminal.

(** ** [math/rand]: the global generator, as an explicit state *)

Module Rand.

(** The raw values the generator will hand out, in order.  Once the list
    is used up the generator keeps answering 0. *)
Definition state := list Z.

(** [rand.Int63n(n)] and [rand.Intn(n)], for [n > 0]: a value of
    [0 .. n-1], and the generator moves on. *)
Definition Int63n (n : Z) (g : state) : Z * state :=
  match g with
  | [] => (0, [])
  | r :: g' => (r mod n, g')
  end.

(** [s[i], s[j] = s[j], s[i]] on a slice. *)
Definition swap {A} (s : list A) (i j : nat) : list A :=
  match s !! i, s !! j with
  | Some x, Some y => <[j := x]> (<[i := y]> s)
  | _, _ => s
  end.

(** The loop of [rand.Shuffle]: [for i := n-1; i > 0; i--] with
    [j := Intn(i+1)] and a swap of places [i] and [j]. *)
Fixpoint shuffleLoop {A} (i : nat) (s : list A) (g : state)
    : list A * state :=
  match i with
  | O => (s, g)
  | S i' =>
      let '(j, g') := Int63n (Z.of_nat i + 1) g in
      shuffleLoop i' (swap s i (Z.to_nat j)) g'
  end.

(** [rand.Shuffle(len(s), func(i, j) { s[i], s[j] = s[j], s[i] })]. *)
Definition Shuffle {A} (s : list A) (g : state) : list A * state :=
  shuffleLoop (length s - 1) s g.

End Rand.

(** ** [sort.SliceStable] by year *)

Module Sort.

(** Insert [x], which stood before every element of [s] in the input,
    into the sorted [s]: it passes only the strictly smaller years. *)
Fixpoint insertByYear (x : Event) (s : list Event) : list Event :=
  match s with
  | [] => [x]
  | y :: s' => if Year y <? Year x then y :: insertByYear x s'
               else x :: s
  end.

(** [sort.SliceStable(s, func(i, j) bool { return s[i].Year < s[j].Year })]:
    the stable sort of [s], which is unique. *)
Fixpoint SliceStableByYear (s : list Event) : list Event :=
  match s with
  | [] => []
  | x :: s' => insertByYear x (SliceStableByYear s')
  end.

(** Ascending by year: every event is at most as late as all that
    follow it. *)
Definition sortedByYear (s : list Event) : Prop :=
  StronglySorted (fun a b => Year a <= Year b) s.

End Sort.

(** ** [main.go]: the selection strategies *)

Module Selector.

Record eraDef := mkEra { name : gostring; min : Z; max : Z; quota : Z }.

Definition eras : list eraDef :=
  [ mkEra (lit "Ancient") 1 500 1;
    mkEra (lit "Medieval") 501 1500 1;
    mkEra (lit "Early Modern") 1501 1800 1;
    mkEra (lit "Modern") 1801 1950 1;
    mkEra (lit "Contemporary") 1951 2030 1 ].

(** [fmt.Sprintf("%d|%s", e.Year, e.Text)]. *)
Definition keyFor (e : Event) : gostring :=
  Itoa (Year e) ++ lit "|" ++ Text e.

(** [seen[k]] on a [map[string]bool]: [false] for an absent key. *)
Definition isSeen (seen : gmap gostring bool) (k : gostring) : bool :=
  default false (seen !! k).

(** The loop [for i, ev := range allEvents { if p(ev) { append i } }],
    from index [i] on: the indices whose event satisfies [p], ascending. *)
Fixpoint indicesFrom (i : nat) (p : Event -> bool) (allEvents : list Event)
    : list nat :=
  match allEvents with
  | [] => []
  | ev :: rest =>
      if p ev then i :: indicesFrom (S i) p rest
      else indicesFrom (S i) p rest
  end.

Definition indicesWhere (p : Event -> bool) (allEvents : list Event)
    : list nat :=
  indicesFrom 0 p allEvents.

(** The loop [for qi := 0; qi < era.quota && qi < len(eraEvents); qi++]:
    [picks] holds [eraEvents[qi]] for the [qi] still to come. *)
Fixpoint pickLoop (allEvents : list Event) (picks : list nat)
    (selected : list Event) (seen : gmap gostring bool)
    : list Event * gmap gostring bool :=
  match picks with
  | [] => (selected, seen)
  | idx :: picks' =>
      match allEvents !! idx with
      | None => (selected, seen) (* index out of range: never the case *)
      | Some ev =>
          let k := keyFor ev in
          let '(selected, seen) :=
            if negb (isSeen seen k)
            then (selected ++ [ev], <[k := true]> seen)
            else (selected, seen) in
          if 5 <=? len selected then (selected, seen)
          else pickLoop allEvents picks' selected seen
      end
  end.

(** First pass of [selectEventsByEra]: the loop over [eras]. *)
Fixpoint eraLoop (allEvents : list Event) (todo : list eraDef)
    (selected : list Event) (seen : gmap gostring bool) (g : Rand.state)
    : list Event * gmap gostring bool * Rand.state :=
  match todo with
  | [] => (selected, seen, g)
  | era :: todo' =>
      let eraEvents :=
        indicesWhere (fun ev => (min era <=? Year ev) && (Year ev <=? max era))
                     allEvents in
      if len eraEvents =? 0 then eraLoop allEvents todo' selected seen g
      else
        let '(eraEvents, g) := Rand.Shuffle eraEvents g in
        let '(selected, seen) :=
          pickLoop allEvents (take (Z.to_nat (quota era)) eraEvents)
                   selected seen in
        if 5 <=? len selected then (selected, seen, g)
        else eraLoop allEvents todo' selected seen g
  end.

(** Second pass: fill the free slots from the events not yet seen. *)
Definition fillRemaining (allEvents : list Event) (selected : list Event)
    (seen : gmap gostring bool) (g : Rand.state)
    : list Event * Rand.state :=
  if len selected <? 5 then
    let remaining :=
      indicesWhere (fun ev => negb (isSeen seen (keyFor ev))) allEvents in
    if 0 <? len remaining then
      let '(remaining, g) := Rand.Shuffle remaining g in
      let need := 5 - len selected in
      let need := if len remaining <? need then len remaining else need in
      (selected ++ omap (fun i => allEvents !! i)
                        (take (Z.to_nat need) remaining), g)
    else (selected, g)
  else (selected, g).

Definition selectEventsByEra (allEvents : list Event) (g : Rand.state)
    : list Event * Rand.state :=
  if len allEvents =? 0 then ([], g)
  else
    let '(selected, seen, g) := eraLoop allEvents eras [] ∅ g in
    let '(selected, g) := fillRemaining allEvents selected seen g in
    (Sort.SliceStableByYear selected, g).

(** The selection block of [generateEventList] (from the override of
    [oldest-first] by the shuffle flag to the final re-shuffle), reached
    with a non-empty [events]. *)
Definition applyStrategy (events : list Event) (shuffle : bool)
    (strategy : gostring) (g : Rand.state) : list Event * Rand.state :=
  let strategy :=
    if shuffle && bool_decide (strategy = lit "oldest-first")
    then lit "random" else strategy in
  let byEra events g :=
    let '(sel, g) := selectEventsByEra events g in
    (if 0 <? len sel then sel else events, g) in
  let '(events, g) :=
    if bool_decide (strategy = lit "era-based") then byEra events g
    else if bool_decide (strategy = lit "random") then
      let '(events, g) :=
        if 1 <? len events then Rand.Shuffle events g else (events, g) in
      (if 5 <? len events then take 5 events else events, g)
    else if bool_decide (strategy = lit "oldest-first") then
      let events :=
        if 1 <? len events then Sort.SliceStableByYear events else events in
      (if 5 <? len events then take 5 events else events, g)
    else byEra events g in
  if shuffle && (1 <? len events) then Rand.Shuffle events g
  else (events, g).

(** *** The invariant of the first pass *)

(** Every selected event has its key marked in [seen]. *)
Definition marks (seen : gmap gostring bool) (selected : list Event)
    : Prop :=
  forall e, e ∈ selected -> isSeen seen (keyFor e) = true.

(** What holds of [selected] and [seen] all through the first pass. *)
Definition passInv (allEvents selected : list Event)
    (seen : gmap gostring bool) : Prop :=
  NoDup selected /\ marks seen selected /\ selected ⊆ allEvents
  /\ len selected <= 5.

End Selector.

(** ** [internal/wikimedia/client.go]: the feed client *)

Module Wikimedia.

(** A Go [error]; [Error e] is its message. *)
Inductive error :=
| Errorf (msg : gostring)      (* built with fmt.Errorf *)
| CtxErr (msg : gostring)      (* ctx.Err() *)
| LibErr (msg : gostring).     (* returned by net/http, io, os or json *)

Definition Error (e : error) : gostring :=
  match e with Errorf m | CtxErr m | LibErr m => m end.

(** [fmt.Sprintf("%v", err)] for an error that may be [nil]. *)
Definition showErr (e : option error) : gostring :=
  match e with Some e => Error e | None => lit "<nil>" end.

Inductive result :=
| Ok (evs : list Event)
| Err (e : error).

(** What one pass through the retry loop meets. *)
Inductive RoundTrip :=
| RequestError (e : error)               (* http.NewRequestWithContext fails *)
| DoError (e : error)                    (* c.client.Do fails *)
| ReadError (status : Z) (e : error)     (* io.ReadAll fails *)
| Response (status : Z) (body : gostring).

(** Everything the client does not decide: the library functions whose
    code is outside the repository and the behaviour of the outside
    world, the latter by the number of the request, sleep or write. *)
Record Env := mkEnv {
  json_Unmarshal : gostring -> error + list Event;
  filepath_Join : gostring -> gostring -> gostring;
  network : nat -> RoundTrip;
  (** [Some e]: [ctx.Done()] fires before the timer of that sleep. *)
  ctxDone : nat -> option error;
  (** [Some e]: a step of that cache write fails. *)
  diskError : nat -> option error
}.

Record File := mkFile {
  ModTime : Z;
  (** [None]: [os.ReadFile] fails on the file. *)
  Data : option gostring
}.

Inductive Effect :=
| HttpGet (url : gostring)
(** A backoff timer set for [d] nanoseconds; [fired] is false when the
    context was done first. *)
| Sleep (d : Z) (fired : bool)
(** A call of [writeCacheFileAtomic]; [done] tells whether the file was
    renamed into place. *)
| CacheWrite (path : gostring) (data : gostring) (done : bool).

Record World := mkWorld {
  now : Z;                        (* time.Now(), in nanoseconds *)
  files : gmap gostring File;
  rng : Rand.state;
  trace : list Effect             (* effects so far, oldest first *)
}.

(** Computations on the world. *)
Definition M (A : Type) : Type := World -> A * World.

Definition ret {A} (a : A) : M A := fun w => (a, w).
Definition bind {A B} (m : M A) (k : A -> M B) : M B :=
  fun w => let '(a, w') := m w in k a w'.

Notation "'do' x <- m ; k" := (bind m (fun x => k))
  (at level 10, x name, m at level 100, k at level 200).

Definition emit (e : Effect) : M unit :=
  fun w => (tt, mkWorld (now w) (files w) (rng w) (trace w ++ [e])).

Definition count (p : Effect -> bool) : M nat :=
  fun w => (length (filter (fun e => p e = true) (trace w)), w).

Definition isHttpGet (e : Effect) : bool :=
  match e with HttpGet _ => true | _ => false end.
Definition isSleep (e : Effect) : bool :=
  match e with Sleep _ _ => true | _ => false end.
Definition isCacheWrite (e : Effect) : bool :=
  match e with CacheWrite _ _ _ => true | _ => false end.

Definition Millisecond : Z := 1000000.

Record Client := mkClient { cacheDir : gostring; ttl : Z }.

Section WithEnv.

Variable env : Env.

Definition parseEventsFromBody (body : gostring) : result :=
  match json_Unmarshal env body with
  | inl err => Err (Errorf (lit "failed to parse JSON: " ++ Error err))
  | inr events => Ok ((fun e => mkEvent (Year e) (Text e)) <$> events)
  end.

(** [writeCacheFileAtomic]: the temporary file replaces [path] only
    when every step succeeded; any failure leaves [path] alone.
    [files] holds the files the client reads back, those at cache
    paths.  The directory that [os.MkdirAll] makes and the temporary
    file tmp-*.json, which is renamed to [path] on success and removed
    on failure (a failing [os.Remove] leaves it behind), are not kept
    in it, so nothing is said here about files other than [path]. *)
Definition writeCacheFileAtomic (path : gostring) (data : gostring)
    : M (option error) :=
  do k <- count isCacheWrite;
  match diskError env k with
  | Some err =>
      do _ <- emit (CacheWrite path data false);
      ret (Some err)
  | None =>
      do _ <- (fun w => (tt, mkWorld (now w)
                 (<[path := mkFile (now w) (Some data)]> (files w))
                 (rng w) (trace w)));
      do _ <- emit (CacheWrite path data true);
      ret None
  end.

(** [sleepContext]: the jitter, its clamp at zero, and the [select]
    between the timer and the context. *)
Definition sleepContext (d : Z) : M (option error) :=
  do r <- (fun w => let '(r, g) := Rand.Int63n (200 * Millisecond) (rng w) in
                    (r, mkWorld (now w) (files w) g (trace w)));
  let jitter := r - 100 * Millisecond in
  let jitter := if jitter <? 0 then 0 else jitter in
  do k <- count isSleep;
  match ctxDone env k with
  | Some err =>
      do _ <- emit (Sleep (d + jitter) false);
      ret (Some err)
  | None =>
      do _ <- (fun w => (tt, mkWorld (now w + (d + jitter)) (files w)
                                     (rng w) (trace w)));
      do _ <- emit (Sleep (d + jitter) true);
      ret None
  end.

(** The request of one pass: nothing is sent when the request cannot
    be built. *)
Definition roundTrip (url : gostring) : M RoundTrip :=
  do k <- count isHttpGet;
  match network env k with
  | RequestError e => ret (RequestError e)
  | r => do _ <- emit (HttpGet url); ret r
  end.

Definition maxAttempts : Z := 3.

(** [client.go] holds two revisions of [FetchOnThisDay]; they differ in
    the cache write after a successful parse (and in log output, which
    is not modelled). *)
Inductive Revision :=
| WritesAlways         (* lines 49-149:
                          [_ = writeCacheFileAtomic(cacheFile, body)] *)
| WritesUnlessBypass.  (* lines 265-377:
                          [if !bypassCache { writeCacheFileAtomic(...) }] *)

(** Back off and go round again, or give up with [lastErr] on the
    last attempt; [next] is the rest of the loop. *)
Definition retryOr (attempt backoff : Z) (lastErr : error)
    (next : Z -> option error -> M result) : M result :=
  if attempt <? maxAttempts then
    do err <- sleepContext backoff;
    match err with
    | Some err => ret (Err err)
    | None => next (backoff * 2) (Some lastErr)
    end
  else ret (Err lastErr).

(** The retry loop [for attempt := 1; attempt <= maxAttempts; attempt++];
    [left] counts the passes still allowed, so that
    [attempt = maxAttempts + 1 - left]. *)
Fixpoint attemptLoop (rev : Revision) (cacheFile url : gostring)
    (bypassCache : bool) (left : nat) (backoff : Z)
    (lastErr : option error) : M result :=
  match left with
  | O => ret (Err (Errorf (lit "failed to fetch events: " ++ showErr lastErr)))
  | S left' =>
      let attempt := maxAttempts - Z.of_nat left' in
      let next := attemptLoop rev cacheFile url bypassCache left' in
      do r <- roundTrip url;
      match r with
      | RequestError err => ret (Err err)
      | DoError err =>
          retryOr attempt backoff
            (Errorf (lit "network error: " ++ Error err)) next
      | ReadError _ err =>
          retryOr attempt backoff
            (Errorf (lit "failed to read response: " ++ Error err)) next
      | Response StatusCode body =>
          if StatusCode =? 200 then
            match parseEventsFromBody body with
            | Err err => ret (Err err)
            | Ok evs =>
                do _ <- match rev with
                        | WritesAlways =>
                            do _ <- writeCacheFileAtomic cacheFile body;
                            ret tt
                        | WritesUnlessBypass =>
                            if negb bypassCache
                            then do _ <- writeCacheFileAtomic cacheFile body;
                                 ret tt
                            else ret tt
                        end;
                ret (Ok evs)
            end
          else if (StatusCode =? 429)
                  || ((500 <=? StatusCode) && (StatusCode <? 600)) then
            retryOr attempt backoff
              (Errorf (lit "API returned status code: " ++ Itoa StatusCode))
              next
          else
            ret (Err (Errorf (lit "API returned status code: "
                              ++ Itoa StatusCode ++ lit ", body: " ++ body)))
      end
  end.

(** The cache lookup at the head of [FetchOnThisDay]: the events of a
    fresh, readable and parseable cache file. *)
Definition tryCache (c : Client) (cacheFile : gostring)
    : M (option (list Event)) :=
  fun w =>
    match files w !! cacheFile with
    | None => (None, w)                       (* os.Stat fails *)
    | Some fi =>
        if now w - ModTime fi <=? ttl c then
          match Data fi with
          | None => (None, w)                 (* os.ReadFile fails *)
          | Some data =>
              match parseEventsFromBody data with
              | Ok evs => (Some evs, w)
              | Err _ => (None, w)
              end
          end
        else (None, w)
    end.

(** The cache file of a date: [onthisday_MM_DD.json] in [cacheDir]. *)
Definition cachePath (c : Client) (month day : gostring) : gostring :=
  filepath_Join env (cacheDir c)
    (lit "onthisday_" ++ month ++ lit "_" ++ day ++ lit ".json").

Definition FetchOnThisDay (rev : Revision) (c : Client)
    (month day : gostring) (bypassCache : bool) : M result :=
  if bool_decide (month = []) || bool_decide (day = []) then
    ret (Err (Errorf (lit "month and day required")))
  else
    let cacheFile := cachePath c month day in
    do cached <- (if negb bypassCache then tryCache c cacheFile
                  else ret None);
    match cached with
    | Some evs => ret (Ok evs)
    | None =>
        let url :=
          lit "https://api.wikimedia.org/feed/v1/wikipedia/en/onthisday/all/"
          ++ month ++ lit "/" ++ day in
        attemptLoop rev cacheFile url bypassCache
                    (Z.to_nat maxAttempts) (500 * Millisecond) None
    end.

End WithEnv.

(** *** Reading a trace *)

(** The durations of the backoff timers, the cache writes and the
    requests among some effects. *)
Definition sleepsOf (es : list Effect) : list Z :=
  omap (fun e => match e with Sleep d _ => Some d | _ => None end) es.

Definition cacheWritesOf (es : list Effect) : list Effect :=
  filter (fun e => isCacheWrite e = true) es.

Definition requestsOf (es : list Effect) : list Effect :=
  filter (fun e => isHttpGet e = true) es.

(** The jitter [sleepContext] adds when the generator is in state [g]:
    the draw of [0, 200ms) moved down by 100ms, and 0 when that is
    negative. *)
Definition jitterOf (g : Rand.state) : Z :=
  let jitter := (Rand.Int63n (200 * Millisecond) g).1 - 100 * Millisecond in
  if jitter <? 0 then 0 else jitter.

(** The timers of successive retries that start from [backoff] with the
    generator in state [g]: each lasts the backoff of its turn and the
    jitter of its draw, and the backoff doubles from turn to turn. *)
Fixpoint backoffSchedule (backoff : Z) (g : Rand.state) (ds : list Z)
    : Prop :=
  match ds with
  | [] => True
  | d :: ds' =>
      d = backoff + jitterOf g
      /\ backoffSchedule (backoff * 2)
                         (Rand.Int63n (200 * Millisecond) g).2 ds'
  end.

(** What a computation [m] of the client may do to the world: it adds
    some effects to the trace, with at most [n] requests among them and
    with timers on the schedule from [backoff]; when [quiet] it writes
    no cache file. *)
Definition footprint (quiet : bool) (n : nat) (backoff : Z)
    (m : M result) : Prop :=
  forall w, exists added,
    trace (m w).2 = trace w ++ added
    /\ backoffSchedule backoff (rng w) (sleepsOf added)
    /\ (length (requestsOf added) <= n)%nat
    /\ (quiet = true ->
        cacheWritesOf added = [] /\ files (m w).2 = files w).

(** The network path is taken: the cache is bypassed or has no fresh
    parseable entry for the date. *)
Definition cacheMiss (env : Env) (c : Client) (month day : gostring)
    (bypassCache : bool) (w : World) : Prop :=
  bypassCache = true
  \/ (tryCache env c (cachePath env c month day) w).1 = None.

End Wikimedia.

(** ** Inputs used in the examples below *)

Module Samples.

(** An event of 44 BCE; a feed may list it twice. *)
Definition caesar : Event :=
  mkEvent (-44) (lit "Julius Caesar is assassinated").

Definition moonLanding : Event := mkEvent 1969 (lit "Moon landing").

(** Three events of the Contemporary era, one of them listed twice. *)
Definition woodstock : Event := mkEvent 1969 (lit "Woodstock opens").
Definition apollo13 : Event := mkEvent 1970 (lit "Apollo 13 returns").

Import Wikimedia.

(** A world around the client: a feed body that decodes to one event,
    a context that is never done, a disk that never fails; the server
    answers every request with [status]. *)
Definition serverEnv (status : Z) : Env :=
  {| json_Unmarshal := fun body =>
       if bool_decide (body = lit "feed") then inr [moonLanding]
       else inl (LibErr (lit "invalid character"));
     filepath_Join := fun dir file => dir ++ lit "/" ++ file;
     network := fun _ => Response status (lit "feed");
     ctxDone := fun _ => None;
     diskError := fun _ => None |}.

(** No cache file, a generator whose draws are all 0, nothing done yet. *)
Definition freshWorld : World :=
  {| now := 0; files := ∅; rng := []; trace := [] |}.

(** The same, with a generator that draws 30ms and then 150ms. *)
Definition drawsWorld : World :=
  {| now := 0; files := ∅;
     rng := [30 * Millisecond; 150 * Millisecond]; trace := [] |}.

Definition client : Client :=
  {| cacheDir := lit ".cache/wikimedia";
     ttl := 24 * 3600 * 1000 * Millisecond |}.

End Samples.

Import Samples.

(** ** More of package [terminal] and of [main.go] *)

Module Layout.

(** [strings.Join(elems, sep)]. *)
Fixpoint Join (elems : list gostring) (sep : gostring) : gostring :=
  match elems with
  | [] => []
  | a :: rest =>
      match rest with
      | [] => a
      | _ :: _ => a ++ sep ++ Join rest sep
      end
  end.

(** The state of the loop of [wrapText] as lines: the lines finished so
    far and the line under construction, if it has runes. *)
Definition flushLines (st : list gostring * list rune) : list gostring :=
  if 0 <? len st.2 then st.1 ++ [st.2] else st.1.

(** The text a cell of the display holds. *)
Definition cellLine (c : Cell) : gostring :=
  match c with FirstLine _ line | Continuation line => line end.

(** The years of the first lines among some cells, in display order. *)
Definition cellYears (cells : list (Z * Cell)) : list Z :=
  omap (fun yc => match yc.2 with
                  | FirstLine year _ => Some year
                  | Continuation _ => None
                  end) cells.

(** Every cell stands on a row of [lo .. hi-1] and its text fits the
    line length of [RenderEvents]. *)
Definition cellsWithin (lo hi : Z) (cells : list (Z * Cell)) : Prop :=
  Forall (fun yc => lo <= yc.1 < hi /\ fits maxLineLength (cellLine yc.2))
         cells.

(** The rows of the cells go strictly up: no row is written twice. *)
Definition rowsAscending (cells : list (Z * Cell)) : Prop :=
  StronglySorted Z.lt (cells.*1).

End Layout.

Import Layout.

(** ** Vocabulary for the selection *)

Module SelectorSpec.

Import Selector.

(** The number a string of decimal digits writes. *)
Definition decimalValue (ds : gostring) : Z :=
  foldl (fun v d => 10 * v + (d - 48)) 0 ds.

(** A rune of a number printed with [%d]: a digit or the minus sign. *)
Definition isNumberRune (r : rune) : Prop := r = 45 \/ 48 <= r <= 57.

(** The year of the event lies in the era. *)
Definition inEra (era : eraDef) (ev : Event) : Prop :=
  min era <= Year ev <= max era.

(** Every key marked in [seen] is the key of a selected event. *)
Definition seenOnly (seen : gmap gostring bool) (selected : list Event)
    : Prop :=
  forall k, isSeen seen k = true -> exists e, e ∈ selected /\ keyFor e = k.

End SelectorSpec.

Import SelectorSpec.

(** ** Vocabulary for the feed client *)

Module ClientSpec.

Import Wikimedia.

(** The round trips after which the loop of [FetchOnThisDay] goes round
    again: [Do] failed, the body could not be read, or the status is
    429 or in the 5xx range. *)
Definition retryable (r : RoundTrip) : bool :=
  match r with
  | RequestError _ => false
  | DoError _ | ReadError _ _ => true
  | Response StatusCode _ =>
      (StatusCode =? 429) || ((500 <=? StatusCode) && (StatusCode <? 600))
  end.

(** The error the loop keeps in [lastErr] after such a round trip. *)
Definition lastErrOf (r : RoundTrip) : error :=
  match r with
  | RequestError err => err
  | DoError err => Errorf (lit "network error: " ++ Error err)
  | ReadError _ err => Errorf (lit "failed to read response: " ++ Error err)
  | Response StatusCode _ =>
      Errorf (lit "API returned status code: " ++ Itoa StatusCode)
  end.

(** Two worlds that differ at most in the files on disk. *)
Definition sameButFiles (w w' : World) : Prop :=
  now w = now w' /\ rng w = rng w' /\ trace w = trace w'.

(** The environment with another disk. *)
Definition withDisk (env : Env) (disk : nat -> option error) : Env :=
  mkEnv (json_Unmarshal env) (filepath_Join env) (network env)
        (ctxDone env) disk.

(** Where the errors of the retry loop come from: the context, the
    request builder, a retryable failure, the parser, or a status that
    is not retried. *)
Definition errorSource (env : Env) (e : error) : Prop :=
  (exists k, ctxDone env k = Some e)
  \/ (exists k, network env k = RequestError e)
  \/ (exists k, retryable (network env k) = true
                /\ e = lastErrOf (network env k))
  \/ (exists k body err,
        network env k = Response 200 body
        /\ json_Unmarshal env body = inl err
        /\ e = Errorf (lit "failed to parse JSON: " ++ Error err))
  \/ (exists k status body,
        network env k = Response status body
        /\ status <> 200
        /\ retryable (Response status body) = false
        /\ e = Errorf (lit "API returned status code: " ++ Itoa status
                       ++ lit ", body: " ++ body)).

(** What the cache got from the effects a call added after [sent]
    requests: nothing, or, as the last effect and right after the
    request to [url] that the server answered with status 200 and the
    body [body], the write of that body, which parsed to the events of
    [r]. *)
Definition cacheGot (env : Env) (cacheFile url : gostring) (sent : nat)
    (added : list Effect) (r : result) : Prop :=
  cacheWritesOf added = []
  \/ exists before body ok evs,
       added = before ++ [HttpGet url; CacheWrite cacheFile body ok]
       /\ cacheWritesOf before = []
       /\ network env (sent + length (requestsOf before)) = Response 200 body
       /\ parseEventsFromBody env body = Ok evs
       /\ r = Ok evs.

(** The time some timers take together. *)
Definition totalSleep (ds : list Z) : Z := foldr Z.add 0 ds.

End ClientSpec.

Import ClientSpec.

(** ** More sample data *)

Module Scenarios.

Import Wikimedia.

(** A server that answers the first [failures] requests with 503 and
    every later one with the feed. *)
Definition flakyEnv (failures : nat) : Env :=
  {| json_Unmarshal := json_Unmarshal (serverEnv 200);
     filepath_Join := filepath_Join (serverEnv 200);
     network := fun k =>
       if (k <? failures)%nat then Response 503 (lit "busy")
       else Response 200 (lit "feed");
     ctxDone := fun _ => None;
     diskError := fun _ => None |}.

(** A server that always answers 503 and a context that is done during
    the backoff sleep number [at_sleep]. *)
Definition cancelledEnv (at_sleep : nat) : Env :=
  {| json_Unmarshal := json_Unmarshal (serverEnv 503);
     filepath_Join := filepath_Join (serverEnv 503);
     network := network (serverEnv 503);
     ctxDone := fun k =>
       if (k =? at_sleep)%nat then Some (CtxErr (lit "context canceled"))
       else None;
     diskError := fun _ => None |}.

(** A server that answers 200 with a page that is not the feed. *)
Definition garbledEnv : Env :=
  {| json_Unmarshal := json_Unmarshal (serverEnv 200);
     filepath_Join := filepath_Join (serverEnv 200);
     network := fun _ => Response 200 (lit "<html>");
     ctxDone := fun _ => None;
     diskError := fun _ => None |}.

(** The cache file of March 15 as [client] names it. *)
Definition marchFile : gostring :=
  cachePath (serverEnv 200) client (lit "03") (lit "15").

(** A world one hour after the feed of March 15 was cached. *)
Definition cachedWorld : World :=
  {| now := 3600 * 1000 * Millisecond;
     files := <[marchFile := mkFile 0 (Some (lit "feed"))]> ∅;
     rng := [];
     trace := [] |}.

(** An event whose text is twelve words of sixty runes. *)
Definition longEvent : Event :=
  mkEvent 1000 (Layout.Join (replicate 12 (replicate 60 120)) (lit " ")).

End Scenarios.

Import Scenarios.

(** ** The ordinal suffix of the day *)

Module Ordinals.

(** [getNumEndingLocal] of package terminal; [%] is Go's remainder,
    which truncates towards zero. *)
Definition getNumEndingLocal (n : Z) : gostring :=
  if (11 <=? Z.rem n 100) && (Z.rem n 100 <=? 13) then lit "th"
  else if Z.rem n 10 =? 1 then lit "st"
  else if Z.rem n 10 =? 2 then lit "nd"
  else if Z.rem n 10 =? 3 then lit "rd"
  else lit "th".

(** [getNumEnding] of [main.go], lines 284-302, on the day
    [n := time.Now().Day()]. *)
Definition getNumEnding (n : Z) : gostring :=
  if (11 <=? Z.rem n 100) && (Z.rem n 100 <=? 13) then lit "th"
  else if Z.rem n 10 =? 1 then lit "st"
  else if Z.rem n 10 =? 2 then lit "nd"
  else if Z.rem n 10 =? 3 then lit "rd"
  else lit "th".

(** [getNumEnding] of the older revision, lines 1054-1067, on the day
    [dayStr := time.Now().Day()]; [fmt.Sprint] of an int is its decimal
    form. *)
Definition getNumEnding_old (dayStr : Z) : gostring :=
  if (dayStr - 1 =? 1) && (len (Itoa dayStr) =? 1) then lit "st"
  else if (dayStr - 1 =? 2) && negb (dayStr - 2 =? 12) then lit "nd"
  else if dayStr - 1 =? 3 then lit "rd"
  else lit "th".

(** The English suffix of a day of the month. *)
Definition suffixOfDay (day : Z) : gostring :=
  if bool_decide (day ∈ [1; 21; 31]) then lit "st"
  else if bool_decide (day ∈ [2; 22]) then lit "nd"
  else if bool_decide (day ∈ [3; 23]) then lit "rd"
  else lit "th".

End Ordinals.

Import Ordinals.

(** ** [main.go]: from the feed to the screen *)

Module Main.

Import Wikimedia Selector.

(** [fmt.Sprintf("%02d", n)]: the decimal form, with a zero before a
    single digit. *)
Definition Sprintf02d (n : Z) : gostring :=
  if len (Itoa n) <? 2 then lit "0" ++ Itoa n else Itoa n.

(** What [generateEventList] leaves on the screen. *)
Inductive Screen :=
| FetchFailed (err : error)        (* "Error fetching events: ..." *)
| NoEvents                         (* "No historical events found for today." *)
| Listing (cells : list (Z * Cell))
| RenderPanic.                     (* an index out of range in [RenderEvents] *)

(** [generateEventList] on the month and the day of [time.Now()]: the
    fetch, the two early returns, the selection and the rendering.  The
    loading animation runs beside the fetch and is cleared before
    anything else is drawn; it is not modelled. *)
Definition generateEventList (env : Env) (rev : Revision) (wikiClient : Client)
    (month day : Z) (bypassCache shuffle : bool) (strategy : gostring)
    : M Screen :=
  let monthStr := Sprintf02d month in
  let dayStr := Sprintf02d day in
  do r <- FetchOnThisDay env rev wikiClient monthStr dayStr bypassCache;
  match r with
  | Err err => ret (FetchFailed err)
  | Ok events =>
      if len events =? 0 then ret NoEvents
      else
        do events <- (fun w =>
                        let '(events, g) :=
                          applyStrategy events shuffle strategy (rng w) in
                        (events, mkWorld (now w) (files w) g (trace w)));
        let tevents := (fun e => mkEvent (Year e) (Text e)) <$> events in
        ret (match RenderEvents tevents with
             | Some cells => Listing cells
             | None => RenderPanic
             end)
  end.

End Main.

Import Main.

(** ** [main.go]: the drop file and the terminal *)

Module DropFile.

Import Wikimedia.

(** The eleven values [DropFileData] returns, by the names of its
    variables. *)
Record Door32Values := mkDoor32Values {
  commport : gostring;
  baudind : gostring;
  baudrate : gostring;
  bbsname : gostring;
  usernum : gostring;
  realname : gostring;
  username : gostring;
  seclevel : gostring;
  timeleft : gostring;
  emulation : gostring;
  node : gostring
}.

(** The file system as [DropFileData] meets it. *)
Record FS := mkFS {
  filepath_Clean : gostring -> gostring;
  filepath_Join : gostring -> gostring -> gostring;
  (** [os.Stat]: an error, or whether the path is a directory. *)
  os_Stat : gostring -> error + bool;
  (** [os.ReadDir]: an error, or the names of the entries. *)
  os_ReadDir : gostring -> error + list gostring;
  strings_EqualFold : gostring -> gostring -> bool;
  (** [os.Open] and the scan of the file by lines: an error of
      [os.Open], or the lines scanned and the error of the scanner. *)
  os_Open : gostring -> error + (list gostring * option error)
}.

Definition noValues : Door32Values :=
  mkDoor32Values [] [] [] [] [] [] [] [] [] [] [].

(** The assignments of one iteration: [if count == 0 { commport = line }]
    and so on to [if count == 10 { node = line }]. *)
Definition assign (count : Z) (line : gostring) (f : Door32Values)
    : Door32Values :=
  mkDoor32Values
    (if count =? 0 then line else commport f)
    (if count =? 1 then line else baudind f)
    (if count =? 2 then line else baudrate f)
    (if count =? 3 then line else bbsname f)
    (if count =? 4 then line else usernum f)
    (if count =? 5 then line else realname f)
    (if count =? 6 then line else username f)
    (if count =? 7 then line else seclevel f)
    (if count =? 8 then line else timeleft f)
    (if count =? 9 then line else emulation f)
    (if count =? 10 then line else node f).

(** The loop [for _, line := range text] with its counter and its
    [break] at [count == 11]. *)
Fixpoint assignLoop (text : list gostring) (count : Z) (f : Door32Values)
    : Door32Values :=
  match text with
  | [] => f
  | line :: rest =>
      let f := assign count line f in
      if count =? 11 then f else assignLoop rest (count + 1) f
  end.

(** The file to read: the path itself when it is a file, else the first
    entry of the directory that is "door32.sys" up to case, else
    "door32.sys" in the directory if [os.Stat] finds it. *)
Definition resolve (fs : FS) (cleanPath : gostring) : error + gostring :=
  match os_Stat fs cleanPath with
  | inr false => inr cleanPath
  | _ =>
      let dirPath := cleanPath in
      match os_ReadDir fs dirPath with
      | inl err =>
          inl (Errorf (lit "error reading directory " ++ dirPath ++ lit ": "
                       ++ Error err))
      | inr entries =>
          let found :=
            match List.find (fun name =>
                               strings_EqualFold fs name (lit "door32.sys"))
                            entries with
            | Some name => filepath_Join fs dirPath name
            | None => []
            end in
          let found :=
            if bool_decide (found = []) then
              let possible := filepath_Join fs dirPath (lit "door32.sys") in
              match os_Stat fs possible with
              | inr _ => possible
              | inl _ => found
              end
            else found in
          if bool_decide (found = []) then
            inl (Errorf (lit "door32.sys not found in " ++ dirPath))
          else inr found
      end
  end.

(** [DropFileData] of the newest revision: the values and the error. *)
Definition DropFileData (fs : FS) (path : gostring)
    : Door32Values * option error :=
  let cleanPath := filepath_Clean fs path in
  match resolve fs cleanPath with
  | inl err => (noValues, Some err)
  | inr filePath =>
      match os_Open fs filePath with
      | inl err =>
          (noValues,
           Some (Errorf (lit "error opening " ++ filePath ++ lit ": "
                         ++ Error err)))
      | inr (text, scanErr) =>
          let f := assignLoop text 0 noValues in
          match scanErr with
          | Some err =>
              (noValues, Some (Errorf (lit "scanner error: " ++ Error err)))
          | None => (f, None)
          end
      end
  end.

(** The first eleven lines of a file, in the order of the drop file; a
    line the file does not have is the empty string. *)
Definition valuesOfLines (text : list gostring) : Door32Values :=
  mkDoor32Values
    (default [] (text !! 0%nat))
    (default [] (text !! 1%nat))
    (default [] (text !! 2%nat))
    (default [] (text !! 3%nat))
    (default [] (text !! 4%nat))
    (default [] (text !! 5%nat))
    (default [] (text !! 6%nat))
    (default [] (text !! 7%nat))
    (default [] (text !! 8%nat))
    (default [] (text !! 9%nat))
    (default [] (text !! 10%nat)).

(** A node directory with a drop file of nine lines, its name in mixed
    case. *)
Definition sampleLines : list gostring :=
  [lit "2"; lit "0"; lit "38400"; lit "Mystic"; lit "1"; lit "Jane Doe";
   lit "jane"; lit "255"; lit "60"].

Definition sampleFS : FS :=
  {| filepath_Clean := fun path => path;
     filepath_Join := fun dir file => dir ++ lit "/" ++ file;
     os_Stat := fun path =>
       if bool_decide (path = lit "/bbs/temp/1") then inr true
       else inl (LibErr (lit "no such file or directory"));
     os_ReadDir := fun _ => inr [lit "DOOR.SYS"; lit "Door32.sys"];
     strings_EqualFold := fun s t =>
       let lower := fun r : rune =>
         if (65 <=? r) && (r <=? 90) then r + 32 else r in
       bool_decide (lower <$> s = lower <$> t);
     os_Open := fun path =>
       if bool_decide (path = lit "/bbs/temp/1/Door32.sys")
       then inr (sampleLines, None)
       else inl (LibErr (lit "no such file or directory")) |}.

End DropFile.

Module TermDetect.

Section WithEnv.

(** [os.Getenv], [strings.ToLower] and [strconv.Atoi] ([None] when it
    returns an error). *)
Variable os_Getenv : gostring -> gostring.
Variable strings_ToLower : gostring -> gostring.
Variable strconv_Atoi : gostring -> option Z.

(** The size a variable of the environment gives, or the default. *)
Definition sizeFrom (name : gostring) (default : Z) : Z :=
  let str := os_Getenv name in
  if bool_decide (str <> []) then
    match strconv_Atoi str with
    | Some c => c
    | None => default
    end
  else default.

(** [DetectTerminalCapabilities]: terminal, loadableFonts, xtendPalette,
    cols, rows. *)
Definition DetectTerminalCapabilities : gostring * bool * bool * Z * Z :=
  let termType := strings_ToLower (os_Getenv (lit "TERM")) in
  let termProgram := strings_ToLower (os_Getenv (lit "TERM_PROGRAM")) in
  let cols := sizeFrom (lit "COLUMNS") 80 in
  let rows := sizeFrom (lit "LINES") 25 in
  let terminal :=
    if bool_decide (termType = lit "ansi-256color-rgb") || (80 <? cols)
    then lit "Netrunner"
    else if bool_decide (termProgram = lit "syncterm")
            || bool_decide (termType = lit "syncterm")
    then lit "Syncterm"
    else if bool_decide (termProgram = lit "magiterm")
            || bool_decide (termType = lit "magiterm")
    then lit "Magiterm"
    else lit "ANSI-Term" in
  let loadableFonts :=
    if bool_decide (terminal = lit "Netrunner")
       || bool_decide (terminal = lit "ANSI-Term")
       || bool_decide (terminal = lit "Magiterm")
    then false else true in
  let xtendPalette :=
    if bool_decide (terminal = lit "Syncterm")
       || bool_decide (terminal = lit "Netrunner")
       || bool_decide (terminal = lit "Magiterm")
    then true else false in
  (terminal, loadableFonts, xtendPalette, cols, rows).

End WithEnv.

(** The four kinds of terminal with their capabilities: loadable fonts
    and extended palette. *)
Definition capabilities : list (gostring * bool * bool) :=
  [(lit "Netrunner", false, true); (lit "Syncterm", true, true);
   (lit "Magiterm", false, true); (lit "ANSI-Term", false, false)].

End TermDetect.

(** ** [main.go]: the fetch without the client *)

Module Feed.

Import Wikimedia.

(** [WikimediaEvent]; the field [Type] is [Type_] here. *)
Record WikimediaEvent := mkWikimediaEvent {
  Year : Z;
  Text : gostring;
  Type_ : gostring
}.

Record WikimediaResponse := mkWikimediaResponse {
  Events : list WikimediaEvent;
  Births : list WikimediaEvent;
  Deaths : list WikimediaEvent
}.

Section WithNet.

(** [json.Unmarshal] into a [WikimediaResponse], and the answers of the
    network by the number of the request; the timeout of the context of
    an attempt shows as a failed [Do] or a failed read. *)
Variable json_Unmarshal : gostring -> error + WikimediaResponse.
Variable network : nat -> RoundTrip.

Definition roundTrip (url : gostring) : M RoundTrip :=
  do k <- count isHttpGet;
  match network k with
  | RequestError e => ret (RequestError e)
  | r => do _ <- emit (HttpGet url); ret r
  end.

(** The backoff of a retry:
    [jitter := time.Duration(rand.Int63n(200))*time.Millisecond
               - 100*time.Millisecond; time.Sleep(backoff + jitter)].
    [time.Sleep] returns at once for a duration that is not positive. *)
Definition sleepJitter (backoff : Z) : M unit :=
  do r <- (fun w => let '(r, g) := Rand.Int63n 200 (rng w) in
                    (r, mkWorld (now w) (files w) g (trace w)));
  let jitter := r * Millisecond - 100 * Millisecond in
  do _ <- (fun w => (tt, mkWorld (now w + Z.max 0 (backoff + jitter))
                                 (files w) (rng w) (trace w)));
  emit (Sleep (backoff + jitter) true).

(** The shuffle by hand:
    [for i := len(allEvents) - 1; i > 0; i-- { j := rand.Intn(i + 1); ... }]
    under [if len(allEvents) > 1]. *)
Definition shuffleEvents (allEvents : list WikimediaEvent)
    : M (list WikimediaEvent) :=
  fun w =>
    if 1 <? len allEvents then
      let '(s, g) :=
        Rand.shuffleLoop (length allEvents - 1) allEvents (rng w) in
      (s, mkWorld (now w) (files w) g (trace w))
    else (allEvents, w).

(** Sleep and go round again, or give up with [err] on the last
    attempt. *)
Definition backoffOr (attempt backoff : Z) (err : error)
    (next : Z -> M (error + list WikimediaEvent))
    : M (error + list WikimediaEvent) :=
  if attempt <? maxAttempts then
    do _ <- sleepJitter backoff;
    next (backoff * 2)
  else ret (inl err).

(** The loop [for attempt := 1; attempt <= maxAttempts; attempt++];
    [left] counts the passes still allowed. *)
Fixpoint fetchLoop (url : gostring) (left : nat) (backoff : Z)
    : M (error + list WikimediaEvent) :=
  match left with
  | O => ret (inl (Errorf (lit "failed to fetch events after "
                           ++ Itoa maxAttempts ++ lit " attempts")))
  | S left' =>
      let attempt := maxAttempts - Z.of_nat left' in
      let next := fetchLoop url left' in
      do r <- roundTrip url;
      match r with
      | RequestError err => ret (inl err)
      | DoError err =>
          backoffOr attempt backoff
            (Errorf (lit "network error: " ++ Error err)) next
      | ReadError _ readErr =>
          backoffOr attempt backoff
            (Errorf (lit "failed to read response: " ++ Error readErr)) next
      | Response StatusCode body =>
          if StatusCode =? 200 then
            match json_Unmarshal body with
            | inl err =>
                ret (inl (Errorf (lit "failed to parse JSON: " ++ Error err)))
            | inr wikimediaResp =>
                let allEvents :=
                  (fun event => mkWikimediaEvent (Year event) (Text event)
                                                 (lit "event"))
                  <$> Events wikimediaResp in
                do allEvents <- shuffleEvents allEvents;
                ret (inr allEvents)
            end
          else if (StatusCode =? 429)
                  || ((500 <=? StatusCode) && (StatusCode <? 600)) then
            backoffOr attempt backoff
              (Errorf (lit "API returned status code: " ++ Itoa StatusCode))
              next
          else
            ret (inl (Errorf (lit "API returned status code: "
                              ++ Itoa StatusCode ++ lit ", body: " ++ body)))
      end
  end.

(** [fetchHistoricalEvents] on the month and the day of [time.Now()]. *)
Definition fetchHistoricalEvents (month day : Z)
    : M (error + list WikimediaEvent) :=
  let url :=
    lit "https://api.wikimedia.org/feed/v1/wikipedia/en/onthisday/all/"
    ++ Sprintf02d month ++ lit "/" ++ Sprintf02d day in
  fetchLoop url (Z.to_nat maxAttempts) (500 * Millisecond).

End WithNet.

(** The timers of successive retries that start from [backoff]: timer
    [k] is within 100ms of [backoff * 2^k], below or above, by a whole
    number of milliseconds. *)
Definition onSchedule (backoff : Z) (ds : list Z) : Prop :=
  forall (k : nat) d, ds !! k = Some d ->
    backoff * 2 ^ Z.of_nat k - 100 * Millisecond <= d
    < backoff * 2 ^ Z.of_nat k + 100 * Millisecond
    /\ (d - backoff * 2 ^ Z.of_nat k) mod Millisecond = 0.

(** The events of a decoded feed as [fetchHistoricalEvents] hands them
    on: the entries of "events", each typed "event". *)
Definition typedEvents (resp : WikimediaResponse) : list WikimediaEvent :=
  (fun event => mkWikimediaEvent (Year event) (Text event) (lit "event"))
  <$> Events resp.

(** A decoded feed of two events and a birth, and the server that
    sends it. *)
Definition sampleResponse : WikimediaResponse :=
  {| Events := [mkWikimediaEvent 1969 (lit "Moon landing") (lit "selected");
                mkWikimediaEvent 1970 (lit "Apollo 13 returns") []];
     Births := [mkWikimediaEvent 1930 (lit "Neil Armstrong") (lit "birth")];
     Deaths := [] |}.

Definition sampleDecode (body : gostring) : error + WikimediaResponse :=
  if bool_decide (body = lit "feed") then inr sampleResponse
  else inl (LibErr (lit "invalid character")).

Definition sampleNetwork (k : nat) : RoundTrip := Response 200 (lit "feed").

End Feed.

(* ===================================================================== *)
(** * Part II: properties                                                *)
(* ===================================================================== *)

(** ** Slices and strings *)

Section SliceFacts.

Context {A : Type}.
Implicit Types (l k : list A).

Lemma len_app l k : len (l ++ k) = len l + len k.
Proof. unfold len. rewrite length_app. lia. Qed.

Lemma len_nonneg l : 0 <= len l.
Proof. unfold len. lia. Qed.

Lemma len_zero_inv l : len l = 0 -> l = [].
Proof. destruct l; [done | unfold len; simpl; lia]. Qed.

Lemma len_cons x l : len (x :: l) = 1 + len l.
Proof. unfold len. simpl length. lia. Qed.

Lemma len_take_le (n : Z) l : 0 <= n <= len l -> len (take (Z.to_nat n) l) = n.
Proof. unfold len. intros H. rewrite length_take. lia. Qed.

End SliceFacts.

(** ** Word wrap *)

Section WrapFacts.

Implicit Types (text word : gostring) (maxWidth : Z).
Implicit Types (lines words : list gostring).

Lemma truncateWord_len word maxWidth :
  1 <= maxWidth -> maxWidth < len word ->
  len (truncateWord word maxWidth) = maxWidth.
Proof.
  intros Hw Hlong. unfold truncateWord.
  destruct (Z.ltb_spec 3 maxWidth).
  - rewrite len_app, len_take_le by lia. change (len (lit "...")) with 3. lia.
  - apply len_take_le. lia.
Qed.

(** The loop invariant of [wrapText]: every finished line and the line
    under construction fit. *)
Lemma wrapStep_fits maxWidth lines current word :
  1 <= maxWidth ->
  Forall (fits maxWidth) lines -> fits maxWidth current ->
  Forall (fits maxWidth) (wrapStep maxWidth (lines, current) word).1
  /\ fits maxWidth (wrapStep maxWidth (lines, current) word).2.
Proof.
  intros Hw Hl Hc. unfold wrapStep, fits in *.
  assert (Htr : maxWidth < len word ->
                len (truncateWord word maxWidth) <= maxWidth).
  { intros. rewrite truncateWord_len; lia. }
  repeat match goal with
         | |- context [if ?b =? ?c then _ else _] =>
             destruct (Z.eqb_spec b c)
         | |- context [if ?b <=? ?c then _ else _] =>
             destruct (Z.leb_spec b c)
         end; simpl; split;
    rewrite ?Forall_app, ?Forall_singleton, ?len_app, ?len_cons;
    repeat split; auto; try lia.
  change (len []) with 0. lia.
Qed.

Lemma wrapLoop_fits maxWidth words : forall lines current,
  1 <= maxWidth ->
  Forall (fits maxWidth) lines -> fits maxWidth current ->
  Forall (fits maxWidth) (foldl (wrapStep maxWidth) (lines, current) words).1
  /\ fits maxWidth (foldl (wrapStep maxWidth) (lines, current) words).2.
Proof.
  induction words as [|w words IH]; intros lines current Hw Hl Hc; [done |].
  cbn [foldl].
  destruct (wrapStep_fits maxWidth lines current w Hw Hl Hc) as [Hl' Hc'].
  destruct (wrapStep maxWidth (lines, current) w) as [lines' current'].
  by apply IH.
Qed.

Lemma wrapWords_fits maxWidth words :
  1 <= maxWidth -> Forall (fits maxWidth) (wrapWords maxWidth words).
Proof.
  intros Hw. unfold wrapWords.
  destruct (wrapLoop_fits maxWidth words [] [] Hw) as [Hl Hc];
    [done | unfold fits; change (len []) with 0; lia |].
  destruct (foldl _ _ words) as [lines current]. simpl in *.
  destruct (0 <? len current); [| done].
  rewrite Forall_app, Forall_singleton. done.
Qed.

(** C7: with a width of at least one, no line that [wrapText] returns
    is longer than [maxWidth] runes. *)
Theorem wrapText_lines_fit text maxWidth :
  1 <= maxWidth ->
  forall line, line ∈ wrapText text maxWidth -> len line <= maxWidth.
Proof.
  intros Hw. apply Forall_forall. unfold wrapText.
  destruct (Z.leb_spec maxWidth 0); [lia |].
  destruct (Z.leb_spec (len text) maxWidth).
  { by apply Forall_singleton. }
  assert (Hempty : Forall (fun l => len l <= maxWidth) [ @nil rune ]).
  { apply Forall_singleton. change (len []) with 0. lia. }
  destruct (len (Fields text) =? 0); [done |].
  destruct (len (wrapWords maxWidth (Fields text)) =? 0); [done |].
  by apply wrapWords_fits.
Qed.

Lemma wrapText_lines_fit_witness :
  1 <= 7 /\
  forall line, line ∈ wrapText (lit "hello big world") 7 -> len line <= 7.
Proof. split; [lia | apply wrapText_lines_fit; lia]. Defined.

Lemma wrapText_first text maxWidth :
  is_Some (wrapText text maxWidth !! 0%nat).
Proof.
  unfold wrapText.
  destruct (maxWidth <=? 0); [by eexists |].
  destruct (len text <=? maxWidth); [by eexists |].
  destruct (len (Fields text) =? 0); [by eexists |].
  destruct (wrapWords maxWidth (Fields text)) as [|l ls] eqn:E;
    by eexists.
Qed.

Lemma displayLoop_total selected : forall yPos,
  is_Some (displayLoop selected yPos).
Proof.
  induction selected as [|e rest IH]; intros yPos; [by eexists |].
  cbn [displayLoop].
  destruct (wrapText_first (TrimSpace (Text e)) maxLineLength) as [l ->].
  destruct (IH (yPos + len (wrapText (TrimSpace (Text e)) maxLineLength) + 1))
    as [more ->].
  by eexists.
Qed.

(** C10: whatever the text and the width (also a width of zero or
    less, an empty text, a text of spaces only), [wrapText] returns at
    least one line, so [wrapped[0]] in [RenderEvents] is within range:
    the display loop never stops on an index error. *)
Theorem wrapText_never_empty :
  (forall text maxWidth,
      1 <= len (wrapText text maxWidth)
      /\ is_Some (wrapText text maxWidth !! 0%nat))
  /\ (forall events, is_Some (RenderEvents events)).
Proof.
  split.
  - intros text maxWidth.
    pose proof (wrapText_first text maxWidth) as Hf. split; [| done].
    destruct Hf as [l Hl]. apply lookup_lt_Some in Hl. unfold len. lia.
  - intros events. apply displayLoop_total.
Qed.

(** *** Words of a text *)

Lemma fieldsFrom_len s : forall cur word,
  word ∈ fieldsFrom cur s -> len word <= len cur + len s.
Proof.
  induction s as [|r s IH]; intros cur word; cbn [fieldsFrom].
  - case_decide; [by intros ?%elem_of_nil |].
    intros ->%list_elem_of_singleton. change (len (@nil rune)) with 0. lia.
  - rewrite len_cons. destruct (IsSpace r).
    + case_decide as Hcur; [subst cur |].
      * intros H%IH. change (len (@nil rune)) with 0 in *. lia.
      * intros [-> | H%IH]%elem_of_cons;
          [pose proof (len_nonneg s) | change (len (@nil rune)) with 0 in *;
                                       pose proof (len_nonneg cur)]; lia.
    + intros H%IH. rewrite len_app, len_cons in H.
      change (len (@nil rune)) with 0 in *. lia.
Qed.

Lemma Fields_len text word : word ∈ Fields text -> len word <= len text.
Proof.
  intros H%fieldsFrom_len. change (len (@nil rune)) with 0 in H. lia.
Qed.

Lemma fieldsFrom_no_space s : forall cur,
  (forall r, r ∈ s -> IsSpace r = false) -> cur ++ s <> [] ->
  fieldsFrom cur s = [cur ++ s].
Proof.
  induction s as [|r s IH]; intros cur Hs Hne; cbn [fieldsFrom].
  - rewrite app_nil_r in Hne |- *.
    case_decide; [contradiction | reflexivity].
  - rewrite (Hs r) by (apply elem_of_cons; by left).
    rewrite IH, <- app_assoc; [done | |].
    + intros r' Hr'. apply Hs. apply elem_of_cons. by right.
    + by destruct cur.
Qed.

Lemma Fields_single_word word :
  (forall r, r ∈ word -> IsSpace r = false) -> word <> [] ->
  Fields word = [word].
Proof. intros. by apply fieldsFrom_no_space. Qed.

(** *** A word longer than the line *)

(** Lines already finished do not influence the loop. *)
Lemma wrapStep_finished maxWidth done lines current word :
  wrapStep maxWidth (done ++ lines, current) word =
  (done ++ (wrapStep maxWidth (lines, current) word).1,
   (wrapStep maxWidth (lines, current) word).2).
Proof.
  unfold wrapStep.
  repeat match goal with
         | |- context [if ?b then _ else _] => destruct b
         end; simpl; by rewrite ?app_assoc.
Qed.

Lemma wrapLoop_finished maxWidth done words : forall lines current,
  foldl (wrapStep maxWidth) (done ++ lines, current) words =
  (done ++ (foldl (wrapStep maxWidth) (lines, current) words).1,
   (foldl (wrapStep maxWidth) (lines, current) words).2).
Proof.
  induction words as [|w words IH]; intros lines current; [done |].
  cbn [foldl]. rewrite wrapStep_finished.
  destruct (wrapStep maxWidth (lines, current) w) as [lines' current'].
  apply IH.
Qed.

(** The loop at a word that is too long: the line under construction
    is flushed, the word gives one line, and the next line starts
    empty. *)
Lemma wrapStep_long_word maxWidth lines current word :
  1 <= maxWidth -> maxWidth < len word ->
  wrapStep maxWidth (lines, current) word =
  ((if 0 <? len current then lines ++ [current] else lines)
     ++ [truncateWord word maxWidth], []).
Proof.
  intros Hw Hlong. unfold wrapStep.
  pose proof (len_nonneg current).
  destruct (Z.eqb_spec (len current) 0) as [E | E].
  - rewrite (len_zero_inv _ E). change (len []) with 0.
    destruct (Z.leb_spec (len word) maxWidth); [lia | done].
  - destruct (Z.ltb_spec 0 (len current)); [| lia].
    destruct (Z.leb_spec (len current + 1 + len word) maxWidth); [lia |].
    destruct (Z.leb_spec (len word) maxWidth); [lia | done].
Qed.

Lemma wrapWords_long_word maxWidth pre word post :
  1 <= maxWidth -> maxWidth < len word ->
  wrapWords maxWidth (pre ++ word :: post) =
  wrapWords maxWidth pre ++ [truncateWord word maxWidth]
    ++ wrapWords maxWidth post.
Proof.
  intros Hw Hlong. unfold wrapWords.
  rewrite foldl_app. cbn [foldl].
  destruct (foldl (wrapStep maxWidth) ([], []) pre) as [lines current].
  rewrite wrapStep_long_word by done.
  rewrite <- (app_nil_r (_ ++ [truncateWord word maxWidth])) at 1.
  rewrite wrapLoop_finished.
  destruct (foldl (wrapStep maxWidth) ([], []) post) as [lines' current'].
  cbn [fst snd].
  destruct (0 <? len current'); by rewrite <- ?app_assoc.
Qed.

(** C8: a word longer than [maxWidth] (at least one) gives exactly
    one line: its first [maxWidth-3] runes and "..." when
    [maxWidth > 3], else its first [maxWidth] runes.  This holds for the
    word as the whole text, and for the word within any text, where the
    words before and after it are wrapped by themselves. *)
Theorem wrapText_long_word word maxWidth :
  1 <= maxWidth -> maxWidth < len word ->
  (forall r, r ∈ word -> IsSpace r = false) ->
  let line :=
    if 3 <? maxWidth
    then take (Z.to_nat (maxWidth - 3)) word ++ lit "..."
    else take (Z.to_nat maxWidth) word in
  wrapText word maxWidth = [line]
  /\ forall text pre post,
      Fields text = pre ++ word :: post ->
      wrapText text maxWidth =
      wrapWords maxWidth pre ++ [line] ++ wrapWords maxWidth post.
Proof.
  intros Hw Hlong Hword line.
  assert (Hctx : forall text pre post,
             Fields text = pre ++ word :: post ->
             wrapText text maxWidth =
             wrapWords maxWidth pre ++ [line] ++ wrapWords maxWidth post).
  { intros text pre post HF. unfold wrapText.
    destruct (Z.leb_spec maxWidth 0); [lia |].
    assert (len word <= len text).
    { apply Fields_len. rewrite HF. set_solver. }
    destruct (Z.leb_spec (len text) maxWidth); [lia |].
    rewrite HF, wrapWords_long_word by done.
    rewrite !len_app, len_cons.
    pose proof (len_nonneg (wrapWords maxWidth pre)).
    pose proof (len_nonneg (wrapWords maxWidth post)).
    pose proof (len_nonneg pre). pose proof (len_nonneg post).
    destruct (Z.eqb_spec (len pre + (1 + len post)) 0); [lia |].
    destruct (Z.eqb_spec (len (wrapWords maxWidth pre)
                          + (len [truncateWord word maxWidth]
                             + len (wrapWords maxWidth post))) 0) as [E|_];
      [| done].
    change (len [truncateWord word maxWidth]) with 1 in E. lia. }
  split; [| exact Hctx].
  apply (Hctx word [] []).
  apply Fields_single_word; [done |].
  intros ->. change (len []) with 0 in Hlong. lia.
Qed.

Lemma wrapText_long_word_witness :
  wrapText (lit "supercalifragilistic") 7 = [lit "supe..."]
  /\ wrapText (lit "a supercalifragilistic b c") 7 =
     [lit "a"] ++ [lit "supe..."] ++ [lit "b c"].
Proof.
  destruct (wrapText_long_word (lit "supercalifragilistic") 7) as [H1 H2].
  - lia.
  - vm_compute. reflexivity.
  - intros r Hr. repeat (apply elem_of_cons in Hr as [-> | Hr]; [reflexivity |]).
    by apply elem_of_nil in Hr.
  - split; [exact H1 |].
    exact (H2 (lit "a supercalifragilistic b c") [lit "a"] [lit "b"; lit "c"]
              eq_refl).
Defined.

End WrapFacts.

(** ** The row budget *)

Section FitFacts.

Variable wrap : gostring -> Z -> list gostring.

Lemma eventRows_pos e : 1 <= eventRows wrap e.
Proof. unfold eventRows. pose proof (len_nonneg (wrap (TrimSpace (Text e)) maxLineLength)). lia. Qed.

Lemma rowsUsed_nonneg events : 0 <= rowsUsed wrap events.
Proof.
  induction events as [|e events IH]; simpl; [lia |].
  pose proof (eventRows_pos e). lia.
Qed.

Lemma rowsUsed_app l k :
  rowsUsed wrap (l ++ k) = rowsUsed wrap l + rowsUsed wrap k.
Proof. induction l as [|e l IH]; simpl; lia. Qed.

(** The loop accepts a prefix [accepted] of the events it is given;
    each accepted event kept the total within the budget and found
    fewer than five events accepted; the event after the prefix, if
    any, does not fit or is the sixth. *)
Lemma fitLoop_greedy events : forall selected total,
  exists accepted rest,
    events = accepted ++ rest
    /\ fitLoop wrap events selected total
       = (selected ++ accepted, total + rowsUsed wrap accepted)
    /\ (forall p e q, accepted = p ++ e :: q ->
           total + rowsUsed wrap p + eventRows wrap e <= maxContentRows
           /\ len (selected ++ p) < 5)
    /\ match rest with
       | [] => True
       | e :: _ =>
           maxContentRows < total + rowsUsed wrap accepted + eventRows wrap e
           \/ 5 <= len (selected ++ accepted)
       end.
Proof.
  assert (Hstop : forall rest selected total,
    match rest with
    | [] => True
    | e :: _ => maxContentRows < total + 0 + eventRows wrap e
                \/ 5 <= len (selected ++ [])
    end ->
    exists accepted rest',
      rest = accepted ++ rest'
      /\ (selected, total)
         = (selected ++ accepted, total + rowsUsed wrap accepted)
      /\ (forall p e q, accepted = p ++ e :: q ->
             total + rowsUsed wrap p + eventRows wrap e <= maxContentRows
             /\ len (selected ++ p) < 5)
      /\ match rest' with
         | [] => True
         | e :: _ =>
             maxContentRows
             < total + rowsUsed wrap accepted + eventRows wrap e
             \/ 5 <= len (selected ++ accepted)
         end).
  { intros rest selected total Hrest. exists [], rest.
    split; [done |]. split; [| split; [| exact Hrest]].
    - rewrite app_nil_r. f_equal. simpl. lia.
    - intros [|??] ?? [=]. }
  induction events as [|e events IH]; intros selected total.
  { by apply Hstop. }
  cbn [fitLoop]. fold (eventRows wrap e).
  destruct (Z.leb_spec (total + eventRows wrap e) maxContentRows) as [Hfit|Hfit];
    destruct (Z.ltb_spec (len selected) 5) as [Hfew|Hfew]; cbn [andb];
    [| apply Hstop; rewrite app_nil_r; lia ..].
  destruct (IH (selected ++ [e]) (total + eventRows wrap e))
    as (accepted & rest & -> & -> & Hacc & Hrest).
  exists (e :: accepted), rest. rewrite <- !app_assoc. simpl.
  split; [done |]. split; [f_equal; lia |]. split.
  - intros [|e' p] e0 q [= <- Hq]; simpl.
    + rewrite app_nil_r. lia.
    + destruct (Hacc p e0 q Hq) as [H1 H2].
      rewrite <- app_assoc in H2. simpl in H2. lia.
  - destruct rest; [done |]. rewrite <- app_assoc in Hrest. simpl in Hrest.
    lia.
Qed.

(** The scenario of one short event, for any wrap function that leaves
    the short text on one line. *)
Lemma fitLoop_moon_landing :
  wrap (lit "Moon landing") 65 = [lit "Moon landing"] ->
  fitLoop wrap [moonLanding] [] 0 = ([moonLanding], 2).
Proof.
  intros H. cbn [fitLoop Text moonLanding].
  change (TrimSpace (lit "Moon landing")) with (lit "Moon landing").
  change maxLineLength with 65. rewrite H. reflexivity.
Qed.

End FitFacts.

Section RenderFacts.

(** C6: the fitting loop of [RenderEvents] accepts events greedily in
    input order.  An event costs its wrapped lines plus one row; the
    accepted events are a prefix of the input, each of them kept the
    running total within the 12 rows and was at most the fifth, and the
    first event left out (with all after it) exceeds the budget or is
    the sixth.  The event {1969, "Moon landing"} alone, wrapped at 65,
    is accepted with one line and uses 2 rows. *)
Theorem fitEvents_greedy :
  (forall events, exists rest,
      events = (fitEvents events).1 ++ rest
      /\ (fitEvents events).2 = rowsUsed wrapText (fitEvents events).1
      /\ (forall p e q, (fitEvents events).1 = p ++ e :: q ->
             rowsUsed wrapText p + eventRows wrapText e <= 12
             /\ len p < 5)
      /\ match rest with
         | [] => True
         | e :: _ =>
             12 < (fitEvents events).2 + eventRows wrapText e
             \/ len (fitEvents events).1 = 5
         end)
  /\ (forall e, eventRows wrapText e
                = len (wrapText (TrimSpace (Text e)) 65) + 1)
  /\ wrapText (TrimSpace (lit "Moon landing")) 65 = [lit "Moon landing"]
  /\ fitEvents [moonLanding] = ([moonLanding], 2).
Proof.
  split; [| by vm_compute].
  intros events. unfold fitEvents.
  destruct (fitLoop_greedy wrapText events [] 0)
    as (accepted & rest & Hev & -> & Hacc & Hrest).
  exists rest. cbn [fst snd app]. split; [done |].
  split; [apply Z.add_0_l |]. rewrite Z.add_0_l in Hrest.
  unfold maxContentRows in *.
  split; [intros p e q Hq; destruct (Hacc p e q Hq); split; [lia | done] |].
  destruct rest as [|e rest]; [done |].
  destruct Hrest as [H | H]; [left; exact H | right].
  cbn [app] in H.
  destruct (decide (accepted = [])) as [-> | Hne]; [unfold len in H; simpl in H; lia |].
  destruct (exists_last Hne) as (p & e' & ->).
  destruct (Hacc p e' [] eq_refl) as [_ Hp].
  cbn [app] in Hp. rewrite len_app in H |- *.
  change (len [e']) with 1 in *. lia.
Qed.

End RenderFacts.

(** ** Shuffling *)

Section RandFacts.

Context {A : Type}.
Implicit Types (s : list A) (g : Rand.state).

Lemma insert_perm_cons s j x y :
  s !! j = Some y -> y :: <[j := x]> s ≡ₚ x :: s.
Proof.
  revert j. induction s as [|z s IH]; intros [|j] Hj; simplify_eq/=.
  - apply Permutation_swap.
  - etrans; [apply Permutation_swap |].
    etrans; [apply Permutation_skip, (IH j Hj) |].
    apply Permutation_swap.
Qed.

Lemma swap_perm s i j : Rand.swap s i j ≡ₚ s.
Proof.
  unfold Rand.swap.
  destruct (s !! i) as [x|] eqn:Hi; [| done].
  destruct (s !! j) as [y|] eqn:Hj; [| done].
  revert i j Hi Hj.
  induction s as [|z s IH]; intros [|i] [|j] Hi Hj; simplify_eq/=.
  - done.
  - by apply insert_perm_cons.
  - by apply insert_perm_cons.
  - apply Permutation_skip. by apply IH.
Qed.

Lemma shuffleLoop_perm i : forall s g, (Rand.shuffleLoop i s g).1 ≡ₚ s.
Proof.
  induction i as [|i IH]; intros s g; [done |].
  cbn [Rand.shuffleLoop].
  destruct (Rand.Int63n (Z.of_nat (S i) + 1) g) as [j g'].
  rewrite IH. apply swap_perm.
Qed.

Lemma Shuffle_perm s g : (Rand.Shuffle s g).1 ≡ₚ s.
Proof. apply shuffleLoop_perm. Qed.

End RandFacts.

(** ** Sorting by year *)

Section SortFacts.

Import Sort.

Lemma insertByYear_perm x s : insertByYear x s ≡ₚ x :: s.
Proof.
  induction s as [|y s IH]; simpl; [done |].
  destruct (Year y <? Year x); [| done].
  rewrite IH. apply Permutation_swap.
Qed.

Lemma SliceStableByYear_perm s : SliceStableByYear s ≡ₚ s.
Proof.
  induction s as [|x s IH]; simpl; [done |].
  by rewrite insertByYear_perm, IH.
Qed.

Lemma SliceStableByYear_length s : length (SliceStableByYear s) = length s.
Proof. by rewrite SliceStableByYear_perm. Qed.

Lemma insertByYear_sorted x s :
  sortedByYear s -> sortedByYear (insertByYear x s).
Proof.
  unfold sortedByYear. induction 1 as [|y s Hs IH Hy]; simpl.
  { repeat constructor. }
  destruct (Z.ltb_spec (Year y) (Year x)).
  - constructor; [done |].
    rewrite insertByYear_perm. constructor; [lia | done].
  - constructor; [by constructor |].
    constructor; [lia |].
    eapply Forall_impl; [exact Hy |]. simpl. intros; lia.
Qed.

Lemma SliceStableByYear_sorted s : sortedByYear (SliceStableByYear s).
Proof.
  induction s as [|x s IH]; simpl; [constructor |].
  by apply insertByYear_sorted.
Qed.

Lemma sortedByYear_take n s : sortedByYear s -> sortedByYear (take n s).
Proof.
  unfold sortedByYear. intros Hs. revert n.
  induction Hs as [|y s Hs IH Hy]; intros [|n]; simpl; try constructor.
  - apply IH.
  - eapply Forall_forall. intros z Hz.
    eapply Forall_forall in Hy; [exact Hy |].
    by eapply subseteq_take.
Qed.

End SortFacts.

(** ** The selection strategies *)

Section SelectorFacts.

Import Sort Selector.

Lemma oldest_first_value events g :
  applyStrategy events false (lit "oldest-first") g
  = (take 5 (SliceStableByYear events), g).
Proof.
  unfold applyStrategy. cbn [andb].
  rewrite (bool_decide_eq_false_2 (lit "oldest-first" = lit "era-based"))
    by discriminate.
  rewrite (bool_decide_eq_false_2 (lit "oldest-first" = lit "random"))
    by discriminate.
  rewrite (bool_decide_eq_true_2 (lit "oldest-first" = lit "oldest-first"))
    by reflexivity.
  assert (Hsort : (if 1 <? len events then SliceStableByYear events
                   else events) = SliceStableByYear events).
  { destruct (Z.ltb_spec 1 (len events)) as [|Hshort]; [done |].
    destruct events as [|x [|y events]]; try done.
    rewrite !len_cons in Hshort. pose proof (len_nonneg events). lia. }
  rewrite Hsort. f_equal.
  destruct (Z.ltb_spec 5 (len (SliceStableByYear events))) as [|Hfew]; [done |].
  rewrite take_ge; [done |]. unfold len in Hfew. lia.
Qed.

(** C9: oldest-first without the shuffle flag does not depend on the
    random generator: any two runs on the same events give the same
    list, and leave the generator as it was.  The list is ascending by
    year and has at most five events. *)
Theorem oldest_first_deterministic events g1 g2 :
  (applyStrategy events false (lit "oldest-first") g1).1
  = (applyStrategy events false (lit "oldest-first") g2).1
  /\ (applyStrategy events false (lit "oldest-first") g1).2 = g1
  /\ sortedByYear (applyStrategy events false (lit "oldest-first") g1).1
  /\ len (applyStrategy events false (lit "oldest-first") g1).1 <= 5.
Proof.
  rewrite !oldest_first_value. cbn [fst snd].
  repeat split.
  - apply sortedByYear_take, SliceStableByYear_sorted.
  - unfold len. rewrite length_take. lia.
Qed.

(** *** The era-based selection *)

Lemma Shuffle_pair {A} (a b : A) g :
  (Rand.Shuffle [a; b] g).1 = [a; b] \/ (Rand.Shuffle [a; b] g).1 = [b; a].
Proof.
  unfold Rand.Shuffle. cbn [length Nat.sub Rand.shuffleLoop].
  destruct g as [|r g]; cbn [Rand.Int63n].
  { right. reflexivity. }
  change (Z.of_nat 1 + 1) with 2.
  assert (Hj : Z.to_nat (r mod 2) = 0%nat \/ Z.to_nat (r mod 2) = 1%nat).
  { pose proof (Z.mod_pos_bound r 2). lia. }
  destruct Hj as [-> | ->]; [right | left]; reflexivity.
Qed.

(** C1, the input on which the claim fails: no era holds the year -44,
    so both copies of the event reach the fill pass, which takes them
    without marking the first as seen. Whatever the generator does, the
    selection is the event twice. *)
Theorem selectEventsByEra_keeps_duplicates g :
  (selectEventsByEra [caesar; caesar] g).1 = [caesar; caesar]
  /\ ~ NoDup (selectEventsByEra [caesar; caesar] g).1.
Proof.
  assert (H : (selectEventsByEra [caesar; caesar] g).1 = [caesar; caesar]).
  { unfold selectEventsByEra.
    change (len [caesar; caesar] =? 0) with false. cbv iota.
    change (eraLoop [caesar; caesar] eras [] ∅ g) with
      (@nil Event, (∅ : gmap gostring bool), g).
    cbv iota beta. unfold fillRemaining.
    change (len [] <? 5) with true. cbv iota.
    change (indicesWhere _ [caesar; caesar]) with [0%nat; 1%nat].
    change (0 <? len [0%nat; 1%nat]) with true. cbv iota.
    pose proof (Shuffle_pair 0%nat 1%nat g) as Hs.
    destruct (Rand.Shuffle [0%nat; 1%nat] g) as [remaining g'].
    cbn [fst] in Hs. destruct Hs as [-> | ->]; reflexivity. }
  split; [exact H |].
  rewrite H. intros Hnd. apply NoDup_cons in Hnd as [Hnotin _].
  apply Hnotin. by apply list_elem_of_singleton.
Qed.

(** The same does not hinge on the year: when the draws are 2 and 1 the
    shuffle of the era leaves its indices in place, the first pass takes
    the event of 1969, and the fill pass takes both copies of the event
    of 1970. *)
Example selectEventsByEra_duplicates_in_era :
  (selectEventsByEra [woodstock; apollo13; apollo13] [2; 1]).1
  = [woodstock; apollo13; apollo13].
Proof. by vm_compute. Qed.

(** *** What the era-based selection does guarantee *)

Lemma indicesFrom_lookup p l : forall i j,
  j ∈ indicesFrom i p l ->
  (i <= j)%nat /\ exists ev, l !! (j - i)%nat = Some ev /\ p ev = true.
Proof.
  induction l as [|ev l IH]; intros i j; cbn [indicesFrom].
  { by intros ?%elem_of_nil. }
  assert (Hrest : j ∈ indicesFrom (S i) p l ->
            (i <= j)%nat /\
            exists ev', (ev :: l) !! (j - i)%nat = Some ev' /\ p ev' = true).
  { intros (Hle & ev' & Hl & Hp)%IH. split; [lia |]. exists ev'.
    replace (j - i)%nat with (S (j - S i)) by lia. done. }
  destruct (p ev) eqn:Hp; [| exact Hrest].
  intros [-> | H]%elem_of_cons; [| by apply Hrest].
  split; [lia |]. exists ev. by rewrite Nat.sub_diag.
Qed.

Lemma indicesFrom_NoDup p l : forall i, NoDup (indicesFrom i p l).
Proof.
  induction l as [|ev l IH]; intros i; cbn [indicesFrom]; [constructor |].
  destruct (p ev); [| apply IH].
  constructor; [| apply IH].
  intros [Hle _]%indicesFrom_lookup. lia.
Qed.

Section Selection.

Variable allEvents : list Event.

Abbreviation passInv := (passInv allEvents).

Lemma pickLoop_inv picks : forall selected seen,
  passInv selected seen -> len selected < 5 ->
  passInv (pickLoop allEvents picks selected seen).1
          (pickLoop allEvents picks selected seen).2.
Proof.
  induction picks as [|idx picks IH]; intros selected seen Hinv Hlt;
    cbn [pickLoop]; [done |].
  destruct (allEvents !! idx) as [ev|] eqn:Hev; [| done].
  destruct Hinv as (Hnd & Hmk & Hsub & Hlen).
  assert (Hinv' : passInv
            (if negb (isSeen seen (keyFor ev))
             then (selected ++ [ev], <[keyFor ev := true]> seen)
             else (selected, seen)).1
            (if negb (isSeen seen (keyFor ev))
             then (selected ++ [ev], <[keyFor ev := true]> seen)
             else (selected, seen)).2).
  { destruct (isSeen seen (keyFor ev)) eqn:Hseen; cbn [negb fst snd];
      [done |].
    repeat split.
    - apply NoDup_app. repeat split; [done | | apply NoDup_singleton].
      intros e He ->%list_elem_of_singleton.
      rewrite (Hmk _ He) in Hseen. discriminate.
    - intros e [He | ->%list_elem_of_singleton]%elem_of_app;
        unfold isSeen.
      + destruct (decide (keyFor ev = keyFor e)) as [-> | Hne].
        * by rewrite lookup_insert_eq.
        * rewrite lookup_insert_ne by done. by apply Hmk.
      + by rewrite lookup_insert_eq.
    - intros e [He | ->%list_elem_of_singleton]%elem_of_app;
        [by apply Hsub | by eapply list_elem_of_lookup_2].
    - rewrite len_app. change (len [ev]) with 1. lia. }
  destruct (if negb (isSeen seen (keyFor ev)) then _ else _)
    as [selected' seen'].
  cbn [fst snd] in Hinv'.
  destruct (Z.leb_spec 5 (len selected')); [done |].
  by apply IH.
Qed.

Lemma eraLoop_inv todo : forall selected seen g,
  passInv selected seen -> len selected < 5 ->
  passInv (eraLoop allEvents todo selected seen g).1.1
          (eraLoop allEvents todo selected seen g).1.2.
Proof.
  induction todo as [|era todo IH]; intros selected seen g Hinv Hlt;
    cbn [eraLoop]; [done |].
  destruct (len (indicesWhere _ allEvents) =? 0); [by apply IH |].
  destruct (Rand.Shuffle _ g) as [eraEvents g'].
  pose proof (pickLoop_inv (take (Z.to_nat (quota era)) eraEvents)
                selected seen Hinv Hlt) as Hinv'.
  destruct (pickLoop allEvents _ selected seen) as [selected' seen'].
  cbn [fst snd] in Hinv'.
  destruct (Z.leb_spec 5 (len selected')); [done |].
  by apply IH.
Qed.

Lemma omap_lookup_length (idxs : list nat) :
  (length (omap (fun i => allEvents !! i) idxs) <= length idxs)%nat.
Proof.
  induction idxs as [|i idxs IH]; cbn [omap list_omap]; [done |].
  destruct (allEvents !! i); simpl; lia.
Qed.

Lemma elem_of_omap_lookup (idxs : list nat) e :
  e ∈ omap (fun i => allEvents !! i) idxs ->
  exists i, i ∈ idxs /\ allEvents !! i = Some e.
Proof.
  intros (i & Hi & He)%list_elem_of_omap. by exists i.
Qed.

Lemma omap_lookup_NoDup (idxs : list nat) :
  NoDup allEvents -> NoDup idxs ->
  NoDup (omap (fun i => allEvents !! i) idxs).
Proof.
  intros Hall. induction 1 as [|i idxs Hi Hnd IH];
    cbn [omap list_omap]; [constructor |].
  destruct (allEvents !! i) as [e|] eqn:He; [| done].
  constructor; [| done].
  intros (i' & Hi' & He')%elem_of_omap_lookup.
  rewrite (NoDup_lookup _ _ _ _ Hall He He') in Hi. done.
Qed.

Lemma fillRemaining_spec selected seen g :
  passInv selected seen ->
  len (fillRemaining allEvents selected seen g).1 <= 5
  /\ (fillRemaining allEvents selected seen g).1 ⊆ allEvents
  /\ (NoDup allEvents ->
      NoDup (fillRemaining allEvents selected seen g).1).
Proof.
  intros (Hnd & Hmk & Hsub & Hlen). unfold fillRemaining.
  destruct (Z.ltb_spec (len selected) 5) as [Hlt|]; [| done].
  set (remaining := indicesWhere _ allEvents).
  destruct (0 <? len remaining); [| done].
  pose proof (Shuffle_perm remaining g) as Hperm.
  destruct (Rand.Shuffle remaining g) as [shuffled g'].
  cbn [fst] in Hperm |- *.
  set (need := if len shuffled <? 5 - len selected
               then len shuffled else 5 - len selected).
  assert (Hneed : need <= 5 - len selected).
  { subst need. destruct (Z.ltb_spec (len shuffled) (5 - len selected)); lia. }
  set (idxs := take (Z.to_nat need) shuffled).
  assert (Hidx : forall i, i ∈ idxs ->
            exists ev, allEvents !! i = Some ev
                       /\ isSeen seen (keyFor ev) = false).
  { intros i Hi%subseteq_take. rewrite Hperm in Hi.
    apply indicesFrom_lookup in Hi as (_ & ev & Hev & Hp).
    rewrite Nat.sub_0_r in Hev. exists ev.
    split; [done |]. by apply negb_true_iff. }
  repeat split.
  - rewrite len_app. pose proof (omap_lookup_length idxs) as Hl.
    subst idxs. rewrite length_take in Hl. unfold len in *. lia.
  - intros e [He | (i & _ & He)%elem_of_omap_lookup]%elem_of_app;
      [by apply Hsub | by eapply list_elem_of_lookup_2].
  - intros Hall. apply NoDup_app. repeat split; [done | |].
    + intros e He (i & Hi & Hei)%elem_of_omap_lookup.
      destruct (Hidx i Hi) as (ev & Hev & Hns).
      assert (ev = e) as -> by congruence.
      rewrite (Hmk _ He) in Hns. discriminate.
    + apply omap_lookup_NoDup; [done |].
      subst idxs. eapply sublist_NoDup; [| apply sublist_take].
      rewrite Hperm. apply indicesFrom_NoDup.
Qed.

(** For every input and every behaviour of the generator the era
    selection has at most five events, ascending by year, all taken
    from the input; it has no event twice when the input has none
    twice. *)
Lemma selectEventsByEra_sound g :
  len (selectEventsByEra allEvents g).1 <= 5
  /\ sortedByYear (selectEventsByEra allEvents g).1
  /\ (selectEventsByEra allEvents g).1 ⊆ allEvents
  /\ (NoDup allEvents -> NoDup (selectEventsByEra allEvents g).1).
Proof.
  unfold selectEventsByEra.
  destruct (len allEvents =? 0).
  { cbn [fst]. split; [done |]. split; [constructor |].
    split; [by intros ? ?%elem_of_nil | constructor]. }
  assert (Hinv : passInv (eraLoop allEvents eras [] ∅ g).1.1
                         (eraLoop allEvents eras [] ∅ g).1.2).
  { apply eraLoop_inv; [| done].
    split; [constructor |]. split; [by intros ? ?%elem_of_nil |].
    split; [by intros ? ?%elem_of_nil | done]. }
  destruct (eraLoop allEvents eras [] ∅ g) as [[selected seen] g'].
  cbn [fst snd] in Hinv.
  destruct (fillRemaining_spec selected seen g' Hinv) as (Hlen & Hsub & Hnd).
  destruct (fillRemaining allEvents selected seen g') as [filled g''].
  cbn [fst] in *. repeat split.
  - unfold len in *. by rewrite SliceStableByYear_length.
  - apply SliceStableByYear_sorted.
  - intros e He. apply Hsub. by rewrite <- (SliceStableByYear_perm filled).
  - intros Hall. rewrite SliceStableByYear_perm. by apply Hnd.
Qed.

End Selection.

End SelectorFacts.

(** ** The feed client *)

Section ClientFacts.

Import Wikimedia.

Variable env : Env.

Implicit Types (w : World) (es : list Effect).

(** *** Traces *)

Lemma sleepsOf_app es1 es2 : sleepsOf (es1 ++ es2) = sleepsOf es1 ++ sleepsOf es2.
Proof. apply omap_app. Qed.

Lemma cacheWritesOf_app es1 es2 :
  cacheWritesOf (es1 ++ es2) = cacheWritesOf es1 ++ cacheWritesOf es2.
Proof. apply filter_app. Qed.

Lemma requestsOf_app es1 es2 :
  requestsOf (es1 ++ es2) = requestsOf es1 ++ requestsOf es2.
Proof. apply filter_app. Qed.

Lemma requestsOf_Sleep d fired : requestsOf [Sleep d fired] = [].
Proof. reflexivity. Qed.

Lemma requestsOf_CacheWrite path data ok :
  requestsOf [CacheWrite path data ok] = [].
Proof. reflexivity. Qed.

Lemma requestsOf_HttpGet url : requestsOf [HttpGet url] = [HttpGet url].
Proof. reflexivity. Qed.

Lemma cacheWritesOf_Sleep d fired : cacheWritesOf [Sleep d fired] = [].
Proof. reflexivity. Qed.

Lemma cacheWritesOf_HttpGet url : cacheWritesOf [HttpGet url] = [].
Proof. reflexivity. Qed.

(** *** One step of the client at a time *)

Lemma roundTrip_run url w :
  roundTrip env url w =
  (network env (length (requestsOf (trace w))),
   mkWorld (now w) (files w) (rng w)
     (trace w ++ match network env (length (requestsOf (trace w))) with
                 | RequestError _ => []
                 | _ => [HttpGet url]
                 end)).
Proof.
  unfold roundTrip, bind, count, emit, ret, requestsOf.
  destruct w as [n f g t]; cbn [now files rng trace].
  destruct (network env _); rewrite ?app_nil_r; reflexivity.
Qed.

Lemma sleepContext_run d w :
  sleepContext env d w =
  (ctxDone env (length (sleepsOf (trace w))),
   mkWorld (match ctxDone env (length (sleepsOf (trace w))) with
            | Some _ => now w
            | None => now w + (d + jitterOf (rng w))
            end)
           (files w) (Rand.Int63n (200 * Millisecond) (rng w)).2
           (trace w ++ [Sleep (d + jitterOf (rng w))
                          (bool_decide
                             (ctxDone env (length (sleepsOf (trace w)))
                              = None))])).
Proof.
  assert (Hcount : forall t,
             length (filter (fun e => isSleep e = true) t)
             = length (sleepsOf t)).
  { induction t as [|[] t IH]; simpl; [done .. | | done].
    by rewrite <- IH. }
  unfold sleepContext, bind, count, emit, ret, jitterOf.
  destruct w as [n f g t]; cbn [now files rng trace].
  destruct (Rand.Int63n (200 * Millisecond) g) as [r g'].
  cbn [fst snd now files rng trace]. rewrite Hcount.
  destruct (ctxDone env _); reflexivity.
Qed.

Lemma writeCacheFileAtomic_run path data w :
  writeCacheFileAtomic env path data w =
  (diskError env (length (cacheWritesOf (trace w))),
   mkWorld (now w)
           (match diskError env (length (cacheWritesOf (trace w))) with
            | Some _ => files w
            | None => <[path := mkFile (now w) (Some data)]> (files w)
            end)
           (rng w)
           (trace w ++ [CacheWrite path data
                          (bool_decide
                             (diskError env (length (cacheWritesOf (trace w)))
                              = None))])).
Proof.
  unfold writeCacheFileAtomic, bind, count, emit, ret, cacheWritesOf.
  destruct w as [n f g t]; cbn [now files rng trace].
  destruct (diskError env _); reflexivity.
Qed.

(** *** What a call may do to the world *)

Lemma ret_footprint quiet n backoff (r : result) :
  footprint quiet n backoff (ret r).
Proof.
  intros w. exists []. cbn [ret snd].
  split; [by rewrite app_nil_r |]. split; [exact I |].
  split; [cbn; lia | done].
Qed.

Lemma retryOr_footprint quiet n attempt backoff lastErr next :
  footprint quiet n (backoff * 2) (next (backoff * 2) (Some lastErr)) ->
  footprint quiet n backoff (retryOr env attempt backoff lastErr next).
Proof.
  intros Hnext. unfold retryOr.
  destruct (attempt <? maxAttempts); [| apply ret_footprint].
  intros w. unfold bind. rewrite sleepContext_run.
  destruct (ctxDone env (length (sleepsOf (trace w)))) as [err|].
  - eexists [_]. cbn [ret snd trace]. split; [reflexivity |].
    rewrite requestsOf_Sleep, cacheWritesOf_Sleep.
    split; [by cbn |]. split; [cbn; lia | done].
  - match goal with |- context [next _ _ ?w1] => set (w1' := w1) end.
    destruct (Hnext w1') as (added & Htr & Hsch & Hreq & Hq).
    eexists ([_] ++ added). rewrite Htr. subst w1'.
    cbn [trace rng files] in *.
    rewrite <- app_assoc, sleepsOf_app, requestsOf_app, cacheWritesOf_app.
    rewrite requestsOf_Sleep, cacheWritesOf_Sleep.
    split; [reflexivity |]. split; [by cbn |]. split; [done |].
    intros Hquiet. by destruct (Hq Hquiet) as [-> ->].
Qed.

Lemma roundTrip_footprint quiet n backoff url (k : RoundTrip -> M result) :
  (forall r, footprint quiet n backoff (k r)) ->
  footprint quiet (S n) backoff (bind (roundTrip env url) k).
Proof.
  intros Hk w. unfold bind. rewrite roundTrip_run.
  set (r := network env (length (requestsOf (trace w)))).
  match goal with |- context [k r ?w1] => set (w1' := w1) end.
  destruct (Hk r w1') as (added & Htr & Hsch & Hreq & Hq).
  exists (match r with RequestError _ => [] | _ => [HttpGet url] end ++ added).
  rewrite Htr. subst w1'. cbn [trace rng files] in *.
  rewrite <- app_assoc, sleepsOf_app, requestsOf_app, cacheWritesOf_app,
    length_app.
  split; [reflexivity |].
  split; [by destruct r |].
  split.
  { destruct r; rewrite ?requestsOf_HttpGet;
      change (requestsOf []) with (@nil Effect); cbn [length]; lia. }
  intros Hquiet. destruct (Hq Hquiet) as [-> ->].
  by destruct r; rewrite ?cacheWritesOf_HttpGet.
Qed.

(** A revision is quiet about the cache when it guards the write and
    the caller bypasses the cache. *)
Lemma attemptLoop_footprint rev cacheFile url bypassCache left :
  forall backoff lastErr,
    footprint (match rev with
               | WritesAlways => false
               | WritesUnlessBypass => bypassCache
               end) left backoff
      (attemptLoop env rev cacheFile url bypassCache left backoff lastErr).
Proof.
  induction left as [|left IH]; intros backoff lastErr;
    [apply ret_footprint |].
  cbn [attemptLoop]. apply roundTrip_footprint.
  intros [err | err | status err | status body];
    try (apply ret_footprint); try (apply retryOr_footprint, IH).
  destruct (status =? 200).
  - destruct (parseEventsFromBody env body) as [evs | err];
      [| apply ret_footprint].
    assert (Hwrite : footprint false left backoff
              (bind (bind (writeCacheFileAtomic env cacheFile body)
                          (fun _ => ret tt))
                    (fun _ => ret (Ok evs)))).
    { intros w. unfold bind, ret. rewrite writeCacheFileAtomic_run.
      eexists [_]. cbn [snd trace]. split; [reflexivity |].
      rewrite requestsOf_CacheWrite.
      split; [by cbn |]. split; [cbn; lia | done]. }
    destruct rev; [exact Hwrite |].
    destruct bypassCache; cbn [negb]; [| exact Hwrite].
    apply (ret_footprint true left backoff (Ok evs)).
  - destruct (_ || _); [apply retryOr_footprint, IH | apply ret_footprint].
Qed.

Lemma FetchOnThisDay_footprint rev c month day bypassCache :
  footprint (match rev with
             | WritesAlways => false
             | WritesUnlessBypass => bypassCache
             end) 3 (500 * Millisecond)
    (FetchOnThisDay env rev c month day bypassCache).
Proof.
  unfold FetchOnThisDay.
  destruct (_ || _); [apply ret_footprint |].
  assert (Hloop := attemptLoop_footprint rev (cachePath env c month day)
            (lit "https://api.wikimedia.org/feed/v1/wikipedia/en/onthisday/all/"
             ++ month ++ lit "/" ++ day)
            bypassCache (Z.to_nat maxAttempts) (500 * Millisecond) None).
  destruct bypassCache; cbn [negb].
  - exact Hloop.
  - intros w. unfold bind, tryCache.
    destruct (files w !! _) as [fi|]; [| apply Hloop].
    destruct (_ <=? _); [| apply Hloop].
    destruct (Data fi) as [data|]; [| apply Hloop].
    destruct (parseEventsFromBody env data); [| apply Hloop].
    apply ret_footprint.
Qed.

(** *** The backoff timers *)

Lemma jitterOf_bounds g : 0 <= jitterOf g < 100 * Millisecond.
Proof.
  unfold jitterOf.
  assert (0 <= (Rand.Int63n (200 * Millisecond) g).1 < 200 * Millisecond).
  { destruct g as [|r g]; cbn [Rand.Int63n fst]; [done |].
    apply Z.mod_pos_bound. done. }
  destruct (Z.ltb_spec ((Rand.Int63n (200 * Millisecond) g).1
                        - 100 * Millisecond) 0);
    unfold Millisecond in *; lia.
Qed.

Lemma backoffSchedule_bounds ds : forall backoff g (k : nat) d,
  backoffSchedule backoff g ds -> ds !! k = Some d ->
  backoff * 2 ^ Z.of_nat k <= d
  < backoff * 2 ^ Z.of_nat k + 100 * Millisecond.
Proof.
  induction ds as [|d0 ds IH]; intros backoff g k d Hs Hk; [done |].
  destruct Hs as [-> Hs]. destruct k as [|k]; simplify_eq/=.
  - pose proof (jitterOf_bounds g). lia.
  - specialize (IH _ _ _ _ Hs Hk).
    replace (Z.of_nat (S k)) with (Z.succ (Z.of_nat k)) by lia.
    rewrite Z.pow_succ_r by lia.
    replace (backoff * (2 * 2 ^ Z.of_nat k))
      with (backoff * 2 * 2 ^ Z.of_nat k) by lia.
    exact IH.
Qed.


(** *** The cache write *)

(** The revision that guards the write leaves the cache alone when the
    caller bypasses it: no file changes and no write is attempted. *)
Lemma guarded_bypass_writes_nothing c month day w :
  files (FetchOnThisDay env WritesUnlessBypass c month day true w).2
  = files w
  /\ cacheWritesOf
       (trace (FetchOnThisDay env WritesUnlessBypass c month day true w).2)
     = cacheWritesOf (trace w).
Proof.
  destruct (FetchOnThisDay_footprint WritesUnlessBypass c month day true w)
    as (added & Htr & _ & _ & Hq).
  destruct (Hq eq_refl) as [Hnone Hfiles].
  split; [done |]. by rewrite Htr, cacheWritesOf_app, Hnone, app_nil_r.
Qed.

(** *** Status codes *)

Lemma parseEventsFromBody_ok body evs :
  json_Unmarshal env body = inr evs ->
  parseEventsFromBody env body = Ok evs.
Proof.
  intros H. unfold parseEventsFromBody. rewrite H. f_equal. clear H.
  induction evs as [|[y t] evs IH]; [done |].
  rewrite fmap_cons. cbn [Year Text]. f_equal. exact IH.
Qed.

Lemma tryCache_world c cacheFile w : (tryCache env c cacheFile w).2 = w.
Proof.
  unfold tryCache.
  repeat match goal with
         | |- context [match ?x with _ => _ end] => destruct x
         end; done.
Qed.

(** On the network path [FetchOnThisDay] is its retry loop. *)
Lemma FetchOnThisDay_network rev c month day bypassCache w :
  month <> [] -> day <> [] -> cacheMiss env c month day bypassCache w ->
  FetchOnThisDay env rev c month day bypassCache w
  = attemptLoop env rev (cachePath env c month day)
      (lit "https://api.wikimedia.org/feed/v1/wikipedia/en/onthisday/all/"
       ++ month ++ lit "/" ++ day)
      bypassCache 3 (500 * Millisecond) None w.
Proof.
  intros Hm Hd Hmiss. unfold FetchOnThisDay.
  rewrite (bool_decide_eq_false_2 _ Hm), (bool_decide_eq_false_2 _ Hd).
  cbn [orb]. unfold bind.
  destruct Hmiss as [-> | Hmiss]; [done |].
  destruct bypassCache; cbn [negb]; [done |].
  pose proof (tryCache_world c (cachePath env c month day) w) as Hw.
  destruct (tryCache env c (cachePath env c month day) w) as [cached w'].
  cbn [fst snd] in *. by subst.
Qed.

(** Any other status of the 2xx range is a failure on the spot: one
    request, no retry, the status and the body in the error. *)
Lemma status_2xx_not_200_fails rev c month day bypassCache w status body :
  month <> [] -> day <> [] -> cacheMiss env c month day bypassCache w ->
  network env (length (requestsOf (trace w))) = Response status body ->
  200 < status < 300 ->
  (FetchOnThisDay env rev c month day bypassCache w).1
  = Err (Errorf (lit "API returned status code: " ++ Itoa status
                 ++ lit ", body: " ++ body))
  /\ length (requestsOf
               (trace (FetchOnThisDay env rev c month day bypassCache w).2))
     = S (length (requestsOf (trace w))).
Proof.
  intros Hm Hd Hmiss Hnet Hst.
  rewrite FetchOnThisDay_network by done.
  match goal with |- context [attemptLoop ?e ?r ?p ?u ?b ?n ?d ?l w] =>
    generalize (eq_refl (attemptLoop e r p u b n d l w));
    generalize (attemptLoop e r p u b n d l w) at 1 3 4
  end.
  intros run. cbn [attemptLoop]. unfold bind. rewrite roundTrip_run, Hnet.
  destruct (Z.eqb_spec status 200); [lia |].
  destruct (Z.eqb_spec status 429); [lia |].
  destruct (Z.leb_spec 500 status); [lia |].
  cbn [orb andb]. unfold ret. intros ->. cbn [fst snd trace].
  split; [done |].
  rewrite requestsOf_app, length_app, requestsOf_HttpGet. cbn [length]. lia.
Qed.

(** *** A server that always answers 503 *)

(** One pass of the loop against a 503: a request, then the backoff
    sleep and the next pass, or the error on the last attempt. *)
Lemma attemptLoop_503 rev cacheFile url bypassCache left backoff lastErr w body :
  network env (length (requestsOf (trace w))) = Response 503 body ->
  ctxDone env (length (sleepsOf (trace w))) = None ->
  attemptLoop env rev cacheFile url bypassCache (S left) backoff lastErr w
  = let w1 := mkWorld (now w) (files w) (rng w) (trace w ++ [HttpGet url]) in
    let err := Errorf (lit "API returned status code: 503") in
    if maxAttempts - Z.of_nat left <? maxAttempts then
      attemptLoop env rev cacheFile url bypassCache left (backoff * 2)
        (Some err)
        (mkWorld (now w + (backoff + jitterOf (rng w))) (files w)
                 (Rand.Int63n (200 * Millisecond) (rng w)).2
                 (trace w1 ++ [Sleep (backoff + jitterOf (rng w)) true]))
    else (Err err, w1).
Proof.
  intros Hnet Hctx. cbn [attemptLoop]. unfold bind at 1.
  rewrite roundTrip_run, Hnet.
  change (503 =? 200) with false.
  change ((503 =? 429) || (500 <=? 503) && (503 <? 600)) with true.
  cbv iota. unfold retryOr.
  destruct (maxAttempts - Z.of_nat left <? maxAttempts); [| reflexivity].
  unfold bind. rewrite sleepContext_run. cbn [trace now files rng].
  rewrite sleepsOf_app. change (sleepsOf [HttpGet url]) with (@nil Z).
  rewrite app_nil_r, Hctx. reflexivity.
Qed.

(** C5: when the server answers every request with 503 (and the
    request is made: the cache is missed and the context is not done
    while the client backs off), [FetchOnThisDay] sends exactly three
    requests, with two backoff sleeps between them, and returns the
    error "API returned status code: 503". *)
Theorem always_503_three_attempts rev c month day bypassCache w :
  month <> [] -> day <> [] -> cacheMiss env c month day bypassCache w ->
  (forall k, exists body, network env k = Response 503 body) ->
  (forall k, ctxDone env k = None) ->
  exists e url d1 d2,
    (FetchOnThisDay env rev c month day bypassCache w).1 = Err e
    /\ Error e = lit "API returned status code: 503"
    /\ Contains (Error e) (lit "503") = true
    /\ trace (FetchOnThisDay env rev c month day bypassCache w).2
       = trace w ++ [HttpGet url; Sleep d1 true; HttpGet url;
                     Sleep d2 true; HttpGet url]
    /\ length (requestsOf [HttpGet url; Sleep d1 true; HttpGet url;
                           Sleep d2 true; HttpGet url]) = 3%nat.
Proof.
  intros Hm Hd Hmiss Hnet Hctx.
  rewrite FetchOnThisDay_network by done.
  destruct (Hnet (length (requestsOf (trace w)))) as [b1 H1].
  rewrite (attemptLoop_503 _ _ _ _ _ _ _ _ _ H1 (Hctx _)).
  cbv zeta. change (maxAttempts - Z.of_nat 2 <? maxAttempts) with true.
  cbv iota.
  match goal with |- context [attemptLoop _ _ _ _ _ _ _ _ ?w1] =>
    destruct (Hnet (length (requestsOf (trace w1)))) as [b2 H2];
    rewrite (attemptLoop_503 _ _ _ _ _ _ _ _ _ H2 (Hctx _))
  end.
  cbv zeta. change (maxAttempts - Z.of_nat 1 <? maxAttempts) with true.
  cbv iota.
  match goal with |- context [attemptLoop _ _ _ _ _ _ _ _ ?w1] =>
    destruct (Hnet (length (requestsOf (trace w1)))) as [b3 H3];
    rewrite (attemptLoop_503 _ _ _ _ _ _ _ _ _ H3 (Hctx _))
  end.
  cbv zeta. change (maxAttempts - Z.of_nat 0 <? maxAttempts) with false.
  cbv iota. cbn [fst snd trace].
  eexists _, _, _, _. split; [reflexivity |].
  split; [reflexivity |]. split; [reflexivity |].
  split; [| reflexivity].
  rewrite <- !app_assoc. reflexivity.
Qed.

(** On a successful first response the revision without the guard
    writes the cache file whatever [bypassCache] says. *)
Lemma unguarded_writes c month day bypassCache w body evs :
  month <> [] -> day <> [] -> cacheMiss env c month day bypassCache w ->
  network env (length (requestsOf (trace w))) = Response 200 body ->
  json_Unmarshal env body = inr evs ->
  exists url ok,
    trace (FetchOnThisDay env WritesAlways c month day bypassCache w).2
    = trace w ++ [HttpGet url;
                  CacheWrite (cachePath env c month day) body ok].
Proof.
  intros Hm Hd Hmiss Hnet Hjson.
  rewrite FetchOnThisDay_network by done.
  cbn [attemptLoop]. unfold bind at 1. rewrite roundTrip_run, Hnet.
  cbn [Z.eqb Pos.eqb]. rewrite (parseEventsFromBody_ok _ _ Hjson).
  unfold bind, ret. rewrite writeCacheFileAtomic_run. cbn [snd trace].
  eexists _, _. rewrite <- app_assoc. reflexivity.
Qed.

(** *** Retryable failures *)

Lemma sleepsOf_HttpGet url : sleepsOf [HttpGet url] = [].
Proof. reflexivity. Qed.

Lemma sleepsOf_Sleep d fired : sleepsOf [Sleep d fired] = [d].
Proof. reflexivity. Qed.

Lemma sleepsOf_CacheWrite path data ok :
  sleepsOf [CacheWrite path data ok] = [].
Proof. reflexivity. Qed.

Lemma retryable_not_200 status body :
  retryable (Response status body) = true -> (status =? 200) = false.
Proof.
  cbn [retryable]. intros H. destruct (Z.eqb_spec status 200); [| done].
  subst. done.
Qed.

(** One pass of the loop that meets a retryable round trip: the
    request, then the backoff sleep and the next pass (or the error of
    the context when it ends the sleep), or the error on the last
    attempt. *)
Lemma attemptLoop_retry rev cacheFile url bypassCache left backoff lastErr w :
  retryable (network env (length (requestsOf (trace w)))) = true ->
  attemptLoop env rev cacheFile url bypassCache (S left) backoff lastErr w
  = let r := network env (length (requestsOf (trace w))) in
    let w1 := mkWorld (now w) (files w) (rng w) (trace w ++ [HttpGet url]) in
    if maxAttempts - Z.of_nat left <? maxAttempts then
      match ctxDone env (length (sleepsOf (trace w))) with
      | Some err =>
          (Err err,
           mkWorld (now w) (files w)
                   (Rand.Int63n (200 * Millisecond) (rng w)).2
                   (trace w1 ++ [Sleep (backoff + jitterOf (rng w)) false]))
      | None =>
          attemptLoop env rev cacheFile url bypassCache left (backoff * 2)
            (Some (lastErrOf r))
            (mkWorld (now w + (backoff + jitterOf (rng w))) (files w)
                     (Rand.Int63n (200 * Millisecond) (rng w)).2
                     (trace w1 ++ [Sleep (backoff + jitterOf (rng w)) true]))
      end
    else (Err (lastErrOf r), w1).
Proof.
  intros Hr. cbn [attemptLoop]. unfold bind at 1. rewrite roundTrip_run.
  assert (Hstep : forall err next,
    retryOr env (maxAttempts - Z.of_nat left) backoff err next
      (mkWorld (now w) (files w) (rng w) (trace w ++ [HttpGet url]))
    = if maxAttempts - Z.of_nat left <? maxAttempts then
        match ctxDone env (length (sleepsOf (trace w))) with
        | Some e =>
            (Err e,
             mkWorld (now w) (files w)
                     (Rand.Int63n (200 * Millisecond) (rng w)).2
                     ((trace w ++ [HttpGet url])
                      ++ [Sleep (backoff + jitterOf (rng w)) false]))
        | None =>
            next (backoff * 2) (Some err)
              (mkWorld (now w + (backoff + jitterOf (rng w))) (files w)
                       (Rand.Int63n (200 * Millisecond) (rng w)).2
                       ((trace w ++ [HttpGet url])
                        ++ [Sleep (backoff + jitterOf (rng w)) true]))
        end
      else (Err err, mkWorld (now w) (files w) (rng w)
                             (trace w ++ [HttpGet url]))).
  { intros err next. unfold retryOr.
    destruct (maxAttempts - Z.of_nat left <? maxAttempts); [| reflexivity].
    unfold bind. rewrite sleepContext_run. cbn [trace now files rng].
    rewrite sleepsOf_app, sleepsOf_HttpGet, app_nil_r.
    destruct (ctxDone env _); reflexivity. }
  destruct (network env (length (requestsOf (trace w))))
    as [e | e | st e | st body] eqn:Hnet; cbv zeta.
  - done.
  - apply Hstep.
  - apply Hstep.
  - rewrite (retryable_not_200 _ _ Hr).
    cbn [retryable] in Hr. rewrite Hr. apply Hstep.
Qed.

(** [n] retryable round trips in a row, none on the last attempt and
    none cut short by the context: the loop is [n] passes further, with
    [n] more requests and sleeps behind it and the disk untouched. *)
Lemma attemptLoop_retries rev cacheFile url bypassCache (n : nat) :
  forall (left : nat) backoff lastErr w,
  (n < left <= 3)%nat ->
  (forall i, (i < n)%nat ->
     retryable (network env (length (requestsOf (trace w)) + i)) = true) ->
  (forall i, (i < n)%nat ->
     ctxDone env (length (sleepsOf (trace w)) + i) = None) ->
  exists w',
    attemptLoop env rev cacheFile url bypassCache left backoff lastErr w
    = attemptLoop env rev cacheFile url bypassCache (left - n)
        (backoff * 2 ^ Z.of_nat n)
        (match n with
         | O => lastErr
         | S m => Some (lastErrOf
                          (network env (length (requestsOf (trace w)) + m)))
         end) w'
    /\ length (requestsOf (trace w')) = (length (requestsOf (trace w)) + n)%nat
    /\ length (sleepsOf (trace w')) = (length (sleepsOf (trace w)) + n)%nat
    /\ files w' = files w
    /\ cacheWritesOf (trace w') = cacheWritesOf (trace w).
Proof.
  induction n as [|n IH]; intros left backoff lastErr w Hleft Hnet Hctx.
  - exists w. rewrite Nat.sub_0_r, Z.mul_1_r, !Nat.add_0_r. done.
  - destruct left as [|left]; [lia |].
    pose proof (Hnet O ltac:(lia)) as H0. rewrite Nat.add_0_r in H0.
    pose proof (Hctx O ltac:(lia)) as C0. rewrite Nat.add_0_r in C0.
    rewrite (attemptLoop_retry _ _ _ _ _ _ _ _ H0). cbv zeta.
    replace (maxAttempts - Z.of_nat left <? maxAttempts) with true
      by (symmetry; apply Z.ltb_lt; unfold maxAttempts; lia).
    rewrite C0.
    match goal with |- context [attemptLoop _ _ _ _ _ _ _ _ ?w1] =>
      set (w2 := w1)
    end.
    assert (Hreq : length (requestsOf (trace w2))
                   = S (length (requestsOf (trace w)))).
    { subst w2. cbn [trace].
      rewrite !requestsOf_app, !length_app, requestsOf_HttpGet,
        requestsOf_Sleep. cbn [length]. lia. }
    assert (Hsl : length (sleepsOf (trace w2))
                  = S (length (sleepsOf (trace w)))).
    { subst w2. cbn [trace].
      rewrite !sleepsOf_app, !length_app, sleepsOf_HttpGet, sleepsOf_Sleep.
      cbn [length]. lia. }
    destruct (IH left (backoff * 2)
                (Some (lastErrOf
                         (network env (length (requestsOf (trace w))))))
                w2) as (w' & Hrun & Hr' & Hs' & Hf' & Hc').
    + lia.
    + intros i Hi. rewrite Hreq.
      replace (S (length (requestsOf (trace w))) + i)%nat
        with (length (requestsOf (trace w)) + S i)%nat by lia.
      apply Hnet. lia.
    + intros i Hi. rewrite Hsl.
      replace (S (length (sleepsOf (trace w))) + i)%nat
        with (length (sleepsOf (trace w)) + S i)%nat by lia.
      apply Hctx. lia.
    + exists w'. split; [| split; [| split; [| split]]].
      * rewrite Hrun. cbn [Nat.sub].
        replace (backoff * 2 * 2 ^ Z.of_nat n)
          with (backoff * 2 ^ Z.of_nat (S n)).
        2:{ replace (Z.of_nat (S n)) with (Z.succ (Z.of_nat n)) by lia.
            rewrite Z.pow_succ_r by lia. lia. }
        f_equal. destruct n as [|m].
        -- by rewrite Nat.add_0_r.
        -- rewrite Hreq. do 3 f_equal. lia.
      * rewrite Hr', Hreq. lia.
      * rewrite Hs', Hsl. lia.
      * by rewrite Hf'.
      * rewrite Hc'. subst w2. cbn [trace].
        rewrite !cacheWritesOf_app, cacheWritesOf_HttpGet, cacheWritesOf_Sleep.
        by rewrite !app_nil_r.
Qed.

(** *** The success status *)

End ClientFacts.

(** ** Runs of the client in a concrete world *)

Section ClientRuns.

Import Wikimedia.

(** C2, the input on which the code fails the claim: the revision of
    [FetchOnThisDay] without the guard is called with
    [bypassCache = true], the server answers 200 with a body that parses,
    and the body is written to the cache file all the same. *)
Theorem unguarded_revision_writes_despite_bypass :
  (FetchOnThisDay (serverEnv 200) WritesAlways client
                  (lit "07") (lit "20") true freshWorld).1
  = Ok [moonLanding]
  /\ cacheWritesOf
       (trace (FetchOnThisDay (serverEnv 200) WritesAlways client
                              (lit "07") (lit "20") true freshWorld).2)
     = [CacheWrite (lit ".cache/wikimedia/onthisday_07_20.json")
                   (lit "feed") true]
  /\ files freshWorld !! lit ".cache/wikimedia/onthisday_07_20.json" = None
  /\ files (FetchOnThisDay (serverEnv 200) WritesAlways client
                           (lit "07") (lit "20") true freshWorld).2
       !! lit ".cache/wikimedia/onthisday_07_20.json"
     = Some (mkFile 0 (Some (lit "feed"))).
Proof. by vm_compute. Qed.

(** The revision with the guard on the same input: no write. *)
Example guarded_revision_skips_write :
  cacheWritesOf
    (trace (FetchOnThisDay (serverEnv 200) WritesUnlessBypass client
                           (lit "07") (lit "20") true freshWorld).2)
  = []
  /\ files (FetchOnThisDay (serverEnv 200) WritesUnlessBypass client
                           (lit "07") (lit "20") true freshWorld).2
     = files freshWorld.
Proof. by vm_compute. Qed.



(** The clamp at work: with a first draw of 30ms the jitter of -70ms
    is raised to 0 and the client sleeps 500ms; with the second draw of
    150ms the jitter is 50ms and it sleeps 1050ms. *)
Example jitter_is_clamped :
  sleepsOf
    (trace (FetchOnThisDay (serverEnv 503) WritesUnlessBypass client
                           (lit "07") (lit "20") true drawsWorld).2)
  = [500 * Millisecond; 1050 * Millisecond].
Proof. by vm_compute. Qed.

Lemma always_503_three_attempts_witness :
  (forall k, exists body, network (serverEnv 503) k = Response 503 body)
  /\ exists e url d1 d2,
    (FetchOnThisDay (serverEnv 503) WritesUnlessBypass client
                    (lit "07") (lit "20") false freshWorld).1 = Err e
    /\ Error e = lit "API returned status code: 503"
    /\ Contains (Error e) (lit "503") = true
    /\ trace (FetchOnThisDay (serverEnv 503) WritesUnlessBypass client
                             (lit "07") (lit "20") false freshWorld).2
       = trace freshWorld ++ [HttpGet url; Sleep d1 true; HttpGet url;
                              Sleep d2 true; HttpGet url]
    /\ length (requestsOf [HttpGet url; Sleep d1 true; HttpGet url;
                           Sleep d2 true; HttpGet url]) = 3%nat.
Proof.
  split; [intros k; exists (lit "feed"); reflexivity |].
  apply (always_503_three_attempts (serverEnv 503) WritesUnlessBypass client
           (lit "07") (lit "20") false freshWorld).
  - discriminate.
  - discriminate.
  - right. reflexivity.
  - intros k. exists (lit "feed"). reflexivity.
  - intros k. reflexivity.
Defined.

End ClientRuns.

(* ===================================================================== *)
(** * Part III: more properties of the code                              *)
(* ===================================================================== *)

(** ** Word wrap keeps the words *)

Section WrapWordsFacts.

Implicit Types (text word sep : gostring) (maxWidth : Z).
Implicit Types (lines words : list gostring).

Lemma Join_snoc_pair lines a b sep :
  Join (lines ++ [a ++ sep ++ b]) sep = Join (lines ++ [a; b]) sep.
Proof.
  induction lines as [|l lines IH]; [done |].
  cbn [app Join]. rewrite IH.
  destruct lines; reflexivity.
Qed.

Lemma Join_app_cons lines a words sep :
  Join ((lines ++ [a]) ++ words) sep
  = match words with
    | [] => Join (lines ++ [a]) sep
    | _ :: _ => Join (lines ++ [a]) sep ++ sep ++ Join words sep
    end.
Proof.
  destruct words as [|w words]; [by rewrite app_nil_r |].
  induction lines as [|l lines IH]; [done |].
  cbn [app Join] in *. rewrite IH.
  destruct lines; cbn [app]; by rewrite <- ?app_assoc.
Qed.

Abbreviation flush := flushLines.

Lemma wrapStep_keeps_word maxWidth lines current word sep :
  sep = lit " " -> 0 < len word <= maxWidth ->
  exists lines' last,
    flush (wrapStep maxWidth (lines, current) word) = lines' ++ [last]
    /\ Join (lines' ++ [last]) sep = Join (flush (lines, current) ++ [word]) sep.
Proof.
  intros -> Hword. unfold wrapStep, flushLines. cbn [fst snd].
  pose proof (len_nonneg current) as Hc.
  destruct (Z.eqb_spec (len current) 0) as [E | E].
  - rewrite (len_zero_inv _ E). change (len []) with 0.
    change (0 <? 0) with false. cbv iota.
    destruct (Z.leb_spec (len word) maxWidth); [| lia].
    cbn [fst snd app]. rewrite (proj2 (Z.ltb_lt 0 (len word))) by lia.
    by exists lines, word.
  - rewrite (proj2 (Z.ltb_lt 0 (len current))) by lia.
    destruct (Z.leb_spec (len current + 1 + len word) maxWidth).
    + cbn [fst snd].
      rewrite (proj2 (Z.ltb_lt 0 (len ((current ++ [32]) ++ word)))).
      2: { rewrite !len_app. change (len [32]) with 1. lia. }
      exists lines, ((current ++ [32]) ++ word). split; [done |].
      rewrite <- !app_assoc.
      apply (Join_snoc_pair lines current word (lit " ")).
    + destruct (Z.leb_spec (len word) maxWidth); [| lia].
      cbn [fst snd]. rewrite (proj2 (Z.ltb_lt 0 (len word))) by lia.
      exists (lines ++ [current]), word. done.
Qed.

Lemma wrapLoop_keeps_words maxWidth sep words : forall lines current,
  sep = lit " " ->
  Forall (fun word => 0 < len word <= maxWidth) words ->
  Join (flush (foldl (wrapStep maxWidth) (lines, current) words)) sep
  = Join (flush (lines, current) ++ words) sep.
Proof.
  induction words as [|w words IH]; intros lines current Hsep Hwords.
  { by rewrite app_nil_r. }
  apply Forall_cons in Hwords as [Hw Hwords]. cbn [foldl].
  destruct (wrapStep_keeps_word maxWidth lines current w sep Hsep Hw)
    as (lines' & last & Hflush & Hjoin).
  destruct (wrapStep maxWidth (lines, current) w) as [lines1 current1].
  rewrite IH, Hflush by done.
  rewrite (Join_app_cons lines' last words sep), Hjoin.
  assert (Hne : exists l0 a0, flush (lines, current) ++ [w] = l0 ++ [a0])
    by (by eexists _, _).
  destruct Hne as (l0 & a0 & Hl0).
  replace (flush (lines, current) ++ w :: words)
    with ((l0 ++ [a0]) ++ words)
    by (rewrite <- Hl0, <- app_assoc; done).
  by rewrite (Join_app_cons l0 a0 words sep), Hl0.
Qed.

Lemma fieldsFrom_nonempty s : forall cur word,
  word ∈ fieldsFrom cur s -> word <> [].
Proof.
  induction s as [|r s IH]; intros cur word; cbn [fieldsFrom].
  - case_decide; [by intros ?%elem_of_nil |].
    by intros ->%list_elem_of_singleton.
  - destruct (IsSpace r).
    + case_decide as Hcur; [apply IH |].
      intros [-> | Hin]%elem_of_cons; [done | by eapply IH].
    + apply IH.
Qed.

(** X1: [wrapText] loses and reorders no word.  When every word of the
    text fits the width, joining the lines it returns with single spaces
    gives the text itself if it was short enough for one line, and
    otherwise the words of the text joined with single spaces. *)
Theorem wrapText_keeps_words text maxWidth :
  1 <= maxWidth ->
  (forall word, word ∈ Fields text -> len word <= maxWidth) ->
  Join (wrapText text maxWidth) (lit " ")
  = if len text <=? maxWidth then text else Join (Fields text) (lit " ").
Proof.
  intros Hw Hfit. unfold wrapText.
  destruct (Z.leb_spec maxWidth 0); [lia |].
  destruct (len text <=? maxWidth); [done |].
  destruct (Z.eqb_spec (len (Fields text)) 0) as [E | _].
  { by rewrite (len_zero_inv _ E). }
  assert (Hwords : Forall (fun word => 0 < len word <= maxWidth) (Fields text)).
  { apply Forall_forall. intros word Hin. split; [| by apply Hfit].
    pose proof (fieldsFrom_nonempty _ _ _ Hin) as Hne.
    pose proof (len_nonneg word).
    destruct (Z.eq_dec (len word) 0) as [E | ]; [| lia].
    by apply len_zero_inv in E. }
  pose proof (wrapLoop_keeps_words maxWidth (lit " ") (Fields text) [] []
                eq_refl Hwords) as Hjoin.
  unfold flush in Hjoin at 2. cbn [fst snd app] in Hjoin.
  change (0 <? len []) with false in Hjoin. cbn [app] in Hjoin.
  unfold wrapWords.
  destruct (foldl (wrapStep maxWidth) ([], []) (Fields text))
    as [lines current].
  unfold flush in Hjoin. cbn [fst snd] in Hjoin.
  destruct (len (if 0 <? len current then lines ++ [current] else lines) =? 0)
    eqn:E; [| exact Hjoin].
  apply Z.eqb_eq, len_zero_inv in E. rewrite E in Hjoin.
  by rewrite <- Hjoin.
Qed.

Lemma wrapText_keeps_words_witness :
  Join (wrapText (lit "hello  big   world") 7) (lit " ")
  = lit "hello big world".
Proof.
  refine (eq_trans (wrapText_keeps_words (lit "hello  big   world") 7 _ _) _).
  - lia.
  - intros word Hin. vm_compute in Hin.
    repeat (apply elem_of_cons in Hin as [-> | Hin]; [by vm_compute |]).
    by apply elem_of_nil in Hin.
  - by vm_compute.
Defined.

End WrapWordsFacts.

(** ** What [RenderEvents] puts on the screen *)

Section DisplayFacts.

Lemma wrapText_all_fit text maxWidth :
  1 <= maxWidth -> Forall (fits maxWidth) (wrapText text maxWidth).
Proof.
  intros Hw. unfold wrapText.
  destruct (Z.leb_spec maxWidth 0); [lia |].
  destruct (Z.leb_spec (len text) maxWidth).
  { by apply Forall_singleton. }
  assert (Hempty : Forall (fits maxWidth) [ @nil rune ]).
  { apply Forall_singleton. unfold fits. change (len []) with 0. lia. }
  destruct (len (Fields text) =? 0); [done |].
  destruct (len (wrapWords maxWidth (Fields text)) =? 0); [done |].
  by apply wrapWords_fits.
Qed.

Lemma continuation_rows (lines : list gostring) : forall y,
  StronglySorted Z.lt
    ((imap (fun i l => (y + Z.of_nat i, Continuation l)) lines).*1)
  /\ Forall (fun yc => y <= yc.1 < y + len lines)
            (imap (fun i l => (y + Z.of_nat i, Continuation l)) lines)
  /\ cellYears (imap (fun i l => (y + Z.of_nat i, Continuation l)) lines) = []
  /\ Forall (fun yc => exists l, l ∈ lines /\ cellLine yc.2 = l)
            (imap (fun i l => (y + Z.of_nat i, Continuation l)) lines).
Proof.
  induction lines as [|l lines IH]; intros y.
  { repeat split; constructor. }
  rewrite imap_cons.
  rewrite (imap_ext _ (fun i l => (y + 1 + Z.of_nat i, Continuation l)))
    by (intros; cbn; f_equal; lia).
  destruct (IH (y + 1)) as (Hs & Hb & Hy & Hl).
  rewrite len_cons. pose proof (len_nonneg lines). repeat split.
  - cbn [fmap list_fmap fst]. constructor; [exact Hs |].
    apply Forall_fmap. eapply Forall_impl; [exact Hb |]. cbn. intros; lia.
  - constructor; [cbn; lia |].
    eapply Forall_impl; [exact Hb |]. cbn. intros; lia.
  - exact Hy.
  - constructor; [exists l; split; [apply elem_of_cons; by left | done] |].
    eapply Forall_impl; [exact Hl |]. cbn. intros yc (l' & Hin & Heq).
    exists l'. split; [apply elem_of_cons; by right | done].
Qed.

Lemma displayLoop_cells selected : forall yPos,
  exists cells,
    displayLoop selected yPos = Some cells
    /\ cellsWithin yPos (yPos + rowsUsed wrapText selected) cells
    /\ rowsAscending cells
    /\ cellYears cells = Year <$> selected.
Proof.
  induction selected as [|e rest IH]; intros yPos.
  { exists []. repeat split; constructor. }
  cbn [displayLoop rowsUsed foldr].
  fold (rowsUsed wrapText rest). unfold eventRows at 1.
  pose proof (wrapText_all_fit (TrimSpace (Text e)) maxLineLength
                ltac:(by vm_compute)) as Hfit.
  destruct (wrapText (TrimSpace (Text e)) maxLineLength)
    as [|first more] eqn:Hwrap.
  { destruct (wrapText_first (TrimSpace (Text e)) maxLineLength) as [l Hl].
    rewrite Hwrap in Hl. done. }
  cbn [lookup list_lookup mbind option_bind].
  change (drop 1 (first :: more)) with more.
  apply Forall_cons in Hfit as [Hfirst Hmore].
  destruct (IH (yPos + len (first :: more) + 1))
    as (cells & -> & Hwithin & Hasc & Hyears).
  cbn [mbind option_bind].
  destruct (continuation_rows more (yPos + 1)) as (Hs & Hb & Hy & Hl).
  eexists. split; [reflexivity |].
  rewrite len_cons in *. pose proof (len_nonneg more).
  pose proof (rowsUsed_nonneg wrapText rest).
  split; [| split].
  - constructor; [cbn; split; [lia | done] |].
    apply Forall_app. split.
    + apply Forall_forall. intros yc Hin.
      eapply Forall_forall in Hb; [| exact Hin].
      eapply Forall_forall in Hl; [| exact Hin].
      destruct Hl as (l & Hlin & ->).
      split; [lia |]. eapply Forall_forall in Hmore; [exact Hmore | done].
    + eapply Forall_impl; [exact Hwithin |]. cbn. intros yc [? ?].
      split; [lia | done].
  - unfold rowsAscending in *. cbn [fmap list_fmap fst]. rewrite fmap_app.
    constructor.
    + apply StronglySorted_app_2; [| done | done].
      intros y1 y2 (yc1 & -> & Hin1)%list_elem_of_fmap
                   (yc2 & -> & Hin2)%list_elem_of_fmap.
      eapply Forall_forall in Hb; [| exact Hin1].
      eapply Forall_forall in Hwithin; [| exact Hin2].
      destruct Hwithin as [? _]. cbn in *. lia.
    + apply Forall_app. split; apply Forall_fmap.
      * eapply Forall_impl; [exact Hb |]. cbn. intros; lia.
      * eapply Forall_impl; [exact Hwithin |]. cbn. intros yc [? _]. lia.
  - unfold cellYears in *. cbn [omap list_omap snd].
    rewrite omap_app, Hy, Hyears. reflexivity.
Qed.

(** X2: whatever the events, [RenderEvents] draws without an index
    error; every line it draws has at most 65 runes and stands on one of
    the rows 8 to 19, above the footer of row 20; the rows go strictly
    up, so no row is written twice; and the years drawn are those of the
    events the fitting loop accepted, in their order, at most five. *)
Theorem RenderEvents_within_rows events :
  exists cells,
    RenderEvents events = Some cells
    /\ (forall y c, (y, c) ∈ cells -> 8 <= y <= 19 /\ len (cellLine c) <= 65)
    /\ rowsAscending cells
    /\ cellYears cells = Year <$> (fitEvents events).1
    /\ (length (cellYears cells) <= 5)%nat.
Proof.
  unfold RenderEvents, fitEvents.
  destruct (fitLoop_greedy wrapText events [] 0)
    as (accepted & rest & Hev & Hfit & Hacc & Hrest).
  rewrite Hfit. cbn [fst app].
  destruct (displayLoop_cells accepted 8) as (cells & Hd & Hw & Hasc & Hy).
  exists cells. split; [done |].
  assert (Hrows : rowsUsed wrapText accepted <= 12 /\ len accepted <= 5).
  { destruct (decide (accepted = [])) as [-> | Hne]; [by vm_compute |].
    destruct (exists_last Hne) as (p & e & ->).
    destruct (Hacc p e [] eq_refl) as [H1 H2].
    rewrite rowsUsed_app, len_app. cbn [rowsUsed foldr app] in *.
    change (len [e]) with 1. unfold maxContentRows in H1. lia. }
  split; [| split; [done | split; [done |]]].
  - intros y c Hin. eapply Forall_forall in Hw; [| exact Hin].
    destruct Hw as [Hy' Hl]. cbn in Hy', Hl. unfold fits in Hl.
    change maxLineLength with 65 in Hl. lia.
  - rewrite Hy, length_fmap. destruct Hrows as [_ H5]. unfold len in H5. lia.
Qed.

End DisplayFacts.

(** ** The key of an event *)

Section KeyFacts.

Import Selector.

Lemma decimalValue_snoc ds d :
  decimalValue (ds ++ [d]) = 10 * decimalValue ds + (d - 48).
Proof. unfold decimalValue. by rewrite foldl_app. Qed.

(** The digits of [n], given room for them, are decimal digits that
    write [n]. *)
Lemma digits_spec fuel : forall n acc,
  0 <= n < 10 ^ Z.of_nat fuel -> (1 <= fuel)%nat ->
  exists ds,
    digits fuel n acc = ds ++ acc
    /\ ds <> [] /\ Forall (fun d => 48 <= d <= 57) ds
    /\ decimalValue ds = n.
Proof.
  induction fuel as [|fuel IH]; intros n acc Hn Hfuel; [lia |].
  cbn [digits].
  destruct (Z.ltb_spec n 10) as [Hsmall | Hbig].
  - exists [48 + n mod 10]. rewrite Z.mod_small by lia.
    split; [done |]. split; [done |].
    split; [apply Forall_singleton; lia | unfold decimalValue; cbn; lia].
  - assert (Hpow : 10 ^ Z.of_nat (S fuel) = 10 * 10 ^ Z.of_nat fuel).
    { rewrite Nat2Z.inj_succ, Z.pow_succ_r by lia. done. }
    assert (1 <= fuel)%nat.
    { destruct fuel; [| lia]. change (10 ^ Z.of_nat 1) with 10 in Hn. lia. }
    destruct (IH (n / 10) ((48 + n mod 10) :: acc)) as (ds & -> & Hne & Hds & Hv);
      [| done |].
    { split; [apply Z.div_pos; lia |].
      apply Z.div_lt_upper_bound; lia. }
    exists (ds ++ [48 + n mod 10]). rewrite <- app_assoc.
    split; [done |]. split; [by destruct ds |]. split.
    + apply Forall_app. split; [done |]. apply Forall_singleton.
      pose proof (Z.mod_pos_bound n 10). lia.
    + rewrite decimalValue_snoc, Hv.
      pose proof (Z.div_mod n 10). lia.
Qed.

Lemma Itoa_nonneg n :
  0 <= n ->
  Itoa n <> [] /\ Forall (fun d => 48 <= d <= 57) (Itoa n)
  /\ decimalValue (Itoa n) = n.
Proof.
  intros Hn. unfold Itoa. destruct (Z.ltb_spec n 0); [lia |].
  destruct (digits_spec (Z.to_nat (Z.log2 n) + 1) n [])
    as (ds & -> & Hne & Hds & Hv); [| lia |].
  - split; [done |].
    destruct (Z.eq_dec n 0) as [-> | Hpos]; [by vm_compute |].
    pose proof (Z.log2_nonneg n).
    replace (Z.of_nat (Z.to_nat (Z.log2 n) + 1)) with (Z.succ (Z.log2 n))
      by lia.
    destruct (Z.log2_spec n) as [_ Hlt]; [lia |].
    eapply Z.lt_le_trans; [exact Hlt |].
    apply Z.pow_le_mono_l. lia.
  - by rewrite app_nil_r.
Qed.

Lemma Itoa_neg n :
  n < 0 -> exists ds, Itoa n = 45 :: ds /\ ds = Itoa (- n).
Proof.
  intros Hn. unfold Itoa.
  destruct (Z.ltb_spec n 0); [| lia].
  destruct (Z.ltb_spec (- n) 0); [lia |].
  by eexists.
Qed.

Lemma Itoa_runes n : Forall isNumberRune (Itoa n).
Proof.
  destruct (Z.lt_ge_cases n 0) as [Hn | Hn].
  - destruct (Itoa_neg n Hn) as (ds & -> & ->).
    constructor; [by left |].
    destruct (Itoa_nonneg (- n)) as (_ & Hds & _); [lia |].
    eapply Forall_impl; [exact Hds |]. intros; by right.
  - destruct (Itoa_nonneg n Hn) as (_ & Hds & _).
    eapply Forall_impl; [exact Hds |]. intros; by right.
Qed.

Lemma Itoa_inj a b : Itoa a = Itoa b -> a = b.
Proof.
  intros Heq.
  destruct (Z.lt_ge_cases a 0) as [Ha | Ha];
    destruct (Z.lt_ge_cases b 0) as [Hb | Hb].
  - destruct (Itoa_neg a Ha) as (da & Ea & ->).
    destruct (Itoa_neg b Hb) as (db & Eb & ->).
    rewrite Ea, Eb in Heq. injection Heq as Heq.
    destruct (Itoa_nonneg (- a)) as (_ & _ & Va); [lia |].
    destruct (Itoa_nonneg (- b)) as (_ & _ & Vb); [lia |].
    rewrite Heq in Va. lia.
  - destruct (Itoa_neg a Ha) as (da & Ea & _).
    destruct (Itoa_nonneg b Hb) as (Hne & Hds & _).
    rewrite <- Heq, Ea in Hds. apply Forall_cons in Hds as [? _]. lia.
  - destruct (Itoa_neg b Hb) as (db & Eb & _).
    destruct (Itoa_nonneg a Ha) as (Hne & Hds & _).
    rewrite Heq, Eb in Hds. apply Forall_cons in Hds as [? _]. lia.
  - destruct (Itoa_nonneg a Ha) as (_ & _ & Va).
    destruct (Itoa_nonneg b Hb) as (_ & _ & Vb).
    rewrite Heq in Va. lia.
Qed.

Lemma split_at_bar (l1 : gostring) : forall l2 r1 r2,
  Forall isNumberRune l1 -> Forall isNumberRune l2 ->
  l1 ++ 124 :: r1 = l2 ++ 124 :: r2 -> l1 = l2 /\ r1 = r2.
Proof.
  induction l1 as [|a l1 IH]; intros [|b l2] r1 r2 H1 H2 Heq;
    cbn [app] in Heq.
  - by injection Heq as ->.
  - injection Heq as Hhd Htl.
    apply Forall_cons in H2 as [[? | ?] _]; lia.
  - injection Heq as Hhd Htl.
    apply Forall_cons in H1 as [[? | ?] _]; lia.
  - injection Heq as Hhd Htl.
    apply Forall_cons in H1 as [_ H1]. apply Forall_cons in H2 as [_ H2].
    destruct (IH _ _ _ H1 H2 Htl) as [-> ->]. by subst.
Qed.

Lemma keyFor_eq_inv e1 e2 : keyFor e1 = keyFor e2 -> e1 = e2.
Proof.
  destruct e1 as [y1 t1], e2 as [y2 t2]. unfold keyFor. cbn [Year Text].
  change (lit "|" ++ t1) with (124 :: t1).
  change (lit "|" ++ t2) with (124 :: t2).
  intros [Hy ->]%split_at_bar; [| apply Itoa_runes ..].
  by rewrite (Itoa_inj _ _ Hy).
Qed.

(** X3: the key [selectEventsByEra] files an event under tells events
    apart exactly: two events have the same key if and only if they have
    the same year and the same text. *)
Theorem keyFor_inj e1 e2 : keyFor e1 = keyFor e2 <-> e1 = e2.
Proof. split; [apply keyFor_eq_inv | by intros ->]. Qed.

End KeyFacts.

(** ** The era-based selection, continued *)

Section EraFacts.

Import Sort Selector.

Variable allEvents : list Event.

Lemma indicesFrom_length p (l : list Event) : forall i,
  length (indicesFrom i p l) = length (filter (fun ev => p ev = true) l).
Proof.
  induction l as [|ev l IH]; intros i; cbn [indicesFrom]; [done |].
  destruct (p ev) eqn:Hp.
  - rewrite filter_cons_True by done. cbn [length]. by rewrite IH.
  - rewrite filter_cons_False by (rewrite Hp; done). apply IH.
Qed.

Lemma indicesFrom_complete p (l : list Event) ev : forall i,
  ev ∈ l -> p ev = true -> indicesFrom i p l <> [].
Proof.
  induction l as [|ev' l IH]; intros i Hin Hp; cbn [indicesFrom].
  { by apply elem_of_nil in Hin. }
  destruct (p ev') eqn:Hp'; [done |].
  apply elem_of_cons in Hin as [-> | Hin]; [congruence | by apply IH].
Qed.

Lemma omap_lookup_all (idxs : list nat) :
  Forall (fun i => is_Some (allEvents !! i)) idxs ->
  length (omap (fun i => allEvents !! i) idxs) = length idxs.
Proof.
  induction 1 as [|i idxs [ev Hev] _ IH]; cbn [omap list_omap]; [done |].
  rewrite Hev. cbn [length]. by rewrite IH.
Qed.

(** The first pass, with [seen] holding the keys of [selected] only:
    [selected] grows at its end by at most one event for each pick, and
    the event of the first pick is selected afterwards. *)
Lemma pickLoop_grows picks : forall selected seen,
  marks seen selected -> seenOnly seen selected ->
  exists added,
    (pickLoop allEvents picks selected seen).1 = selected ++ added
    /\ (length added <= length picks)%nat
    /\ seenOnly (pickLoop allEvents picks selected seen).2
                (pickLoop allEvents picks selected seen).1
    /\ marks (pickLoop allEvents picks selected seen).2
             (pickLoop allEvents picks selected seen).1
    /\ (forall idx rest ev, picks = idx :: rest ->
          allEvents !! idx = Some ev ->
          ev ∈ (pickLoop allEvents picks selected seen).1).
Proof.
  induction picks as [|idx picks IH]; intros selected seen Hmk Hso;
    cbn [pickLoop].
  { exists []. rewrite app_nil_r. cbn [fst snd].
    split_and!; [done | cbn; lia | done | done | by intros ??? [=]]. }
  destruct (allEvents !! idx) as [ev|] eqn:Hev.
  2: { exists []. rewrite app_nil_r. cbn [fst snd].
       split_and!; [done | cbn; lia | done | done |].
       intros ??? [= <- <-]. congruence. }
  set (st := if negb (isSeen seen (keyFor ev))
             then (selected ++ [ev], <[keyFor ev := true]> seen)
             else (selected, seen)).
  assert (Hst : exists added1,
             st.1 = selected ++ added1 /\ (length added1 <= 1)%nat
             /\ seenOnly st.2 st.1 /\ marks st.2 st.1 /\ ev ∈ st.1).
  { subst st. destruct (isSeen seen (keyFor ev)) eqn:Hseen; cbn [negb fst snd].
    - exists []. rewrite app_nil_r.
      split_and!; [done | cbn; lia | done | done |].
      destruct (Hso _ Hseen) as (e & He & Hk).
      by rewrite <- (keyFor_eq_inv _ _ Hk).
    - exists [ev]. split_and!; [done | cbn; lia | | |].
      + intros k Hk. unfold isSeen in Hk.
        destruct (decide (keyFor ev = k)) as [<- | Hne].
        * exists ev. split; [| done]. apply elem_of_app. right.
          by apply list_elem_of_singleton.
        * rewrite lookup_insert_ne in Hk by done.
          destruct (Hso k Hk) as (e & He & Hke).
          exists e. split; [| done]. apply elem_of_app. by left.
      + intros e [He | ->%list_elem_of_singleton]%elem_of_app; unfold isSeen.
        * destruct (decide (keyFor ev = keyFor e)) as [-> | Hne].
          -- by rewrite lookup_insert_eq.
          -- rewrite lookup_insert_ne by done. by apply Hmk.
        * by rewrite lookup_insert_eq.
      + apply elem_of_app. right. by apply list_elem_of_singleton. }
  destruct st as [selected1 seen1]. cbn [fst snd] in Hst.
  destruct Hst as (added1 & -> & Hlen1 & Hso1 & Hmk1 & Hin1).
  destruct (5 <=? len (selected ++ added1)).
  { exists added1. cbn [fst snd].
    split_and!; [done | cbn [length]; lia | done | done |].
    intros idx' rest ev' [= <- <-] Hev'. by simplify_eq. }
  destruct (IH _ _ Hmk1 Hso1) as (added & Heq & Hlen & Hso' & Hmk' & _).
  exists (added1 ++ added).
  split_and!; [by rewrite Heq, <- app_assoc
              | rewrite length_app; cbn [length] in *; lia
              | done | done |].
  intros idx' rest ev' [= <- <-] Hev'. simplify_eq.
  rewrite Heq. apply elem_of_app. by left.
Qed.

Lemma eraLoop_covers todo : forall selected seen g,
  marks seen selected -> seenOnly seen selected ->
  len selected + len todo <= 5 ->
  Forall (fun era => quota era = 1) todo ->
  exists added,
    (eraLoop allEvents todo selected seen g).1.1 = selected ++ added
    /\ seenOnly (eraLoop allEvents todo selected seen g).1.2
                (eraLoop allEvents todo selected seen g).1.1
    /\ marks (eraLoop allEvents todo selected seen g).1.2
             (eraLoop allEvents todo selected seen g).1.1
    /\ (forall era, era ∈ todo ->
          (exists ev, ev ∈ allEvents /\ inEra era ev) ->
          exists ev, ev ∈ (eraLoop allEvents todo selected seen g).1.1
                     /\ inEra era ev).
Proof.
  induction todo as [|era todo IH]; intros selected seen g Hmk Hso Hlen Hq;
    cbn [eraLoop].
  { exists []. rewrite app_nil_r. cbn [fst snd].
    split_and!; [done | done | done |]. by intros era ?%elem_of_nil. }
  apply Forall_cons in Hq as [Hq1 Hq]. rewrite len_cons in Hlen.
  set (p := fun ev => (min era <=? Year ev) && (Year ev <=? max era)).
  assert (Hp : forall ev, p ev = true <-> inEra era ev).
  { intros ev. unfold p, inEra. rewrite andb_true_iff, !Z.leb_le. done. }
  destruct (Z.eqb_spec (len (indicesWhere p allEvents)) 0) as [E | E].
  - destruct (IH selected seen g Hmk Hso ltac:(lia) Hq)
      as (added & Heq & Hso' & Hmk' & Hcov).
    exists added. split_and!; [done | done | done |].
    intros era' [-> | Hin]%elem_of_cons; [| by apply Hcov].
    intros (ev & Hev & Hera%Hp). apply len_zero_inv in E.
    by destruct (indicesFrom_complete p allEvents ev 0 Hev Hera).
  - pose proof (Shuffle_perm (indicesWhere p allEvents) g) as Hperm.
    destruct (Rand.Shuffle (indicesWhere p allEvents) g) as [eraEvents g'].
    cbn [fst] in Hperm. rewrite Hq1. change (Z.to_nat 1) with 1%nat.
    destruct eraEvents as [|idx eraEvents].
    { apply Permutation_nil_l in Hperm. rewrite <- Hperm in E. done. }
    change (take 1 (idx :: eraEvents)) with [idx].
    assert (Hidx : idx ∈ indicesWhere p allEvents).
    { rewrite <- Hperm. apply elem_of_cons. by left. }
    apply indicesFrom_lookup in Hidx as (_ & ev & Hev & Hpev).
    rewrite Nat.sub_0_r in Hev.
    destruct (pickLoop_grows [idx] selected seen Hmk Hso)
      as (added1 & Heq1 & Hlen1 & Hso1 & Hmk1 & Hpick).
    specialize (Hpick idx [] ev eq_refl Hev).
    destruct (pickLoop allEvents [idx] selected seen) as [selected1 seen1].
    cbn [fst snd] in *. subst selected1.
    assert (Hl1 : len (selected ++ added1) <= len selected + 1).
    { rewrite len_app. unfold len. cbn [length] in Hlen1. lia. }
    destruct (Z.leb_spec 5 (len (selected ++ added1))) as [Hfull | Hroom].
    + exists added1. cbn [fst snd]. split_and!; [done | done | done |].
      pose proof (len_nonneg todo).
      assert (todo = []) as -> by (apply len_zero_inv; lia).
      intros era' [-> | Hin]%elem_of_cons; [| by apply elem_of_nil in Hin].
      intros _. exists ev. split; [done | by apply Hp].
    + destruct (IH (selected ++ added1) seen1 g' Hmk1 Hso1 ltac:(lia) Hq)
        as (added & Heq & Hso' & Hmk' & Hcov).
      exists (added1 ++ added).
      split_and!; [by rewrite Heq, <- app_assoc | done | done |].
      intros era' [-> | Hin]%elem_of_cons; [| by apply Hcov].
      intros _. exists ev. split; [| by apply Hp].
      rewrite Heq. apply elem_of_app. by left.
Qed.

Lemma fillRemaining_grows selected seen g :
  exists added, (fillRemaining allEvents selected seen g).1 = selected ++ added.
Proof.
  unfold fillRemaining.
  destruct (len selected <? 5); [| by exists []; rewrite app_nil_r].
  destruct (0 <? len _); [| by exists []; rewrite app_nil_r].
  destruct (Rand.Shuffle _ g) as [remaining g']. by eexists.
Qed.

(** The indices that the fill pass draws from all hold an event. *)
Lemma remaining_valid p (idxs : list nat) :
  idxs ⊆ indicesWhere p allEvents ->
  Forall (fun i => is_Some (allEvents !! i)) idxs.
Proof.
  intros Hsub. apply Forall_forall. intros i Hi%Hsub.
  apply indicesFrom_lookup in Hi as (_ & ev & Hev & _).
  rewrite Nat.sub_0_r in Hev. by eexists.
Qed.

Lemma fillRemaining_length selected seen g :
  len selected <= 5 ->
  len (fillRemaining allEvents selected seen g).1
  = Z.min 5 (len selected
             + len (filter (fun ev => negb (isSeen seen (keyFor ev)) = true)
                           allEvents)).
Proof.
  intros Hsel. unfold fillRemaining.
  pose proof (indicesFrom_length (fun ev => negb (isSeen seen (keyFor ev)))
                allEvents 0) as Hcount.
  cbn beta in Hcount.
  set (unseen := filter (fun ev => negb (isSeen seen (keyFor ev)) = true)
                        allEvents) in *.
  set (remaining0 := indicesWhere (fun ev => negb (isSeen seen (keyFor ev)))
                                  allEvents) in *.
  change (indicesFrom 0 (fun ev => negb (isSeen seen (keyFor ev))) allEvents)
    with remaining0 in Hcount.
  unfold len in *.
  destruct (Z.ltb_spec (Z.of_nat (length selected)) 5) as [Hlt | Hge];
    [| cbn [fst]; lia].
  destruct (Z.ltb_spec 0 (Z.of_nat (length remaining0)))
    as [Hpos | Hzero]; [| cbn [fst]; lia].
  pose proof (Shuffle_perm remaining0 g) as Hperm.
  destruct (Rand.Shuffle remaining0 g) as [remaining g'].
  cbn [fst] in Hperm |- *.
  assert (Hrl : length remaining = length remaining0)
    by apply Permutation_length, Hperm.
  rewrite length_app, omap_lookup_all, length_take.
  2: { apply (remaining_valid (fun ev => negb (isSeen seen (keyFor ev)))).
       intros i Hi%subseteq_take. subst remaining0.
       by rewrite Hperm in Hi. }
  destruct (Z.ltb_spec (Z.of_nat (length remaining))
                       (5 - Z.of_nat (length selected))); lia.
Qed.

(** Where the first pass leaves [selected] and [seen]. *)
Lemma firstPass_state g :
  passInv allEvents (eraLoop allEvents eras [] ∅ g).1.1
                    (eraLoop allEvents eras [] ∅ g).1.2
  /\ seenOnly (eraLoop allEvents eras [] ∅ g).1.2
              (eraLoop allEvents eras [] ∅ g).1.1
  /\ (forall era, era ∈ eras ->
        (exists ev, ev ∈ allEvents /\ inEra era ev) ->
        exists ev, ev ∈ (eraLoop allEvents eras [] ∅ g).1.1 /\ inEra era ev).
Proof.
  assert (Hmk : marks ∅ []) by (by intros ? ?%elem_of_nil).
  assert (Hso : seenOnly ∅ []).
  { intros k Hk. unfold isSeen in Hk. by rewrite lookup_empty in Hk. }
  split.
  - apply eraLoop_inv; [| done].
    split; [constructor |]. split; [done |].
    split; [by intros ? ?%elem_of_nil | done].
  - destruct (eraLoop_covers eras [] ∅ g Hmk Hso) as (added & _ & ? & _ & ?);
      [done | by repeat constructor | done].
Qed.

(** An event is not marked in [seen] exactly when it is not selected. *)
Lemma unseen_iff selected seen ev :
  marks seen selected -> seenOnly seen selected ->
  negb (isSeen seen (keyFor ev)) = true <-> ev ∉ selected.
Proof.
  intros Hmk Hso. rewrite negb_true_iff. split.
  - intros Hns Hin. rewrite (Hmk _ Hin) in Hns. done.
  - intros Hnotin. destruct (isSeen seen (keyFor ev)) eqn:Hs; [| done].
    destruct (Hso _ Hs) as (e & He & Hk).
    apply keyFor_eq_inv in Hk as ->. done.
Qed.

Lemma selectEventsByEra_fill g :
  allEvents <> [] ->
  exists selected seen g1,
    passInv allEvents selected seen /\ seenOnly seen selected
    /\ (forall era, era ∈ eras ->
          (exists ev, ev ∈ allEvents /\ inEra era ev) ->
          exists ev, ev ∈ selected /\ inEra era ev)
    /\ (selectEventsByEra allEvents g).1
       = SliceStableByYear (fillRemaining allEvents selected seen g1).1.
Proof.
  intros Hne. unfold selectEventsByEra.
  destruct (Z.eqb_spec (len allEvents) 0) as [E | _].
  { by apply len_zero_inv in E. }
  destruct (firstPass_state g) as (Hinv & Hso & Hcov).
  destruct (eraLoop allEvents eras [] ∅ g) as [[selected seen] g1].
  cbn [fst snd] in *. exists selected, seen, g1.
  repeat split; try done; try apply Hinv.
  by destruct (fillRemaining allEvents selected seen g1).
Qed.

Lemma filter_all_length (P : Event -> Prop) `{forall x, Decision (P x)}
    (l : list Event) :
  (forall x, x ∈ l -> P x) -> length (filter P l) = length l.
Proof.
  induction l as [|x l IH]; intros Hall; [done |].
  rewrite filter_cons_True by (apply Hall, elem_of_cons; by left).
  cbn [length]. rewrite IH; [done |].
  intros y Hy. apply Hall, elem_of_cons. by right.
Qed.

Lemma selectEventsByEra_nonempty g :
  allEvents <> [] -> (selectEventsByEra allEvents g).1 <> [].
Proof.
  intros Hne Hout.
  destruct (selectEventsByEra_fill g Hne)
    as (selected & seen & g1 & Hinv & Hso & _ & Heq).
  destruct Hinv as (_ & Hmk & _ & Hk5).
  pose proof (fillRemaining_length selected seen g1 Hk5) as Hlen.
  rewrite Heq in Hout.
  assert (Hzero : len (fillRemaining allEvents selected seen g1).1 = 0).
  { unfold len. rewrite <- SliceStableByYear_length, Hout. done. }
  rewrite Hzero in Hlen.
  pose proof (len_nonneg selected).
  pose proof (len_nonneg (filter (fun ev => negb (isSeen seen (keyFor ev)) = true)
                                 allEvents)) as Hnn.
  assert (selected = []) as -> by (apply len_zero_inv; lia).
  unfold len in Hlen. rewrite filter_all_length in Hlen.
  2: { intros ev _.
       by apply (unseen_iff [] seen ev Hmk Hso), not_elem_of_nil. }
  destruct allEvents; [done |]. cbn [length] in Hlen. lia.
Qed.

(** X4: for every list of events and every behaviour of the generator,
    the era-based selection has at most five events, ascending by year
    and all taken from the input, and it is empty only when the input
    is. *)
Theorem selectEventsByEra_bounds g :
  len (selectEventsByEra allEvents g).1 <= 5
  /\ sortedByYear (selectEventsByEra allEvents g).1
  /\ (selectEventsByEra allEvents g).1 ⊆ allEvents
  /\ ((selectEventsByEra allEvents g).1 = [] <-> allEvents = []).
Proof.
  destruct (selectEventsByEra_sound allEvents g) as (H5 & Hs & Hsub & _).
  split; [done |]. split; [done |]. split; [done |].
  split; [| by intros ->].
  intros Hout. destruct (decide (allEvents = [])) as [| Hne]; [done |].
  by destruct (selectEventsByEra_nonempty g Hne).
Qed.

(** X5: when no event occurs twice in the input, the era-based selection
    has no event twice and has exactly five events, or all of them when
    the input has fewer than five. *)
Theorem selectEventsByEra_exact g :
  NoDup allEvents ->
  NoDup (selectEventsByEra allEvents g).1
  /\ len (selectEventsByEra allEvents g).1 = Z.min 5 (len allEvents).
Proof.
  intros Hnd.
  destruct (selectEventsByEra_sound allEvents g) as (_ & _ & _ & Hout).
  split; [by apply Hout |].
  destruct (decide (allEvents = [])) as [E | Hne].
  { unfold selectEventsByEra. by rewrite E. }
  destruct (selectEventsByEra_fill g Hne)
    as (selected & seen & g1 & Hinv & Hso & _ & ->).
  destruct Hinv as (Hsnd & Hmk & Hsub & Hk5).
  unfold len at 1. rewrite SliceStableByYear_length.
  fold (len (fillRemaining allEvents selected seen g1).1).
  rewrite (fillRemaining_length selected seen g1 Hk5). f_equal.
  rewrite <- len_app. unfold len. f_equal. apply Permutation_length.
  apply NoDup_Permutation; [| done |].
  - apply NoDup_app. split; [done |]. split; [| by apply NoDup_filter].
    intros ev Hin [Hns _]%list_elem_of_filter.
    by apply (unseen_iff selected seen ev Hmk Hso) in Hns.
  - intros ev. rewrite elem_of_app, list_elem_of_filter. split.
    + intros [Hin | [_ Hin]]; [by apply Hsub | done].
    + intros Hin. destruct (decide (ev ∈ selected)); [by left | right].
      split; [| done]. by apply (unseen_iff selected seen ev Hmk Hso).
Qed.

(** X6: every era that has an event in the input has one in the
    selection: the first pass takes an event from each of the five eras
    that holds any, and neither the fill pass nor the sort removes it. *)
Theorem selectEventsByEra_covers_eras g era :
  era ∈ eras ->
  (exists ev, ev ∈ allEvents /\ inEra era ev) ->
  exists ev, ev ∈ (selectEventsByEra allEvents g).1 /\ inEra era ev.
Proof.
  intros Hera Hex.
  assert (Hne : allEvents <> []).
  { destruct Hex as (ev & Hin & _). intros E. rewrite E in Hin.
    by apply elem_of_nil in Hin. }
  destruct (selectEventsByEra_fill g Hne)
    as (selected & seen & g1 & _ & _ & Hcov & ->).
  destruct (Hcov era Hera Hex) as (ev & Hin & Hev).
  exists ev. split; [| done].
  rewrite SliceStableByYear_perm.
  destruct (fillRemaining_grows selected seen g1) as (added & ->).
  apply elem_of_app. by left.
Qed.

End EraFacts.

Section EraRuns.

Import Sort Selector.

Lemma selectEventsByEra_exact_witness :
  NoDup [woodstock; apollo13; caesar]
  /\ len (selectEventsByEra [woodstock; apollo13; caesar] [2; 1]).1
     = Z.min 5 (len [woodstock; apollo13; caesar]).
Proof.
  assert (Hnd : NoDup [woodstock; apollo13; caesar]).
  { repeat constructor; rewrite ?elem_of_cons, ?elem_of_nil;
      intros H; repeat destruct H as [H | H]; done. }
  split; [exact Hnd |].
  exact (proj2 (selectEventsByEra_exact [woodstock; apollo13; caesar] [2; 1]
                  Hnd)).
Defined.

Lemma selectEventsByEra_covers_eras_witness :
  exists ev,
    ev ∈ (selectEventsByEra [caesar; woodstock; apollo13] [0]).1
    /\ inEra (mkEra (lit "Contemporary") 1951 2030 1) ev.
Proof.
  apply (selectEventsByEra_covers_eras [caesar; woodstock; apollo13] [0]).
  - unfold eras. rewrite !elem_of_cons. do 4 right. by left.
  - exists woodstock. split.
    + apply elem_of_cons. right. apply elem_of_cons. by left.
    + unfold inEra. cbn. lia.
Defined.

End EraRuns.

(** ** The selection block as a whole *)

Section StrategyFacts.

Import Sort Selector.

Implicit Types (events : list Event) (g : Rand.state).

Lemma take5_bounds events :
  len (take 5 events) = Z.min 5 (len events) /\ take 5 events ⊆+ events.
Proof.
  split; [| apply submseteq_take].
  unfold len. rewrite length_take. lia.
Qed.

(** The part of the block before the last shuffle: the events one of
    the strategies keeps, and the strategy names that lead there. *)
Lemma strategy_cases events shuffle strategy g :
  exists kept g',
    applyStrategy events shuffle strategy g
    = (if shuffle && (1 <? len kept) then Rand.Shuffle kept g'
       else (kept, g'))
    /\ (kept = (if 0 <? len (selectEventsByEra events g).1
                then (selectEventsByEra events g).1 else events)
        /\ strategy <> lit "random" /\ strategy <> lit "oldest-first"
        \/ (exists shuffled, kept = take 5 shuffled /\ shuffled ≡ₚ events)
           /\ (strategy = lit "random"
               \/ strategy = lit "oldest-first" /\ shuffle = true)
        \/ kept = take 5 (SliceStableByYear events)
           /\ strategy = lit "oldest-first" /\ shuffle = false).
Proof.
  unfold applyStrategy.
  set (strategy' := if shuffle && bool_decide (strategy = lit "oldest-first")
                    then lit "random" else strategy).
  assert (Hnew : strategy' = lit "random"
                 /\ strategy = lit "oldest-first" /\ shuffle = true
                 \/ strategy' = strategy
                    /\ (strategy = lit "oldest-first" -> shuffle = false)).
  { subst strategy'. destruct shuffle; cbn [andb]; [| by right].
    destruct (bool_decide_reflect (strategy = lit "oldest-first"));
      [by left | by right]. }
  assert (HbyEra : exists kept g',
             (let '(sel, g0) := selectEventsByEra events g in
              (if 0 <? len sel then sel else events, g0)) = (kept, g')
             /\ kept = (if 0 <? len (selectEventsByEra events g).1
                        then (selectEventsByEra events g).1 else events)).
  { destruct (selectEventsByEra events g) as [sel g0]. by eexists _, _. }
  assert (Htake : forall l : list Event,
             (if 5 <? len l then take 5 l else l) = take 5 l).
  { intros l. destruct (Z.ltb_spec 5 (len l)) as [| Hfew]; [done |].
    rewrite take_ge; [done |]. unfold len in Hfew. lia. }
  destruct (bool_decide_reflect (strategy' = lit "era-based")) as [He | He].
  { destruct HbyEra as (kept & g' & -> & Hk). exists kept, g'.
    split; [done |]. left. split; [done |].
    destruct Hnew as [[Hn _] | [Hn _]]; rewrite Hn in He;
      [discriminate | by rewrite He]. }
  destruct (bool_decide_reflect (strategy' = lit "random")) as [Hr | Hr].
  { assert (Hwhy : strategy = lit "random"
                   \/ strategy = lit "oldest-first" /\ shuffle = true).
    { destruct Hnew as [(_ & ? & ?) | [Hn _]]; [by right |].
      left. by rewrite <- Hn. }
    destruct (1 <? len events).
    - pose proof (Shuffle_perm events g) as Hperm.
      destruct (Rand.Shuffle events g) as [shuffled g'].
      exists (take 5 shuffled), g'. rewrite Htake. split; [done |].
      right. left. split; [by exists shuffled | done].
    - exists (take 5 events), g. rewrite Htake. split; [done |].
      right. left. split; [by exists events | done]. }
  destruct (bool_decide_reflect (strategy' = lit "oldest-first")) as [Ho | Ho].
  { assert (Hwhy : strategy = lit "oldest-first" /\ shuffle = false).
    { destruct Hnew as [[Hn _] | [Hn Hs]]; [congruence |].
      rewrite Hn in Ho. split; [done | by apply Hs]. }
    exists (take 5 (SliceStableByYear events)), g. split; [| by do 2 right].
    rewrite Htake.
    destruct (Z.ltb_spec 1 (len events)) as [| Hshort]; [done |].
    destruct events as [|x [|y events]]; try done.
    rewrite !len_cons in Hshort. pose proof (len_nonneg events). lia. }
  destruct HbyEra as (kept & g' & -> & Hk). exists kept, g'.
  split; [done |]. left. split; [done |].
  destruct Hnew as [[Hn _] | [Hn _]]; [done |].
  rewrite Hn in Hr, Ho. done.
Qed.

Lemma perm_nil_iff (l k : list Event) : l ≡ₚ k -> (l = [] <-> k = []).
Proof.
  intros Hp%Permutation_length.
  destruct l, k; cbn [length] in Hp; split; intros; done || lia.
Qed.

Lemma final_shuffle_perm (kept : list Event) (shuffle : bool) g :
  (if shuffle && (1 <? len kept) then Rand.Shuffle kept g else (kept, g)).1
  ≡ₚ kept.
Proof. destruct (_ && _); [apply Shuffle_perm | done]. Qed.

(** X7: whatever the strategy name and the shuffle flag, the events
    chosen for display are at most five, all of them events of the
    input, and none only when the input has none. *)
Theorem applyStrategy_bounds events shuffle strategy g :
  len (applyStrategy events shuffle strategy g).1 <= 5
  /\ (applyStrategy events shuffle strategy g).1 ⊆ events
  /\ ((applyStrategy events shuffle strategy g).1 = [] <-> events = []).
Proof.
  destruct (strategy_cases events shuffle strategy g)
    as (kept & g' & -> & Hkept).
  pose proof (final_shuffle_perm kept shuffle g') as Hperm.
  assert (Hk : len kept <= 5 /\ kept ⊆ events /\ (kept = [] <-> events = [])).
  { destruct Hkept as [(-> & _) | [[(sh & -> & Hp) _] | (-> & _)]].
    - destruct (decide (events = [])) as [-> | Hne]; [done |].
      pose proof (selectEventsByEra_nonempty events g Hne) as Hsel.
      destruct (selectEventsByEra_sound events g) as (H5 & _ & Hsub & _).
      destruct (selectEventsByEra events g).1 as [|e sel] eqn:E; [done |].
      change (0 <? len (e :: sel)) with true. cbv iota.
      split; [done |]. split; [done |]. by split.
    - destruct (take5_bounds sh) as [Hlen Hsub].
      split; [lia |]. split.
      + intros e He. rewrite <- Hp. by eapply elem_of_submseteq.
      + split.
        * intros Hnil. destruct sh; [by apply Permutation_nil_l in Hp |].
          done.
        * intros ->. apply Permutation_nil_r in Hp as ->. done.
    - destruct (take5_bounds (SliceStableByYear events)) as [Hlen Hsub].
      split; [lia |]. split.
      + intros e He. rewrite <- (SliceStableByYear_perm events).
        by eapply elem_of_submseteq.
      + split; [| by intros ->].
        destruct events as [|x events]; [done |].
        pose proof (SliceStableByYear_length (x :: events)) as Hl.
        destruct (SliceStableByYear (x :: events)); [done |]. done. }
  destruct Hk as (H5 & Hsub & Hnil).
  split; [| split].
  - unfold len in *. by rewrite Hperm.
  - intros e He. apply Hsub. by rewrite <- Hperm.
  - rewrite <- Hnil. by apply perm_nil_iff.
Qed.

(** X8: the random strategy, and oldest-first when the shuffle flag is
    set (which is treated as random), keeps exactly five events of the
    input, or all of them when there are fewer, each as often at most as
    the input holds it. *)
Theorem random_strategy_size events shuffle strategy g :
  strategy = lit "random"
  \/ strategy = lit "oldest-first" /\ shuffle = true ->
  len (applyStrategy events shuffle strategy g).1 = Z.min 5 (len events)
  /\ (applyStrategy events shuffle strategy g).1 ⊆+ events.
Proof.
  intros Hwhy.
  destruct (strategy_cases events shuffle strategy g)
    as (kept & g' & -> & Hkept).
  pose proof (final_shuffle_perm kept shuffle g') as Hperm.
  assert (Hk : exists sh, kept = take 5 sh /\ sh ≡ₚ events).
  { destruct Hkept as [(_ & Hn1 & Hn2) | [[Hsh _] | (_ & Ho & Hs)]].
    - exfalso. by destruct Hwhy as [? | [? _]].
    - exact Hsh.
    - exfalso. destruct Hwhy as [-> | [_ ->]]; done. }
  destruct Hk as (sh & -> & Hp).
  destruct (take5_bounds sh) as [Hlen Hsub].
  split.
  - unfold len in *. rewrite Hperm, Hlen. by rewrite Hp.
  - by rewrite Hperm, <- Hp.
Qed.

Lemma random_strategy_size_witness :
  len (applyStrategy [caesar; woodstock; apollo13] true (lit "oldest-first")
                     [1; 0; 1]).1
  = Z.min 5 (len [caesar; woodstock; apollo13])
  /\ (applyStrategy [caesar; woodstock; apollo13] true (lit "oldest-first")
                    [1; 0; 1]).1
     ⊆+ [caesar; woodstock; apollo13].
Proof.
  apply (random_strategy_size [caesar; woodstock; apollo13] true
           (lit "oldest-first") [1; 0; 1]).
  right. split; reflexivity.
Defined.

(** The stable sort leaves the events of one year in the order of the
    input. *)
Lemma insertByYear_filter (y : Z) x s :
  filter (fun e => Year e = y) (insertByYear x s)
  = filter (fun e => Year e = y) (x :: s).
Proof.
  induction s as [|x' s IH]; [done |]. cbn [insertByYear].
  destruct (Z.ltb_spec (Year x') (Year x)) as [Hlt | Hge]; [| done].
  destruct (decide (Year x' = y)) as [Hy' | Hy'].
  - rewrite filter_cons_True, IH by done.
    rewrite (filter_cons_False _ x) by (cbn; lia).
    rewrite (filter_cons_False _ x) by (cbn; lia).
    by rewrite filter_cons_True.
  - rewrite filter_cons_False, IH by done.
    destruct (decide (Year x = y)).
    + rewrite !(filter_cons_True _ x) by done.
      by rewrite filter_cons_False.
    + rewrite !(filter_cons_False _ x) by done.
      by rewrite filter_cons_False.
Qed.

Lemma SliceStableByYear_filter (y : Z) s :
  filter (fun e => Year e = y) (SliceStableByYear s)
  = filter (fun e => Year e = y) s.
Proof.
  induction s as [|x s IH]; [done |]. cbn [SliceStableByYear].
  rewrite insertByYear_filter.
  destruct (decide (Year x = y)).
  - rewrite !(filter_cons_True _ x) by done. by rewrite IH.
  - rewrite !(filter_cons_False _ x) by done. by rewrite IH.
Qed.

(** X9: oldest-first without the shuffle flag keeps the five oldest
    events, or all of them when there are fewer: the events of the
    input are the ones it keeps and the ones it drops, it keeps exactly
    min(5, n) of the n events, in ascending order of year, no kept
    event is later than a dropped one, and among the events of one year
    it keeps the first ones of the input, in the order of the input. *)
Theorem oldest_first_keeps_oldest events g :
  exists dropped,
    events ≡ₚ (applyStrategy events false (lit "oldest-first") g).1 ++ dropped
    /\ len (applyStrategy events false (lit "oldest-first") g).1
       = Z.min 5 (len events)
    /\ sortedByYear (applyStrategy events false (lit "oldest-first") g).1
    /\ (forall a b,
          a ∈ (applyStrategy events false (lit "oldest-first") g).1 ->
          b ∈ dropped -> Year a <= Year b)
    /\ (forall y,
          filter (fun e => Year e = y)
                 (applyStrategy events false (lit "oldest-first") g).1
          `prefix_of` filter (fun e => Year e = y) events).
Proof.
  rewrite oldest_first_value. cbn [fst].
  exists (drop 5 (SliceStableByYear events)).
  split; [by rewrite take_drop, SliceStableByYear_perm |].
  split.
  { destruct (take5_bounds (SliceStableByYear events)) as [-> _].
    unfold len. by rewrite SliceStableByYear_length. }
  split; [apply sortedByYear_take, SliceStableByYear_sorted |].
  split.
  - intros a b Ha Hb.
    pose proof (SliceStableByYear_sorted events) as Hs.
    unfold sortedByYear in Hs.
    rewrite <- (take_drop 5 (SliceStableByYear events)) in Hs.
    by eapply (StronglySorted_app_1_elem_of _ _ _ _ _ Hs).
  - intros y. rewrite <- (SliceStableByYear_filter y events).
    rewrite <- (take_drop 5 (SliceStableByYear events)) at 2.
    rewrite filter_app. by apply prefix_app_r.
Qed.

End StrategyFacts.

(* ===================================================================== *)
(** ** Counting effects                                                  *)
(* ===================================================================== *)

Section EffectCounts.

Import Wikimedia.

(** Counting through a list of effects, one effect at a time. *)
Lemma requestsOf_cons e es :
  requestsOf (e :: es)
  = match e with HttpGet _ => e :: requestsOf es | _ => requestsOf es end.
Proof. by destruct e. Qed.

Lemma sleepsOf_cons e es :
  sleepsOf (e :: es)
  = match e with Sleep d _ => d :: sleepsOf es | _ => sleepsOf es end.
Proof. by destruct e. Qed.

Lemma cacheWritesOf_cons e es :
  cacheWritesOf (e :: es)
  = match e with
    | CacheWrite _ _ _ => e :: cacheWritesOf es
    | _ => cacheWritesOf es
    end.
Proof. by destruct e. Qed.

Lemma requestsOf_nil : requestsOf [] = [].
Proof. reflexivity. Qed.

Lemma sleepsOf_nil : sleepsOf [] = [].
Proof. reflexivity. Qed.

Lemma cacheWritesOf_nil : cacheWritesOf [] = [].
Proof. reflexivity. Qed.

End EffectCounts.

Ltac effects :=
  rewrite ?requestsOf_app, ?sleepsOf_app, ?cacheWritesOf_app, ?length_app,
    ?requestsOf_cons, ?sleepsOf_cons, ?cacheWritesOf_cons,
    ?requestsOf_nil, ?sleepsOf_nil, ?cacheWritesOf_nil;
  cbn [length app].

(* ===================================================================== *)
(** ** The feed client: retries, cancellation and the cache              *)
(* ===================================================================== *)

Section ClientMore.

Import Wikimedia.

Variable env : Env.

Implicit Types (w : World) (es : list Effect).

(** *** The cache *)

Lemma tryCache_hit c cacheFile w fi data evs :
  files w !! cacheFile = Some fi ->
  now w - ModTime fi <= ttl c ->
  Data fi = Some data ->
  json_Unmarshal env data = inr evs ->
  tryCache env c cacheFile w = (Some evs, w).
Proof.
  intros Hfile Hfresh Hdata Hjson. unfold tryCache.
  rewrite Hfile, Hdata, (parseEventsFromBody_ok _ _ _ Hjson).
  by rewrite (proj2 (Z.leb_le _ _) Hfresh).
Qed.

(** X10: with [bypassCache] false, a cache file of the date that is no
    older than the ttl, can be read and parses is the answer: its
    events are returned and nothing else happens, no request, no sleep,
    no write. *)
Theorem fresh_cache_is_the_answer rev c month day w fi data evs :
  month <> [] -> day <> [] ->
  files w !! cachePath env c month day = Some fi ->
  now w - ModTime fi <= ttl c ->
  Data fi = Some data ->
  json_Unmarshal env data = inr evs ->
  FetchOnThisDay env rev c month day false w = (Ok evs, w).
Proof.
  intros Hm Hd Hfile Hfresh Hdata Hjson. unfold FetchOnThisDay.
  rewrite (bool_decide_eq_false_2 _ Hm), (bool_decide_eq_false_2 _ Hd).
  cbn [orb negb]. unfold bind.
  by rewrite (tryCache_hit _ _ _ _ _ _ Hfile Hfresh Hdata Hjson).
Qed.

(** X11: what a call fetched it caches for the next one: after a first
    response 200 that parses, with the cache not bypassed and the disk
    working, the cache file of the date holds the body, stamped with
    the time of the call, and any later call within the ttl that finds
    the file as it was left returns the same events without a
    request. *)
Theorem fetched_feed_is_cached rev c month day w body evs :
  month <> [] -> day <> [] -> cacheMiss env c month day false w ->
  network env (length (requestsOf (trace w))) = Response 200 body ->
  json_Unmarshal env body = inr evs ->
  diskError env (length (cacheWritesOf (trace w))) = None ->
  files (FetchOnThisDay env rev c month day false w).2
    !! cachePath env c month day
  = Some (mkFile (now w) (Some body))
  /\ forall w2,
       files w2 !! cachePath env c month day
       = files (FetchOnThisDay env rev c month day false w).2
           !! cachePath env c month day ->
       now w2 - now w <= ttl c ->
       FetchOnThisDay env rev c month day false w2 = (Ok evs, w2).
Proof.
  intros Hm Hd Hmiss Hnet Hjson Hdisk.
  assert (Hfile :
    files (FetchOnThisDay env rev c month day false w).2
      !! cachePath env c month day
    = Some (mkFile (now w) (Some body))).
  { rewrite FetchOnThisDay_network by done.
    cbn [attemptLoop]. unfold bind at 1. rewrite roundTrip_run, Hnet.
    cbn [Z.eqb Pos.eqb]. rewrite (parseEventsFromBody_ok _ _ _ Hjson).
    assert (Hw : forall url,
      files (writeCacheFileAtomic env (cachePath env c month day) body
               (mkWorld (now w) (files w) (rng w)
                        (trace w ++ [HttpGet url]))).2
        !! cachePath env c month day
      = Some (mkFile (now w) (Some body))).
    { intros url. rewrite writeCacheFileAtomic_run. cbn [snd files trace now].
      rewrite cacheWritesOf_app, cacheWritesOf_HttpGet, app_nil_r, Hdisk.
      apply lookup_insert_eq. }
    destruct rev; cbn [negb]; unfold bind, ret;
      match goal with |- context [writeCacheFileAtomic _ _ _ ?w1] =>
        specialize (Hw (lit "https://api.wikimedia.org/feed/v1/wikipedia/en/onthisday/all/" ++ month ++ lit "/" ++ day));
        destruct (writeCacheFileAtomic env (cachePath env c month day)
                    body w1) as [r w1']
      end; exact Hw. }
  split; [exact Hfile |].
  intros w2 Hsame Hfresh. rewrite Hfile in Hsame.
  unfold FetchOnThisDay.
  rewrite (bool_decide_eq_false_2 _ Hm), (bool_decide_eq_false_2 _ Hd).
  cbn [orb negb]. unfold bind.
  by rewrite (tryCache_hit _ _ _ _ _ _ Hsame Hfresh eq_refl Hjson).
Qed.

(** *** Retries *)

(** The pass that meets a response 200 whose body parses ends the
    loop with the events; it adds a request and no sleep. *)
Lemma attemptLoop_success rev cacheFile url bypassCache left backoff lastErr
    w body evs :
  network env (length (requestsOf (trace w))) = Response 200 body ->
  json_Unmarshal env body = inr evs ->
  exists w',
    attemptLoop env rev cacheFile url bypassCache (S left) backoff lastErr w
    = (Ok evs, w')
    /\ length (requestsOf (trace w')) = S (length (requestsOf (trace w)))
    /\ sleepsOf (trace w') = sleepsOf (trace w).
Proof.
  intros Hnet Hjson. cbn [attemptLoop]. unfold bind at 1.
  rewrite roundTrip_run, Hnet. cbn [Z.eqb Pos.eqb].
  rewrite (parseEventsFromBody_ok _ _ _ Hjson).
  assert (Hwrite : forall w1,
    length (requestsOf (trace w1)) = S (length (requestsOf (trace w))) ->
    sleepsOf (trace w1) = sleepsOf (trace w) ->
    length (requestsOf (trace (writeCacheFileAtomic env cacheFile body w1).2))
    = S (length (requestsOf (trace w)))
    /\ sleepsOf (trace (writeCacheFileAtomic env cacheFile body w1).2)
       = sleepsOf (trace w)).
  { intros w1 Hr Hs. rewrite writeCacheFileAtomic_run. cbn [snd trace].
    rewrite requestsOf_app, length_app, requestsOf_CacheWrite, Hr.
    rewrite sleepsOf_app, sleepsOf_CacheWrite, app_nil_r, Hs.
    cbn [length]. split; [lia | done]. }
  assert (Hw1 : forall w1,
    w1 = mkWorld (now w) (files w) (rng w) (trace w ++ [HttpGet url]) ->
    length (requestsOf (trace w1)) = S (length (requestsOf (trace w)))
    /\ sleepsOf (trace w1) = sleepsOf (trace w)).
  { intros w1 ->. cbn [trace].
    rewrite requestsOf_app, length_app, requestsOf_HttpGet.
    rewrite sleepsOf_app, sleepsOf_HttpGet, app_nil_r.
    cbn [length]. split; [lia | done]. }
  match goal with |- context [mkWorld ?a ?b ?c ?d] =>
    destruct (Hw1 (mkWorld a b c d) eq_refl) as [Hr Hs];
    specialize (Hwrite (mkWorld a b c d) Hr Hs);
    generalize dependent (mkWorld a b c d)
  end.
  intros w1 Hr Hs Hwrite.
  destruct rev; [| destruct bypassCache; cbn [negb]]; unfold bind, ret.
  - destruct (writeCacheFileAtomic env cacheFile body w1) as [r w2].
    by exists w2.
  - by exists w1.
  - destruct (writeCacheFileAtomic env cacheFile body w1) as [r w2].
    by exists w2.
Qed.

(** X12: a call succeeds on its second or third attempt when the
    earlier ones met retryable failures: after [n <= 2] failed round
    trips (network error, unreadable body, status 429 or 5xx), each
    followed by a full backoff sleep, a response 200 that parses is
    returned, after [n + 1] requests and [n] sleeps. *)
Theorem retries_then_success rev c month day bypassCache w (n : nat)
    body evs :
  month <> [] -> day <> [] -> cacheMiss env c month day bypassCache w ->
  (n <= 2)%nat ->
  (forall i, (i < n)%nat ->
     retryable (network env (length (requestsOf (trace w)) + i)) = true) ->
  (forall i, (i < n)%nat ->
     ctxDone env (length (sleepsOf (trace w)) + i) = None) ->
  network env (length (requestsOf (trace w)) + n) = Response 200 body ->
  json_Unmarshal env body = inr evs ->
  (FetchOnThisDay env rev c month day bypassCache w).1 = Ok evs
  /\ length (requestsOf
               (trace (FetchOnThisDay env rev c month day bypassCache w).2))
     = (length (requestsOf (trace w)) + n + 1)%nat
  /\ length (sleepsOf
               (trace (FetchOnThisDay env rev c month day bypassCache w).2))
     = (length (sleepsOf (trace w)) + n)%nat.
Proof.
  intros Hm Hd Hmiss Hn Hnet Hctx Hok Hjson.
  rewrite FetchOnThisDay_network by done.
  match goal with |- context [attemptLoop _ ?r ?p ?u ?b _ ?d ?l w] =>
    destruct (attemptLoop_retries env r p u b n 3 d l w ltac:(lia) Hnet Hctx)
      as (w' & Hrun & Hr' & Hs' & _)
  end.
  rewrite Hrun. replace (3 - n)%nat with (S (2 - n)) by lia.
  rewrite <- Hr' in Hok.
  match goal with |- context [attemptLoop _ ?r ?p ?u ?b (S ?k) ?d ?l w'] =>
    destruct (attemptLoop_success r p u b k d l w' body evs Hok Hjson)
      as (w2 & -> & Hr2 & Hs2)
  end.
  cbn [fst snd]. split; [done |]. split; [lia |].
  by rewrite Hs2.
Qed.

(** X13: when all three attempts meet retryable failures and the
    context lets both backoff sleeps run, the call returns the error of
    the third failure, after three requests and two sleeps; nothing is
    written. *)
Theorem retries_exhausted rev c month day bypassCache w :
  month <> [] -> day <> [] -> cacheMiss env c month day bypassCache w ->
  (forall i, (i < 3)%nat ->
     retryable (network env (length (requestsOf (trace w)) + i)) = true) ->
  (forall i, (i < 2)%nat ->
     ctxDone env (length (sleepsOf (trace w)) + i) = None) ->
  (FetchOnThisDay env rev c month day bypassCache w).1
  = Err (lastErrOf (network env (length (requestsOf (trace w)) + 2)))
  /\ length (requestsOf
               (trace (FetchOnThisDay env rev c month day bypassCache w).2))
     = (length (requestsOf (trace w)) + 3)%nat
  /\ length (sleepsOf
               (trace (FetchOnThisDay env rev c month day bypassCache w).2))
     = (length (sleepsOf (trace w)) + 2)%nat
  /\ files (FetchOnThisDay env rev c month day bypassCache w).2 = files w
  /\ cacheWritesOf
       (trace (FetchOnThisDay env rev c month day bypassCache w).2)
     = cacheWritesOf (trace w).
Proof.
  intros Hm Hd Hmiss Hnet Hctx.
  rewrite FetchOnThisDay_network by done.
  match goal with |- context [attemptLoop _ ?r ?p ?u ?b _ ?d ?l w] =>
    destruct (attemptLoop_retries env r p u b 2 3 d l w ltac:(lia)
                ltac:(intros i Hi; apply Hnet; lia) Hctx)
      as (w' & Hrun & Hr' & Hs' & Hf' & Hc')
  end.
  rewrite Hrun. change (3 - 2)%nat with 1%nat.
  pose proof (Hnet 2%nat ltac:(lia)) as H2. rewrite <- Hr' in H2.
  rewrite (attemptLoop_retry env _ _ _ _ _ _ _ _ H2). cbv zeta.
  change (maxAttempts - Z.of_nat 0 <? maxAttempts) with false. cbv iota.
  cbn [fst snd trace files]. rewrite Hr'.
  split; [done |].
  rewrite requestsOf_app, length_app, requestsOf_HttpGet, Hr'.
  rewrite sleepsOf_app, sleepsOf_HttpGet, app_nil_r, Hs'.
  rewrite cacheWritesOf_app, cacheWritesOf_HttpGet, app_nil_r, Hc'.
  cbn [length]. split; [lia |]. done.
Qed.

(** X14: a context that is done during a backoff sleep ends the call at
    once: after [n < 2] full retries, a further retryable failure and a
    sleep the context cuts short, the call returns the error of the
    context; it has sent [n + 1] requests and sends no more, and
    nothing is written. *)
Theorem cancelled_backoff_ends_call rev c month day bypassCache w (n : nat)
    err :
  month <> [] -> day <> [] -> cacheMiss env c month day bypassCache w ->
  (n < 2)%nat ->
  (forall i, (i <= n)%nat ->
     retryable (network env (length (requestsOf (trace w)) + i)) = true) ->
  (forall i, (i < n)%nat ->
     ctxDone env (length (sleepsOf (trace w)) + i) = None) ->
  ctxDone env (length (sleepsOf (trace w)) + n) = Some err ->
  (FetchOnThisDay env rev c month day bypassCache w).1 = Err err
  /\ length (requestsOf
               (trace (FetchOnThisDay env rev c month day bypassCache w).2))
     = (length (requestsOf (trace w)) + n + 1)%nat
  /\ files (FetchOnThisDay env rev c month day bypassCache w).2 = files w
  /\ cacheWritesOf
       (trace (FetchOnThisDay env rev c month day bypassCache w).2)
     = cacheWritesOf (trace w).
Proof.
  intros Hm Hd Hmiss Hn Hnet Hctx Hdone.
  rewrite FetchOnThisDay_network by done.
  match goal with |- context [attemptLoop _ ?r ?p ?u ?b _ ?d ?l w] =>
    destruct (attemptLoop_retries env r p u b n 3 d l w ltac:(lia)
                ltac:(intros i Hi; apply Hnet; lia) Hctx)
      as (w' & Hrun & Hr' & Hs' & Hf' & Hc')
  end.
  rewrite Hrun. replace (3 - n)%nat with (S (2 - n)) by lia.
  pose proof (Hnet n ltac:(lia)) as H2. rewrite <- Hr' in H2.
  rewrite <- Hs' in Hdone.
  rewrite (attemptLoop_retry env _ _ _ _ _ _ _ _ H2). cbv zeta.
  replace (maxAttempts - Z.of_nat (2 - n) <? maxAttempts) with true
    by (symmetry; apply Z.ltb_lt; unfold maxAttempts; lia).
  rewrite Hdone. cbn [fst snd trace files].
  split; [done |].
  rewrite !requestsOf_app, !length_app, requestsOf_HttpGet, requestsOf_Sleep.
  rewrite !cacheWritesOf_app, cacheWritesOf_HttpGet, cacheWritesOf_Sleep.
  rewrite !app_nil_r, Hr', Hc'.
  cbn [length]. split; [lia |]. done.
Qed.

(** *** Failures that are not retried *)

(** X15: a status other than 200, 429 and 5xx ends the call on the
    spot, on whichever attempt it is met first: the error carries the
    status and the body, and the call has done nothing but send that
    one request: no sleep, no retry, no cache write. *)
Theorem other_status_is_final rev c month day bypassCache w status body :
  month <> [] -> day <> [] -> cacheMiss env c month day bypassCache w ->
  network env (length (requestsOf (trace w))) = Response status body ->
  status <> 200 -> status <> 429 -> ~ 500 <= status < 600 ->
  FetchOnThisDay env rev c month day bypassCache w
  = (Err (Errorf (lit "API returned status code: " ++ Itoa status
                  ++ lit ", body: " ++ body)),
     mkWorld (now w) (files w) (rng w)
       (trace w
        ++ [HttpGet
              (lit "https://api.wikimedia.org/feed/v1/wikipedia/en/onthisday/all/"
               ++ month ++ lit "/" ++ day)])).
Proof.
  intros Hm Hd Hmiss Hnet H200 H429 H5xx.
  rewrite FetchOnThisDay_network by done.
  cbn [attemptLoop]. unfold bind. rewrite roundTrip_run, Hnet.
  destruct (Z.eqb_spec status 200); [done |].
  destruct (Z.eqb_spec status 429); [done |].
  destruct (Z.leb_spec 500 status), (Z.ltb_spec status 600);
    cbn [orb andb]; try reflexivity.
  lia.
Qed.

(** X16: a response 200 whose body does not parse is an error of the
    call, not a reason to retry: the JSON error is returned after that
    one request, and the body is not cached. *)
Theorem unparseable_feed_is_final rev c month day bypassCache w body err :
  month <> [] -> day <> [] -> cacheMiss env c month day bypassCache w ->
  network env (length (requestsOf (trace w))) = Response 200 body ->
  json_Unmarshal env body = inl err ->
  FetchOnThisDay env rev c month day bypassCache w
  = (Err (Errorf (lit "failed to parse JSON: " ++ Error err)),
     mkWorld (now w) (files w) (rng w)
       (trace w
        ++ [HttpGet
              (lit "https://api.wikimedia.org/feed/v1/wikipedia/en/onthisday/all/"
               ++ month ++ lit "/" ++ day)])).
Proof.
  intros Hm Hd Hmiss Hnet Hjson.
  rewrite FetchOnThisDay_network by done.
  cbn [attemptLoop]. unfold bind. rewrite roundTrip_run, Hnet.
  cbn [Z.eqb Pos.eqb]. unfold parseEventsFromBody. rewrite Hjson.
  reflexivity.
Qed.

(** *** Every call *)

(** What the loop does with at most three passes left, whatever the
    network, the context and the disk do. *)
Lemma attemptLoop_effects rev cacheFile url bypassCache (left : nat) :
  forall backoff lastErr w,
  (1 <= left <= 3)%nat ->
  exists r w' added,
    attemptLoop env rev cacheFile url bypassCache left backoff lastErr w
    = (r, w')
    /\ trace w' = trace w ++ added
    /\ (length (requestsOf added) <= left)%nat
    /\ (length (sleepsOf added) < left)%nat
    /\ cacheGot env cacheFile url (length (requestsOf (trace w))) added r
    /\ (forall e, r = Err e -> errorSource env e).
Proof.
  induction left as [|left IH]; intros backoff lastErr w Hleft; [lia |].
  destruct (retryable (network env (length (requestsOf (trace w)))))
    eqn:Hretry.
  - rewrite (attemptLoop_retry env _ _ _ _ _ _ _ _ Hretry). cbv zeta.
    destruct (Z.ltb_spec (maxAttempts - Z.of_nat left) maxAttempts)
      as [Hlt | Hge].
    + destruct (ctxDone env (length (sleepsOf (trace w)))) as [err |] eqn:Hctx.
      * eexists _, _, [HttpGet url; Sleep _ false].
        split; [reflexivity |]. cbn [trace].
        split; [by rewrite <- app_assoc |].
        split; [effects; lia |]. split; [effects; unfold maxAttempts in *; lia |].
        split; [by left |].
        intros e [= <-]. left. eauto.
      * match goal with |- context [attemptLoop _ _ _ _ _ _ ?b ?l ?w2] =>
          destruct (IH b l w2) as (r & w' & added & Hrun & Htr & Hrq & Hsl
                                   & Hcache & Herr);
            [unfold maxAttempts in *; lia |]
        end.
        exists r, w', ([HttpGet url; Sleep (backoff + jitterOf (rng w)) true]
                       ++ added).
        split; [exact Hrun |]. cbn [trace] in Htr.
        split; [by rewrite Htr, <- !app_assoc |].
        split; [effects; lia |]. split; [effects; lia |].
        split; [| exact Herr].
        destruct Hcache as [Hnone | (before & body & ok & evs
                                     & -> & Hb & Hn & Hp & Hr)].
        -- left. effects. by rewrite Hnone.
        -- right.
           exists ([HttpGet url; Sleep (backoff + jitterOf (rng w)) true]
                   ++ before), body, ok, evs.
           split; [by rewrite <- app_assoc |].
           split; [effects; by rewrite Hb |].
           split; [| done].
           rewrite <- Hn. f_equal. cbn [trace]. effects. lia.
    + eexists _, _, [HttpGet url]. split; [reflexivity |]. cbn [trace].
      split; [done |]. split; [effects; lia |]. split; [effects; lia |].
      split; [by left |].
      intros e [= <-]. right. right. left. eauto.
  - cbn [attemptLoop]. unfold bind at 1. rewrite roundTrip_run.
    destruct (network env (length (requestsOf (trace w))))
      as [e0 | e0 | st e0 | st body] eqn:Hnet; try discriminate Hretry.
    + eexists _, _, []. split; [reflexivity |]. cbn [trace].
      split; [done |]. split; [effects; lia |]. split; [effects; lia |].
      split; [by left |].
      intros e [= <-]. right. left. eauto.
    + destruct (Z.eqb_spec st 200) as [-> | Hst].
      * unfold parseEventsFromBody at 1.
        destruct (json_Unmarshal env body) as [err | evs] eqn:Hjson.
        -- eexists _, _, [HttpGet url]. split; [reflexivity |]. cbn [trace].
           split; [done |]. split; [effects; lia |]. split; [effects; lia |].
           split; [by left |].
           intros e [= <-]. do 3 right. left. eauto 10.
        -- assert (Hwrite : exists ok w2,
             writeCacheFileAtomic env cacheFile body
               (mkWorld (now w) (files w) (rng w) (trace w ++ [HttpGet url]))
             = (ok, w2)
             /\ exists renamed, trace w2
                 = trace w ++ [HttpGet url; CacheWrite cacheFile body renamed]).
           { rewrite writeCacheFileAtomic_run. eexists _, _.
             split; [reflexivity |]. cbn [trace].
             eexists. by rewrite <- app_assoc. }
           destruct Hwrite as (ok & w2 & Hw & renamed & Htr).
           assert (Hgot : cacheGot env cacheFile url
                     (length (requestsOf (trace w)))
                     [HttpGet url; CacheWrite cacheFile body renamed]
                     (Ok ((fun e => mkEvent (Year e) (Text e)) <$> evs))).
           { right. exists [], body, renamed. eexists.
             split; [done |]. split; [done |].
             split; [by rewrite requestsOf_nil, Nat.add_0_r |].
             unfold parseEventsFromBody. by rewrite Hjson. }
           destruct rev; [| destruct bypassCache; cbn [negb]];
             unfold bind, ret; rewrite ?Hw.
           ++ eexists _, _, _. split; [reflexivity |].
              split; [exact Htr |]. split; [effects; lia |]. split; [effects; lia |].
              split; [exact Hgot | done].
           ++ eexists _, _, [HttpGet url]. split; [reflexivity |].
              cbn [trace]. split; [done |]. split; [effects; lia |].
              split; [effects; lia |]. split; [by left | done].
           ++ eexists _, _, _. split; [reflexivity |].
              split; [exact Htr |]. split; [effects; lia |]. split; [effects; lia |].
              split; [exact Hgot | done].
      * cbn [retryable] in Hretry. rewrite Hretry.
        eexists _, _, [HttpGet url]. split; [reflexivity |]. cbn [trace].
        split; [done |]. split; [effects; lia |]. split; [effects; lia |].
        split; [by left |].
        intros e [= <-]. do 4 right.
        exists (length (requestsOf (trace w))), st, body.
        split; [exact Hnet |]. done.
Qed.

(** The same for a whole call. *)
Lemma FetchOnThisDay_effects rev c month day bypassCache w :
  exists r w' added,
    FetchOnThisDay env rev c month day bypassCache w = (r, w')
    /\ trace w' = trace w ++ added
    /\ (length (requestsOf added) <= 3)%nat
    /\ (length (sleepsOf added) <= 2)%nat
    /\ cacheGot env (cachePath env c month day)
         (lit "https://api.wikimedia.org/feed/v1/wikipedia/en/onthisday/all/"
            ++ month ++ lit "/" ++ day)
         (length (requestsOf (trace w))) added r
    /\ (forall e, r = Err e ->
          (month = [] \/ day = [])
          /\ e = Errorf (lit "month and day required")
          \/ errorSource env e).
Proof.
  assert (Hnone : forall r,
    (forall e, r = Err e ->
       (month = [] \/ day = [])
          /\ e = Errorf (lit "month and day required")
          \/ errorSource env e) ->
    exists r0 w' added,
      (r, w) = (r0, w')
      /\ trace w' = trace w ++ added
      /\ (length (requestsOf added) <= 3)%nat
      /\ (length (sleepsOf added) <= 2)%nat
      /\ cacheGot env (cachePath env c month day)
         (lit "https://api.wikimedia.org/feed/v1/wikipedia/en/onthisday/all/"
            ++ month ++ lit "/" ++ day)
         (length (requestsOf (trace w))) added r0
      /\ (forall e, r0 = Err e ->
            (month = [] \/ day = [])
          /\ e = Errorf (lit "month and day required")
          \/ errorSource env e)).
  { intros r Hr. exists r, w, [].
    split; [done |]. split; [by rewrite app_nil_r |].
    split; [effects; lia |]. split; [effects; lia |].
    split; [by left |]. done. }
  assert (Hloop :
    exists r w' added,
      attemptLoop env rev (cachePath env c month day)
        (lit "https://api.wikimedia.org/feed/v1/wikipedia/en/onthisday/all/"
         ++ month ++ lit "/" ++ day)
        bypassCache 3 (500 * Millisecond) None w = (r, w')
      /\ trace w' = trace w ++ added
      /\ (length (requestsOf added) <= 3)%nat
      /\ (length (sleepsOf added) <= 2)%nat
      /\ cacheGot env (cachePath env c month day)
         (lit "https://api.wikimedia.org/feed/v1/wikipedia/en/onthisday/all/"
            ++ month ++ lit "/" ++ day)
         (length (requestsOf (trace w))) added r
      /\ (forall e, r = Err e ->
            (month = [] \/ day = [])
          /\ e = Errorf (lit "month and day required")
          \/ errorSource env e)).
  { match goal with |- context [attemptLoop _ ?r ?p ?u ?b _ ?d ?l w] =>
      destruct (attemptLoop_effects r p u b 3 d l w ltac:(lia))
        as (r0 & w' & added & Hrun & Htr & Hrq & Hsl & Hc & He)
    end.
    exists r0, w', added. split; [exact Hrun |]. split; [exact Htr |].
    split; [exact Hrq |]. split; [lia |]. split; [exact Hc |].
    intros e Hr. right. by apply He. }
  unfold FetchOnThisDay.
  destruct (bool_decide (month = []) || bool_decide (day = [])) eqn:Hargs.
  { apply Hnone. intros e [= <-]. left. split; [| done].
    apply orb_true_iff in Hargs as [H | H]; apply bool_decide_eq_true in H;
      [by left | by right]. }
  unfold bind.
  destruct bypassCache; cbn [negb]; [exact Hloop |].
  pose proof (tryCache_world env c (cachePath env c month day) w) as Hw.
  destruct (tryCache env c (cachePath env c month day) w) as [[evs |] w0];
    cbn [snd] in Hw; subst w0; [| exact Hloop].
  apply Hnone. done.
Qed.

(** X17: what a call can cost, whatever the server, the context and the
    disk do: at most three requests, at most two backoff sleeps, which
    take less than 1.7 seconds together, and at most one cache write. *)
Theorem call_effort_is_bounded rev c month day bypassCache w :
  exists added,
    trace (FetchOnThisDay env rev c month day bypassCache w).2
    = trace w ++ added
    /\ (length (requestsOf added) <= 3)%nat
    /\ (length (sleepsOf added) <= 2)%nat
    /\ totalSleep (sleepsOf added) < 1700 * Millisecond
    /\ (length (cacheWritesOf added) <= 1)%nat.
Proof.
  destruct (FetchOnThisDay_effects rev c month day bypassCache w)
    as (r & w' & added & Hrun & Htr & Hrq & Hsl & Hc & _).
  destruct (FetchOnThisDay_footprint env rev c month day bypassCache w)
    as (added' & Htr' & Hsch & _).
  rewrite Hrun in *. cbn [snd] in *.
  assert (added' = added) as ->.
  { rewrite Htr in Htr'. by apply app_inv_head in Htr'. }
  exists added. split; [done |]. split; [done |]. split; [done |].
  split.
  - destruct (sleepsOf added) as [|d0 [|d1 [|d2 ds]]] eqn:Hds;
      cbn [length] in Hsl; [| | | lia].
    + unfold totalSleep, Millisecond. cbn [foldr]. lia.
    + pose proof (backoffSchedule_bounds _ _ _ 0%nat d0 Hsch eq_refl) as H0.
      unfold totalSleep, Millisecond in *. cbn [foldr]. lia.
    + pose proof (backoffSchedule_bounds _ _ _ 0%nat d0 Hsch eq_refl) as H0.
      pose proof (backoffSchedule_bounds _ _ _ 1%nat d1 Hsch eq_refl) as H1.
      unfold totalSleep, Millisecond in *. cbn [foldr].
      change (2 ^ Z.of_nat 0) with 1 in H0.
      change (2 ^ Z.of_nat 1) with 2 in H1. lia.
  - destruct Hc as [-> | (before & body & ok & evs & -> & Hb & _)];
      [cbn; lia |].
    effects. rewrite Hb. cbn [length]. lia.
Qed.

(** X18: the cache only ever gets a feed that parsed: a call writes
    nothing, or its last effect is the write, to the cache file of the
    date, of the body of the response with status 200 that the server
    gave to the request just before it, the request to the URL of the
    date; that body parses, and the call returns the events parsed
    from it. *)
Theorem cache_gets_only_parsed_feed rev c month day bypassCache w :
  exists added,
    trace (FetchOnThisDay env rev c month day bypassCache w).2
    = trace w ++ added
    /\ cacheGot env (cachePath env c month day)
         (lit "https://api.wikimedia.org/feed/v1/wikipedia/en/onthisday/all/"
            ++ month ++ lit "/" ++ day)
         (length (requestsOf (trace w))) added
         (FetchOnThisDay env rev c month day bypassCache w).1.
Proof.
  destruct (FetchOnThisDay_effects rev c month day bypassCache w)
    as (r & w' & added & Hrun & Htr & _ & _ & Hc & _).
  rewrite Hrun. cbn [fst snd]. by exists added.
Qed.


End ClientMore.

(** *** What a call does not depend on *)

Section ClientPass.

Import Wikimedia.

Variable env : Env.

(** One pass of the retry loop, step by step. *)
Lemma attemptLoop_pass rev cacheFile url bypassCache left backoff lastErr w :
  attemptLoop env rev cacheFile url bypassCache (S left) backoff lastErr w
  = let attempt := maxAttempts - Z.of_nat left in
    let next := attemptLoop env rev cacheFile url bypassCache left in
    let w1 := mkWorld (now w) (files w) (rng w) (trace w ++ [HttpGet url]) in
    match network env (length (requestsOf (trace w))) with
    | RequestError err => (Err err, w)
    | DoError err =>
        retryOr env attempt backoff
          (Errorf (lit "network error: " ++ Error err)) next w1
    | ReadError _ err =>
        retryOr env attempt backoff
          (Errorf (lit "failed to read response: " ++ Error err)) next w1
    | Response StatusCode body =>
        if StatusCode =? 200 then
          match parseEventsFromBody env body with
          | Err err => (Err err, w1)
          | Ok evs =>
              (Ok evs,
               match rev with
               | WritesAlways =>
                   (writeCacheFileAtomic env cacheFile body w1).2
               | WritesUnlessBypass =>
                   if bypassCache then w1
                   else (writeCacheFileAtomic env cacheFile body w1).2
               end)
          end
        else if (StatusCode =? 429)
                || ((500 <=? StatusCode) && (StatusCode <? 600)) then
          retryOr env attempt backoff
            (Errorf (lit "API returned status code: " ++ Itoa StatusCode))
            next w1
        else
          (Err (Errorf (lit "API returned status code: "
                        ++ Itoa StatusCode ++ lit ", body: " ++ body)), w1)
    end.
Proof.
  cbn [attemptLoop]. unfold bind at 1. rewrite roundTrip_run. cbv zeta.
  destruct (network env (length (requestsOf (trace w))))
    as [e | e | st e | st body].
  - destruct w. cbn [now files rng trace]. by rewrite app_nil_r.
  - reflexivity.
  - reflexivity.
  - destruct (st =? 200).
    + destruct (parseEventsFromBody env body); [| reflexivity].
      destruct rev; [| destruct bypassCache; cbn [negb]]; unfold bind, ret;
        try reflexivity;
        by destruct (writeCacheFileAtomic env cacheFile body _).
    + by destruct ((st =? 429) || (500 <=? st) && (st <? 600)).
Qed.

(** Backing off, step by step. *)
Lemma retryOr_run attempt backoff lastErr next w :
  retryOr env attempt backoff lastErr next w
  = if attempt <? maxAttempts then
      match ctxDone env (length (sleepsOf (trace w))) with
      | Some err => (Err err, (sleepContext env backoff w).2)
      | None => next (backoff * 2) (Some lastErr) (sleepContext env backoff w).2
      end
    else (Err lastErr, w).
Proof.
  unfold retryOr. destruct (attempt <? maxAttempts); [| reflexivity].
  unfold bind. rewrite sleepContext_run. cbn [snd].
  by destruct (ctxDone env _).
Qed.

End ClientPass.

Section ClientIndependence.

Import Wikimedia.

Variable env : Env.

Lemma sleepContext_files d w w' :
  sameButFiles w w' ->
  sameButFiles (sleepContext env d w).2 (sleepContext env d w').2.
Proof.
  intros (Hn & Hg & Ht). rewrite !sleepContext_run. unfold sameButFiles.
  cbn [snd now rng trace]. by rewrite Hn, Hg, Ht.
Qed.

Lemma writeCacheFileAtomic_files path data w w' :
  sameButFiles w w' ->
  sameButFiles (writeCacheFileAtomic env path data w).2
               (writeCacheFileAtomic env path data w').2.
Proof.
  intros (Hn & Hg & Ht). rewrite !writeCacheFileAtomic_run.
  unfold sameButFiles. cbn [snd now rng trace]. by rewrite Hn, Hg, Ht.
Qed.

(** The retry loop never reads the disk. *)
Lemma attemptLoop_files rev cacheFile url bypassCache (left : nat) :
  forall backoff lastErr w w',
  sameButFiles w w' ->
  (attemptLoop env rev cacheFile url bypassCache left backoff lastErr w).1
  = (attemptLoop env rev cacheFile url bypassCache left backoff lastErr w').1
  /\ sameButFiles
       (attemptLoop env rev cacheFile url bypassCache left backoff lastErr w).2
       (attemptLoop env rev cacheFile url bypassCache left backoff lastErr w').2.
Proof.
  induction left as [|left IH]; intros backoff lastErr w w' Hsame.
  { split; [reflexivity | exact Hsame]. }
  assert (Hw1 : sameButFiles
            (mkWorld (now w) (files w) (rng w) (trace w ++ [HttpGet url]))
            (mkWorld (now w') (files w') (rng w') (trace w' ++ [HttpGet url]))).
  { destruct Hsame as (Hn & Hg & Ht). unfold sameButFiles.
    cbn [now rng trace]. by rewrite Hn, Hg, Ht. }
  assert (Hretry : forall err w1 w1',
    sameButFiles w1 w1' ->
    (retryOr env (maxAttempts - Z.of_nat left) backoff err
       (attemptLoop env rev cacheFile url bypassCache left) w1).1
    = (retryOr env (maxAttempts - Z.of_nat left) backoff err
         (attemptLoop env rev cacheFile url bypassCache left) w1').1
    /\ sameButFiles
         (retryOr env (maxAttempts - Z.of_nat left) backoff err
            (attemptLoop env rev cacheFile url bypassCache left) w1).2
         (retryOr env (maxAttempts - Z.of_nat left) backoff err
            (attemptLoop env rev cacheFile url bypassCache left) w1').2).
  { intros err w1 w1' H1. rewrite !retryOr_run.
    destruct (maxAttempts - Z.of_nat left <? maxAttempts);
      [| split; [reflexivity | exact H1]].
    pose proof (sleepContext_files backoff _ _ H1) as H2.
    destruct H1 as (_ & _ & <-).
    destruct (ctxDone env _); [split; [reflexivity | exact H2] |].
    by apply IH. }
  rewrite !attemptLoop_pass. cbv zeta.
  destruct Hsame as (Hn & Hg & Ht). rewrite <- Ht in Hw1 |- *.
  assert (Hsame : sameButFiles w w') by done.
  destruct (network env (length (requestsOf (trace w))))
    as [e | e | st e | st body].
  - split; [reflexivity | exact Hsame].
  - by apply Hretry.
  - by apply Hretry.
  - destruct (st =? 200).
    + destruct (parseEventsFromBody env body) as [evs | err];
        [| split; [reflexivity | exact Hw1]].
      split; [reflexivity |]. cbn [snd].
      destruct rev; [| destruct bypassCache]; try exact Hw1;
        by apply writeCacheFileAtomic_files.
    + destruct ((st =? 429) || (500 <=? st) && (st <? 600));
        [| split; [reflexivity | exact Hw1]].
      by apply Hretry.
Qed.

(** X20: when the cache is not used, what is on the disk has no
    influence on a call: from two worlds that differ in their files
    only, and in both of which the cache is bypassed or missed, a call
    returns the same result after the same requests and sleeps. *)
Theorem missed_cache_has_no_influence rev c month day bypassCache w w' :
  cacheMiss env c month day bypassCache w ->
  cacheMiss env c month day bypassCache w' ->
  sameButFiles w w' ->
  (FetchOnThisDay env rev c month day bypassCache w).1
  = (FetchOnThisDay env rev c month day bypassCache w').1
  /\ sameButFiles (FetchOnThisDay env rev c month day bypassCache w).2
                  (FetchOnThisDay env rev c month day bypassCache w').2.
Proof.
  intros Hmiss Hmiss' Hsame.
  destruct (decide (month = [])) as [Hm | Hm].
  { unfold FetchOnThisDay. rewrite (bool_decide_eq_true_2 _ Hm).
    cbn [orb]. split; [reflexivity | exact Hsame]. }
  destruct (decide (day = [])) as [Hd | Hd].
  { unfold FetchOnThisDay.
    rewrite (bool_decide_eq_true_2 _ Hd), orb_true_r.
    split; [reflexivity | exact Hsame]. }
  rewrite !FetchOnThisDay_network by done.
  by apply attemptLoop_files.
Qed.

(** The failures of the disk do not reach the retry loop's result. *)
Lemma attemptLoop_disk disk rev cacheFile url bypassCache (left : nat) :
  forall backoff lastErr w,
  (attemptLoop env rev cacheFile url bypassCache left backoff lastErr w).1
  = (attemptLoop (withDisk env disk) rev cacheFile url bypassCache left
       backoff lastErr w).1
  /\ requestsOf (trace (attemptLoop env rev cacheFile url bypassCache left
                          backoff lastErr w).2)
     = requestsOf (trace (attemptLoop (withDisk env disk) rev cacheFile url
                            bypassCache left backoff lastErr w).2)
  /\ sleepsOf (trace (attemptLoop env rev cacheFile url bypassCache left
                        backoff lastErr w).2)
     = sleepsOf (trace (attemptLoop (withDisk env disk) rev cacheFile url
                          bypassCache left backoff lastErr w).2).
Proof.
  induction left as [|left IH]; intros backoff lastErr w.
  { done. }
  assert (Hretry : forall err w1,
    (retryOr env (maxAttempts - Z.of_nat left) backoff err
       (attemptLoop env rev cacheFile url bypassCache left) w1).1
    = (retryOr (withDisk env disk) (maxAttempts - Z.of_nat left) backoff err
         (attemptLoop (withDisk env disk) rev cacheFile url bypassCache left)
         w1).1
    /\ requestsOf (trace
         (retryOr env (maxAttempts - Z.of_nat left) backoff err
            (attemptLoop env rev cacheFile url bypassCache left) w1).2)
       = requestsOf (trace
           (retryOr (withDisk env disk) (maxAttempts - Z.of_nat left)
              backoff err
              (attemptLoop (withDisk env disk) rev cacheFile url bypassCache
                 left) w1).2)
    /\ sleepsOf (trace
         (retryOr env (maxAttempts - Z.of_nat left) backoff err
            (attemptLoop env rev cacheFile url bypassCache left) w1).2)
       = sleepsOf (trace
           (retryOr (withDisk env disk) (maxAttempts - Z.of_nat left)
              backoff err
              (attemptLoop (withDisk env disk) rev cacheFile url bypassCache
                 left) w1).2)).
  { intros err w1. rewrite !retryOr_run.
    destruct (maxAttempts - Z.of_nat left <? maxAttempts); [| done].
    rewrite !sleepContext_run.
    change (ctxDone (withDisk env disk)) with (ctxDone env).
    destruct (ctxDone env _); [done |]. apply IH. }
  rewrite !attemptLoop_pass. cbv zeta.
  change (network (withDisk env disk)) with (network env).
  destruct (network env (length (requestsOf (trace w))))
    as [e | e | st e | st body].
  - done.
  - apply Hretry.
  - apply Hretry.
  - destruct (st =? 200).
    + change (parseEventsFromBody (withDisk env disk) body)
        with (parseEventsFromBody env body).
      destruct (parseEventsFromBody env body) as [evs | err]; [| done].
      cbn [fst snd]. split; [reflexivity |].
      destruct rev; [| destruct bypassCache]; try done;
        rewrite !writeCacheFileAtomic_run; cbn [snd trace];
        by rewrite !requestsOf_app, !sleepsOf_app.
    + destruct ((st =? 429) || (500 <=? st) && (st <? 600)); [| done].
      apply Hretry.
Qed.

(** X21: the cache write is best effort: whether the disk fails or not,
    a call returns the same result after the same requests and
    sleeps. *)
Theorem disk_failure_is_invisible disk rev c month day bypassCache w :
  (FetchOnThisDay env rev c month day bypassCache w).1
  = (FetchOnThisDay (withDisk env disk) rev c month day bypassCache w).1
  /\ requestsOf (trace (FetchOnThisDay env rev c month day bypassCache w).2)
     = requestsOf
         (trace (FetchOnThisDay (withDisk env disk) rev c month day
                   bypassCache w).2)
  /\ sleepsOf (trace (FetchOnThisDay env rev c month day bypassCache w).2)
     = sleepsOf
         (trace (FetchOnThisDay (withDisk env disk) rev c month day
                   bypassCache w).2).
Proof.
  unfold FetchOnThisDay.
  destruct (bool_decide (month = []) || bool_decide (day = [])); [done |].
  change (cachePath (withDisk env disk)) with (cachePath env).
  change (tryCache (withDisk env disk)) with (tryCache env).
  unfold bind.
  destruct (if negb bypassCache
            then tryCache env c (cachePath env c month day)
            else ret None) as [[evs |] w0] eqn:Hcache; [done |].
  apply attemptLoop_disk.
Qed.

(** X22: the revision that guards the cache write keeps a bypassing
    call away from the cache altogether: the call reads no cache file,
    writes none and attempts no write, so that the files are as before
    and the result is the same whatever the cache holds. *)
Theorem guarded_bypass_leaves_cache_alone c month day w :
  files (FetchOnThisDay env WritesUnlessBypass c month day true w).2 = files w
  /\ cacheWritesOf
       (trace (FetchOnThisDay env WritesUnlessBypass c month day true w).2)
     = cacheWritesOf (trace w)
  /\ forall w', sameButFiles w w' ->
       (FetchOnThisDay env WritesUnlessBypass c month day true w).1
       = (FetchOnThisDay env WritesUnlessBypass c month day true w').1.
Proof.
  destruct (guarded_bypass_writes_nothing env c month day w) as [Hf Hc].
  split; [exact Hf |]. split; [exact Hc |].
  intros w' Hsame.
  destruct (decide (month = [])) as [Hm | Hm].
  { unfold FetchOnThisDay. by rewrite (bool_decide_eq_true_2 _ Hm). }
  destruct (decide (day = [])) as [Hd | Hd].
  { unfold FetchOnThisDay.
    by rewrite (bool_decide_eq_true_2 _ Hd), orb_true_r. }
  rewrite !FetchOnThisDay_network by (done || by left).
  by apply attemptLoop_files.
Qed.

End ClientIndependence.

(** *** The properties of the client on sample runs *)

Section ClientScenarios.

Import Wikimedia.

Lemma fresh_cache_is_the_answer_witness :
  FetchOnThisDay (serverEnv 200) WritesAlways client (lit "03") (lit "15")
                 false cachedWorld
  = (Ok [moonLanding], cachedWorld).
Proof.
  apply (fresh_cache_is_the_answer (serverEnv 200) WritesAlways client
           (lit "03") (lit "15") cachedWorld
           (mkFile 0 (Some (lit "feed"))) (lit "feed") [moonLanding]).
  - discriminate.
  - discriminate.
  - apply lookup_insert_eq.
  - vm_compute. discriminate.
  - reflexivity.
  - reflexivity.
Defined.

Lemma fetched_feed_is_cached_witness :
  files (FetchOnThisDay (serverEnv 200) WritesUnlessBypass client
           (lit "03") (lit "15") false freshWorld).2
    !! cachePath (serverEnv 200) client (lit "03") (lit "15")
  = Some (mkFile (now freshWorld) (Some (lit "feed")))
  /\ forall w2,
       files w2 !! cachePath (serverEnv 200) client (lit "03") (lit "15")
       = files (FetchOnThisDay (serverEnv 200) WritesUnlessBypass client
                  (lit "03") (lit "15") false freshWorld).2
           !! cachePath (serverEnv 200) client (lit "03") (lit "15") ->
       now w2 - now freshWorld <= ttl client ->
       FetchOnThisDay (serverEnv 200) WritesUnlessBypass client
         (lit "03") (lit "15") false w2
       = (Ok [moonLanding], w2).
Proof.
  apply (fetched_feed_is_cached (serverEnv 200) WritesUnlessBypass client
           (lit "03") (lit "15") freshWorld (lit "feed") [moonLanding]).
  - discriminate.
  - discriminate.
  - right. reflexivity.
  - reflexivity.
  - reflexivity.
  - reflexivity.
Defined.

Lemma retries_then_success_witness :
  (FetchOnThisDay (flakyEnv 2) WritesAlways client (lit "03") (lit "15")
                  true freshWorld).1
  = Ok [moonLanding]
  /\ length (requestsOf
               (trace (FetchOnThisDay (flakyEnv 2) WritesAlways client
                         (lit "03") (lit "15") true freshWorld).2))
     = (length (requestsOf (trace freshWorld)) + 2 + 1)%nat
  /\ length (sleepsOf
               (trace (FetchOnThisDay (flakyEnv 2) WritesAlways client
                         (lit "03") (lit "15") true freshWorld).2))
     = (length (sleepsOf (trace freshWorld)) + 2)%nat.
Proof.
  apply (retries_then_success (flakyEnv 2) WritesAlways client
           (lit "03") (lit "15") true freshWorld 2 (lit "feed")
           [moonLanding]).
  - discriminate.
  - discriminate.
  - left. reflexivity.
  - lia.
  - intros [|[|i]] Hi; [reflexivity | reflexivity | lia].
  - intros i Hi. reflexivity.
  - reflexivity.
  - reflexivity.
Defined.

Lemma retries_exhausted_witness :
  (FetchOnThisDay (flakyEnv 5) WritesAlways client (lit "03") (lit "15")
                  false freshWorld).1
  = Err (lastErrOf (network (flakyEnv 5)
                      (length (requestsOf (trace freshWorld)) + 2)))
  /\ length (requestsOf
               (trace (FetchOnThisDay (flakyEnv 5) WritesAlways client
                         (lit "03") (lit "15") false freshWorld).2))
     = (length (requestsOf (trace freshWorld)) + 3)%nat
  /\ length (sleepsOf
               (trace (FetchOnThisDay (flakyEnv 5) WritesAlways client
                         (lit "03") (lit "15") false freshWorld).2))
     = (length (sleepsOf (trace freshWorld)) + 2)%nat
  /\ files (FetchOnThisDay (flakyEnv 5) WritesAlways client
              (lit "03") (lit "15") false freshWorld).2
     = files freshWorld
  /\ cacheWritesOf
       (trace (FetchOnThisDay (flakyEnv 5) WritesAlways client
                 (lit "03") (lit "15") false freshWorld).2)
     = cacheWritesOf (trace freshWorld).
Proof.
  apply (retries_exhausted (flakyEnv 5) WritesAlways client
           (lit "03") (lit "15") false freshWorld).
  - discriminate.
  - discriminate.
  - right. reflexivity.
  - intros [|[|[|i]]] Hi; [reflexivity | reflexivity | reflexivity | lia].
  - intros i Hi. reflexivity.
Defined.

Lemma cancelled_backoff_ends_call_witness :
  (FetchOnThisDay (cancelledEnv 1) WritesAlways client (lit "03") (lit "15")
                  false freshWorld).1
  = Err (CtxErr (lit "context canceled"))
  /\ length (requestsOf
               (trace (FetchOnThisDay (cancelledEnv 1) WritesAlways client
                         (lit "03") (lit "15") false freshWorld).2))
     = (length (requestsOf (trace freshWorld)) + 1 + 1)%nat
  /\ files (FetchOnThisDay (cancelledEnv 1) WritesAlways client
              (lit "03") (lit "15") false freshWorld).2
     = files freshWorld
  /\ cacheWritesOf
       (trace (FetchOnThisDay (cancelledEnv 1) WritesAlways client
                 (lit "03") (lit "15") false freshWorld).2)
     = cacheWritesOf (trace freshWorld).
Proof.
  apply (cancelled_backoff_ends_call (cancelledEnv 1) WritesAlways client
           (lit "03") (lit "15") false freshWorld 1
           (CtxErr (lit "context canceled"))).
  - discriminate.
  - discriminate.
  - right. reflexivity.
  - lia.
  - intros i Hi. reflexivity.
  - intros [|i] Hi; [reflexivity | lia].
  - reflexivity.
Defined.

Lemma other_status_is_final_witness :
  FetchOnThisDay (serverEnv 404) WritesAlways client (lit "03") (lit "15")
                 false freshWorld
  = (Err (Errorf (lit "API returned status code: " ++ Itoa 404
                  ++ lit ", body: " ++ lit "feed")),
     mkWorld (now freshWorld) (files freshWorld) (rng freshWorld)
       (trace freshWorld
        ++ [HttpGet
              (lit "https://api.wikimedia.org/feed/v1/wikipedia/en/onthisday/all/"
               ++ lit "03" ++ lit "/" ++ lit "15")])).
Proof.
  apply (other_status_is_final (serverEnv 404) WritesAlways client
           (lit "03") (lit "15") false freshWorld 404 (lit "feed")).
  - discriminate.
  - discriminate.
  - right. reflexivity.
  - reflexivity.
  - lia.
  - lia.
  - lia.
Defined.

Lemma unparseable_feed_is_final_witness :
  FetchOnThisDay garbledEnv WritesAlways client (lit "03") (lit "15")
                 false freshWorld
  = (Err (Errorf (lit "failed to parse JSON: "
                  ++ Error (LibErr (lit "invalid character")))),
     mkWorld (now freshWorld) (files freshWorld) (rng freshWorld)
       (trace freshWorld
        ++ [HttpGet
              (lit "https://api.wikimedia.org/feed/v1/wikipedia/en/onthisday/all/"
               ++ lit "03" ++ lit "/" ++ lit "15")])).
Proof.
  apply (unparseable_feed_is_final garbledEnv WritesAlways client
           (lit "03") (lit "15") false freshWorld (lit "<html>")
           (LibErr (lit "invalid character"))).
  - discriminate.
  - discriminate.
  - right. reflexivity.
  - reflexivity.
  - reflexivity.
Defined.


Lemma missed_cache_has_no_influence_witness :
  (FetchOnThisDay (serverEnv 200) WritesUnlessBypass client
     (lit "03") (lit "15") true freshWorld).1
  = (FetchOnThisDay (serverEnv 200) WritesUnlessBypass client
       (lit "03") (lit "15") true
       (mkWorld 0 (files cachedWorld) [] [])).1
  /\ sameButFiles
       (FetchOnThisDay (serverEnv 200) WritesUnlessBypass client
          (lit "03") (lit "15") true freshWorld).2
       (FetchOnThisDay (serverEnv 200) WritesUnlessBypass client
          (lit "03") (lit "15") true
          (mkWorld 0 (files cachedWorld) [] [])).2.
Proof.
  apply (missed_cache_has_no_influence (serverEnv 200) WritesUnlessBypass
           client (lit "03") (lit "15") true freshWorld
           (mkWorld 0 (files cachedWorld) [] [])).
  - left. reflexivity.
  - left. reflexivity.
  - unfold sameButFiles. split; [reflexivity |]. split; reflexivity.
Defined.

End ClientScenarios.

(* ===================================================================== *)
(** ** The ordinal suffix                                                *)
(* ===================================================================== *)

Section OrdinalFacts.

(** A property of the days 1 to 31 can be checked day by day. *)
Lemma days_ind (P : Z -> Prop) :
  Forall P (seqZ 1 31) -> forall day, 1 <= day <= 31 -> P day.
Proof.
  rewrite Forall_forall. intros H day Hday. apply H, elem_of_seqZ. lia.
Qed.

(** X23: on the days of a month, 1 to 31, [getNumEndingLocal] of the
    renderer and [getNumEnding] of the newest [main.go] give the English
    suffix: "st" for 1, 21 and 31, "nd" for 2 and 22, "rd" for 3 and
    23, "th" for every other day, 11, 12 and 13 among them. *)
Theorem ordinal_suffix_of_day day :
  1 <= day <= 31 ->
  getNumEndingLocal day = suffixOfDay day
  /\ getNumEnding day = suffixOfDay day.
Proof.
  revert day. apply days_ind.
  apply (bool_decide_unpack _). by vm_compute.
Qed.

(** X24: the older [getNumEnding] tests [day-1] where the day is meant:
    it answers "st" on the 2nd, "nd" on the 3rd, "rd" on the 4th and
    "th" on every other day, so that it disagrees with the newer
    function on the days 1, 2, 3, 4, 21, 22, 23 and 31, and on no other
    day of a month. *)
Theorem old_ordinal_suffix day :
  1 <= day <= 31 ->
  getNumEnding_old day
  = (if day =? 2 then lit "st" else if day =? 3 then lit "nd"
     else if day =? 4 then lit "rd" else lit "th")
  /\ (getNumEnding_old day = getNumEnding day
      <-> day ∉ [1; 2; 3; 4; 21; 22; 23; 31]).
Proof.
  revert day. apply days_ind.
  apply (bool_decide_unpack _). by vm_compute.
Qed.

Lemma ordinal_suffix_of_day_witness :
  getNumEndingLocal 22 = suffixOfDay 22 /\ getNumEnding 22 = suffixOfDay 22.
Proof. apply (ordinal_suffix_of_day 22). lia. Defined.

Lemma old_ordinal_suffix_witness :
  getNumEnding_old 2
  = (if 2 =? 2 then lit "st" else if 2 =? 3 then lit "nd"
     else if 2 =? 4 then lit "rd" else lit "th")
  /\ (getNumEnding_old 2 = getNumEnding 2
      <-> 2 ∉ [1; 2; 3; 4; 21; 22; 23; 31]).
Proof. apply (old_ordinal_suffix 2). lia. Defined.

End OrdinalFacts.

(* ===================================================================== *)
(** ** From the feed to the screen                                       *)
(* ===================================================================== *)

Section ScreenFacts.

Import Wikimedia Selector.

(** The events [RenderEvents] draws and the cells it draws for them. *)
Lemma RenderEvents_cells events :
  exists accepted rest cells,
    events = accepted ++ rest
    /\ RenderEvents events = Some cells
    /\ displayLoop accepted 8 = Some cells
    /\ cellsWithin 8 (8 + rowsUsed wrapText accepted) cells
    /\ rowsAscending cells
    /\ cellYears cells = Year <$> accepted
    /\ (forall p e q, accepted = p ++ e :: q ->
          rowsUsed wrapText p + eventRows wrapText e <= maxContentRows
          /\ len p < 5)
    /\ match rest with
       | [] => True
       | e :: _ =>
           maxContentRows < rowsUsed wrapText accepted + eventRows wrapText e
           \/ 5 <= len accepted
       end.
Proof.
  unfold RenderEvents, fitEvents.
  destruct (fitLoop_greedy wrapText events [] 0)
    as (accepted & rest & Hev & Hfit & Hacc & Hrest).
  rewrite Hfit. cbn [fst app] in *.
  destruct (displayLoop_cells accepted 8) as (cells & Hd & Hw & Hasc & Hy).
  exists accepted, rest, cells.
  split; [done |]. split; [done |]. split; [done |]. split; [done |].
  split; [done |]. split; [done |]. split.
  - intros p e q Hpq. destruct (Hacc p e q Hpq) as [H1 H2].
    split; [lia | done].
  - destruct rest; [done |]. destruct Hrest as [H | H]; [left; lia | by right].
Qed.

(** X25: [RenderEvents] draws no event at all in two cases only: there
    is no event, or the text of the first event alone wraps to twelve
    lines or more; the fitting loop stops at the first event that does
    not fit, so that such an event hides all that follow it. *)
Theorem RenderEvents_blank events :
  RenderEvents events = Some []
  <-> events = []
      \/ exists e rest,
           events = e :: rest
           /\ 12 <= len (wrapText (TrimSpace (Text e)) maxLineLength).
Proof.
  destruct (RenderEvents_cells events)
    as (accepted & rest & cells & Hev & Hrun & Hd & _ & _ & Hy & Hacc & Hrest).
  rewrite Hrun. split.
  - intros [= ->]. destruct accepted as [|a accepted]; [| done].
    cbn [app] in Hev. subst rest.
    destruct events as [|e events]; [by left |]. right.
    exists e, events. split; [done |].
    cbn [rowsUsed foldr] in Hrest. unfold eventRows, maxContentRows in Hrest.
    change (len []) with 0 in Hrest. lia.
  - intros [-> | (e & rest' & -> & Hlong)].
    + destruct accepted; [| done]. cbn [displayLoop] in Hd. congruence.
    + destruct accepted as [|a accepted].
      * cbn [displayLoop] in Hd. congruence.
      * cbn [app] in Hev. injection Hev as <- _.
        destruct (Hacc [] e accepted eq_refl) as [H1 _].
        cbn [rowsUsed foldr] in H1. unfold eventRows, maxContentRows in H1.
        lia.
Qed.

Example long_first_event_hides_all :
  RenderEvents [longEvent; moonLanding] = Some []
  /\ exists cells, RenderEvents [moonLanding; longEvent] = Some cells
                   /\ cellYears cells = [1969].
Proof. split; [by vm_compute |]. eexists. split; by vm_compute. Qed.

Lemma tevents_id (events : list Event) :
  (fun e => mkEvent (Year e) (Text e)) <$> events = events.
Proof.
  induction events as [|[y t] events IH]; [done |].
  rewrite fmap_cons. cbn [Year Text]. by rewrite IH.
Qed.

Lemma Itoa_nonempty n : Itoa n <> [].
Proof.
  destruct (Z.lt_ge_cases n 0) as [Hn | Hn].
  - by destruct (Itoa_neg n Hn) as (ds & -> & _).
  - by destruct (Itoa_nonneg n Hn) as (H & _).
Qed.

Lemma Sprintf02d_nonempty n : Sprintf02d n <> [].
Proof.
  unfold Sprintf02d. destruct (len (Itoa n) <? 2); [done |].
  apply Itoa_nonempty.
Qed.

(** The events chosen for display are events of the feed. *)
Lemma applyStrategy_sub events shuffle strategy g :
  (applyStrategy events shuffle strategy g).1 ⊆ events.
Proof.
  destruct (strategy_cases events shuffle strategy g)
    as (kept & g' & -> & Hkept).
  pose proof (final_shuffle_perm kept shuffle g') as Hperm.
  intros e He. rewrite Hperm in He.
  destruct Hkept as [(-> & _) | [[(sh & -> & Hp) _] | (-> & _)]].
  - destruct (0 <? len (selectEventsByEra events g).1); [| done].
    by apply (selectEventsByEra_sound events g).
  - rewrite <- Hp. eapply elem_of_submseteq; [exact He |].
    apply submseteq_take.
  - rewrite <- (SliceStableByYear_perm events).
    eapply elem_of_submseteq; [exact He |]. apply submseteq_take.
Qed.

(** X26: what [generateEventList] leaves on the screen, for every
    server, context, disk, strategy and random generator.  The error
    screen shows the error of the fetch, which is never the complaint
    about a missing month or day, since both are formatted with %02d.
    The "no events" screen stands for an empty feed.  Otherwise the
    listing never fails on an index; it holds at most five years, each
    the year of an event of the feed, on rows 8 to 19, no row twice. *)
Theorem generateEventList_screen env rev wikiClient month day bypassCache
    shuffle strategy w :
  match (generateEventList env rev wikiClient month day bypassCache shuffle
           strategy w).1 with
  | FetchFailed err =>
      (FetchOnThisDay env rev wikiClient (Sprintf02d month) (Sprintf02d day)
         bypassCache w).1 = Err err
      /\ errorSource env err
  | NoEvents =>
      (FetchOnThisDay env rev wikiClient (Sprintf02d month) (Sprintf02d day)
         bypassCache w).1 = Ok []
  | Listing cells =>
      exists events,
        (FetchOnThisDay env rev wikiClient (Sprintf02d month) (Sprintf02d day)
           bypassCache w).1 = Ok events
        /\ events <> []
        /\ (forall year, year ∈ cellYears cells ->
              exists e, e ∈ events /\ Year e = year)
        /\ (length (cellYears cells) <= 5)%nat
        /\ cellsWithin 8 20 cells
        /\ rowsAscending cells
  | RenderPanic => False
  end.
Proof.
  unfold generateEventList. unfold bind at 1.
  destruct (FetchOnThisDay_effects env rev wikiClient (Sprintf02d month)
              (Sprintf02d day) bypassCache w)
    as (r & w' & added & Hrun & _ & _ & _ & _ & Herr).
  rewrite Hrun. cbn [fst].
  destruct r as [events | err].
  2:{ cbn [ret fst]. split; [done |].
      destruct (Herr err eq_refl) as [[[H | H] _] | H]; [| | done].
      - by apply Sprintf02d_nonempty in H.
      - by apply Sprintf02d_nonempty in H. }
  destruct (Z.eqb_spec (len events) 0) as [Hlen | Hlen].
  { cbn [ret fst]. destruct events; [done |].
    unfold len in Hlen. cbn [length] in Hlen. lia. }
  unfold bind, ret.
  pose proof (applyStrategy_sub events shuffle strategy (rng w')) as Hsub.
  destruct (applyStrategy events shuffle strategy (rng w')) as [sel g].
  cbn [fst] in *. rewrite tevents_id.
  destruct (RenderEvents_cells sel)
    as (accepted & rest & cells & Hev & -> & _ & Hw & Hasc & Hy & Hacc & _).
  assert (Hrows : rowsUsed wrapText accepted <= 12 /\ len accepted <= 5).
  { destruct (decide (accepted = [])) as [-> | Hne]; [by vm_compute |].
    destruct (exists_last Hne) as (p & e & ->).
    destruct (Hacc p e [] eq_refl) as [H1 H2].
    rewrite rowsUsed_app, len_app. cbn [rowsUsed foldr app] in *.
    change (len [e]) with 1. unfold maxContentRows in H1. lia. }
  exists events. split; [done |].
  split; [by intros -> |]. split; [| split; [| split; [| done]]].
  - intros year Hyear. rewrite Hy in Hyear.
    apply list_elem_of_fmap in Hyear as (e & -> & He).
    exists e. split; [| done]. apply Hsub. rewrite Hev.
    apply elem_of_app. by left.
  - rewrite Hy, length_fmap. destruct Hrows as [_ H5]. unfold len in H5. lia.
  - eapply Forall_impl; [exact Hw |]. cbn. intros yc [Hrow Hfit].
    split; [lia | done].
Qed.

End ScreenFacts.

(* ===================================================================== *)
(** ** The fetch of [main.go]                                            *)
(* ===================================================================== *)

Section FeedFacts.

Import Wikimedia.

Variable json_Unmarshal : gostring -> error + Feed.WikimediaResponse.
Variable network : nat -> RoundTrip.

Implicit Types (w : World) (es : list Effect).

Lemma Feed_roundTrip_run url w :
  Feed.roundTrip network url w =
  (network (length (requestsOf (trace w))),
   mkWorld (now w) (files w) (rng w)
     (trace w ++ match network (length (requestsOf (trace w))) with
                 | RequestError _ => []
                 | _ => [HttpGet url]
                 end)).
Proof.
  unfold Feed.roundTrip, bind, count, emit, ret, requestsOf.
  destruct w as [n f g t]; cbn [now files rng trace].
  destruct (network _); rewrite ?app_nil_r; reflexivity.
Qed.

(** The jitter of [sleepJitter]: a whole number of milliseconds from
    -100 to 99. *)
Lemma sleepJitter_run backoff w :
  exists jitter w',
    Feed.sleepJitter backoff w = (tt, w')
    /\ trace w' = trace w ++ [Sleep (backoff + jitter) true]
    /\ files w' = files w
    /\ - (100 * Millisecond) <= jitter < 100 * Millisecond
    /\ jitter mod Millisecond = 0.
Proof.
  unfold Feed.sleepJitter, bind, emit.
  assert (Hdraw : 0 <= (Rand.Int63n 200 (rng w)).1 < 200).
  { destruct (rng w) as [|r g]; cbn [Rand.Int63n fst]; [lia |].
    apply Z.mod_pos_bound. lia. }
  destruct (Rand.Int63n 200 (rng w)) as [r g]. cbn [fst] in Hdraw.
  cbn [now files rng trace].
  exists (r * Millisecond - 100 * Millisecond). eexists.
  split; [reflexivity |]. cbn [trace files]. split; [done |].
  split; [done |]. split; [unfold Millisecond; lia |].
  replace (r * Millisecond - 100 * Millisecond)
    with ((r - 100) * Millisecond) by lia.
  apply Z.mod_mul. unfold Millisecond. lia.
Qed.

Lemma onSchedule_nil backoff : Feed.onSchedule backoff [].
Proof. intros k d Hk. done. Qed.

Lemma onSchedule_cons backoff jitter ds :
  - (100 * Millisecond) <= jitter < 100 * Millisecond ->
  jitter mod Millisecond = 0 ->
  Feed.onSchedule (backoff * 2) ds ->
  Feed.onSchedule backoff ((backoff + jitter) :: ds).
Proof.
  intros Hj Hmod Hds [|k] d Hk; simplify_eq/=.
  - rewrite Z.mul_1_r.
    replace (backoff + jitter - backoff) with jitter by lia.
    split; [lia | done].
  - specialize (Hds k d Hk).
    replace (Z.of_nat (S k)) with (Z.succ (Z.of_nat k)) by lia.
    rewrite Z.pow_succ_r by lia.
    replace (backoff * (2 * 2 ^ Z.of_nat k))
      with (backoff * 2 * 2 ^ Z.of_nat k) by lia.
    exact Hds.
Qed.

(** What the loop does with at most three passes left. *)
Lemma fetchLoop_effects url (left : nat) :
  forall backoff w,
  (1 <= left <= 3)%nat ->
  exists r w' added,
    Feed.fetchLoop json_Unmarshal network url left backoff w = (r, w')
    /\ trace w' = trace w ++ added
    /\ (length (requestsOf added) <= left)%nat
    /\ (length (sleepsOf added) < left)%nat
    /\ Feed.onSchedule backoff (sleepsOf added)
    /\ cacheWritesOf added = []
    /\ files w' = files w
    /\ (forall evs, r = inr evs ->
          exists k body resp,
            network k = Response 200 body
            /\ json_Unmarshal body = inr resp
            /\ evs ≡ₚ Feed.typedEvents resp).
Proof.
  induction left as [|left IH]; intros backoff w Hleft; [lia |].
  assert (Hretry : forall err,
    exists r w' added,
      Feed.backoffOr (maxAttempts - Z.of_nat left) backoff err
        (Feed.fetchLoop json_Unmarshal network url left)
        (mkWorld (now w) (files w) (rng w) (trace w ++ [HttpGet url]))
      = (r, w')
      /\ trace w' = trace w ++ added
      /\ (length (requestsOf added) <= S left)%nat
      /\ (length (sleepsOf added) < S left)%nat
      /\ Feed.onSchedule backoff (sleepsOf added)
      /\ cacheWritesOf added = []
      /\ files w' = files w
      /\ (forall evs, r = inr evs ->
            exists k body resp,
              network k = Response 200 body
              /\ json_Unmarshal body = inr resp
              /\ evs ≡ₚ Feed.typedEvents resp)).
  { intros err. unfold Feed.backoffOr.
    destruct (Z.ltb_spec (maxAttempts - Z.of_nat left) maxAttempts)
      as [Hlt | Hge].
    - unfold bind.
      destruct (sleepJitter_run backoff
                  (mkWorld (now w) (files w) (rng w)
                           (trace w ++ [HttpGet url])))
        as (jitter & w2 & -> & Htr2 & Hf2 & Hj & Hmod).
      cbn [trace files] in Htr2, Hf2.
      destruct (IH (backoff * 2) w2)
        as (r & w' & added & Hrun & Htr & Hrq & Hsl & Hsch & Hcw & Hf & Hev);
        [unfold maxAttempts in *; lia |].
      exists r, w', ([HttpGet url; Sleep (backoff + jitter) true] ++ added).
      split; [exact Hrun |].
      split; [by rewrite Htr, Htr2, <- !app_assoc |].
      split; [effects; lia |]. split; [effects; lia |].
      split; [effects; by apply onSchedule_cons |].
      split; [effects; exact Hcw |].
      split; [| exact Hev].
      by rewrite Hf.
    - eexists _, _, [HttpGet url]. split; [reflexivity |]. cbn [trace].
      split; [done |]. split; [effects; lia |]. split; [effects; lia |].
      split; [effects; apply onSchedule_nil |]. done. }
  cbn [Feed.fetchLoop]. unfold bind at 1. rewrite Feed_roundTrip_run.
  destruct (network (length (requestsOf (trace w))))
    as [e0 | e0 | st e0 | st body] eqn:Hnet.
  - eexists _, _, []. split; [reflexivity |]. cbn [trace].
    split; [done |]. split; [effects; lia |]. split; [effects; lia |].
    split; [apply onSchedule_nil |]. done.
  - apply Hretry.
  - apply Hretry.
  - destruct (Z.eqb_spec st 200) as [-> | Hst].
    + destruct (json_Unmarshal body) as [err | resp] eqn:Hjson.
      * eexists _, _, [HttpGet url]. split; [reflexivity |]. cbn [trace].
        split; [done |]. split; [effects; lia |]. split; [effects; lia |].
        split; [effects; apply onSchedule_nil |]. done.
      * fold (Feed.typedEvents resp). unfold bind, ret, Feed.shuffleEvents.
        cbn [rng now files trace].
        pose proof (shuffleLoop_perm (length (Feed.typedEvents resp) - 1)
                      (Feed.typedEvents resp) (rng w)) as Hperm.
        destruct (1 <? len (Feed.typedEvents resp));
          [destruct (Rand.shuffleLoop _ _ _) as [shuffled g];
           cbn [fst] in Hperm |];
          (eexists _, _, [HttpGet url]; split; [reflexivity |]; cbn [trace];
           split; [done |]; split; [effects; lia |]; split; [effects; lia |];
           split; [effects; apply onSchedule_nil |];
           split; [done |]; split; [done |];
           intros evs [= <-]; eauto 10).
    + destruct ((st =? 429) || (500 <=? st) && (st <? 600)).
      * apply Hretry.
      * eexists _, _, [HttpGet url]. split; [reflexivity |]. cbn [trace].
        split; [done |]. split; [effects; lia |]. split; [effects; lia |].
        split; [effects; apply onSchedule_nil |]. done.
Qed.

(** X27: what [fetchHistoricalEvents] of [main.go] can cost: at most
    three requests and two sleeps, and no file is touched.  Its jitter
    is not raised to zero as the client's is: the sleep before retry
    [k] lies within 100ms of [500ms * 2^k] on either side, in whole
    milliseconds, so from 400ms and from 900ms on. *)
Theorem fetchHistoricalEvents_effort month day w :
  exists added,
    trace (Feed.fetchHistoricalEvents json_Unmarshal network month day w).2
    = trace w ++ added
    /\ (length (requestsOf added) <= 3)%nat
    /\ (length (sleepsOf added) <= 2)%nat
    /\ Feed.onSchedule (500 * Millisecond) (sleepsOf added)
    /\ (forall d, d ∈ sleepsOf added -> 400 * Millisecond <= d)
    /\ cacheWritesOf added = []
    /\ files (Feed.fetchHistoricalEvents json_Unmarshal network month day w).2
       = files w.
Proof.
  unfold Feed.fetchHistoricalEvents.
  match goal with |- context [Feed.fetchLoop _ _ ?u _ ?b w] =>
    destruct (fetchLoop_effects u 3 b w ltac:(lia))
      as (r & w' & added & Hrun & Htr & Hrq & Hsl & Hsch & Hcw & Hf & _)
  end.
  change (Z.to_nat maxAttempts) with 3%nat. rewrite Hrun. cbn [snd].
  exists added. split; [done |]. split; [done |]. split; [lia |].
  split; [done |]. split; [| done].
  intros d Hd. apply list_elem_of_lookup in Hd as [k Hk].
  destruct (Hsch k d Hk) as [[Hlo _] _].
  assert (1 <= 2 ^ Z.of_nat k) by (apply Z.pow_le_mono_r with (b := 0); lia).
  unfold Millisecond in *. nia.
Qed.

(** X28: the events [fetchHistoricalEvents] returns are those of the
    "events" array of a feed the server sent with status 200, in some
    order and each once: the births and the deaths are left out, no
    event is lost or repeated, and every one is typed "event",
    whatever type the feed gave it. *)
Theorem fetchHistoricalEvents_events month day w evs :
  (Feed.fetchHistoricalEvents json_Unmarshal network month day w).1 = inr evs ->
  exists k body resp,
    network k = Response 200 body
    /\ json_Unmarshal body = inr resp
    /\ evs ≡ₚ Feed.typedEvents resp
    /\ length evs = length (Feed.Events resp)
    /\ Forall (fun e => Feed.Type_ e = lit "event") evs.
Proof.
  unfold Feed.fetchHistoricalEvents.
  match goal with |- context [Feed.fetchLoop _ _ ?u _ ?b w] =>
    destruct (fetchLoop_effects u 3 b w ltac:(lia))
      as (r & w' & added & Hrun & _ & _ & _ & _ & _ & _ & Hev)
  end.
  change (Z.to_nat maxAttempts) with 3%nat. rewrite Hrun. cbn [fst].
  intros ->. destruct (Hev evs eq_refl) as (k & body & resp & Hk & Hj & Hp).
  exists k, body, resp. split; [done |]. split; [done |]. split; [done |].
  split.
  - rewrite Hp. unfold Feed.typedEvents. by rewrite length_fmap.
  - rewrite Hp. unfold Feed.typedEvents. apply Forall_fmap.
    by apply Forall_true.
Qed.

End FeedFacts.

Section FeedRuns.

Import Wikimedia.

Lemma fetchHistoricalEvents_events_witness :
  exists k body resp,
    Feed.sampleNetwork k = Response 200 body
    /\ Feed.sampleDecode body = inr resp
    /\ [Feed.mkWikimediaEvent 1970 (lit "Apollo 13 returns") (lit "event");
        Feed.mkWikimediaEvent 1969 (lit "Moon landing") (lit "event")]
       ≡ₚ Feed.typedEvents resp
    /\ length
         [Feed.mkWikimediaEvent 1970 (lit "Apollo 13 returns") (lit "event");
          Feed.mkWikimediaEvent 1969 (lit "Moon landing") (lit "event")]
       = length (Feed.Events resp)
    /\ Forall (fun e => Feed.Type_ e = lit "event")
         [Feed.mkWikimediaEvent 1970 (lit "Apollo 13 returns") (lit "event");
          Feed.mkWikimediaEvent 1969 (lit "Moon landing") (lit "event")].
Proof.
  apply (fetchHistoricalEvents_events Feed.sampleDecode Feed.sampleNetwork
           7 20 freshWorld).
  reflexivity.
Defined.

End FeedRuns.

(* ===================================================================== *)
(** ** The drop file and the terminal                                    *)
(* ===================================================================== *)

Section DropFileFacts.

Import Wikimedia DropFile.

(** The loop is a lookup by line number. *)
Lemma assignLoop_lines text :
  assignLoop text 0 noValues = valuesOfLines text.
Proof.
  do 11 (destruct text as [|? text]; [reflexivity |]).
  destruct text as [|? text]; reflexivity.
Qed.

(** X29: when [DropFileData] returns without an error, its eleven
    values are the first eleven lines of the file it opened, in the
    order commport, baud indicator, baud rate, BBS name, user number,
    real name, user name, security level, time left, emulation, node; a
    line the file lacks gives the empty string and lines after the
    eleventh are ignored.  The file is the cleaned path itself when
    [os.Stat] says it is a file; otherwise it lies in that directory
    and is an entry equal to "door32.sys" up to case, or "door32.sys"
    itself. *)
Theorem DropFileData_lines fs path f :
  DropFileData fs path = (f, None) ->
  exists filePath text,
    os_Open fs filePath = inr (text, None)
    /\ f = valuesOfLines text
    /\ (os_Stat fs (filepath_Clean fs path) = inr false ->
        filePath = filepath_Clean fs path)
    /\ (os_Stat fs (filepath_Clean fs path) <> inr false ->
        exists entries name,
          os_ReadDir fs (filepath_Clean fs path) = inr entries
          /\ filePath = filepath_Join fs (filepath_Clean fs path) name
          /\ (name ∈ entries
                /\ strings_EqualFold fs name (lit "door32.sys") = true
              \/ name = lit "door32.sys")).
Proof.
  unfold DropFileData.
  destruct (resolve fs (filepath_Clean fs path)) as [err | filePath] eqn:Hres;
    [done |].
  destruct (os_Open fs filePath) as [err | [text [err |]]] eqn:Hopen;
    [done | done |].
  intros [= <-]. exists filePath, text.
  split; [done |]. split; [by rewrite assignLoop_lines |].
  unfold resolve in Hres. split.
  - intros Hstat. rewrite Hstat in Hres. by injection Hres as <-.
  - intros Hstat.
    assert (Hdir :
      match os_ReadDir fs (filepath_Clean fs path) with
      | inl err =>
          inl (Errorf (lit "error reading directory "
                       ++ filepath_Clean fs path ++ lit ": " ++ Error err))
      | inr entries =>
          let found :=
            match List.find (fun name =>
                               strings_EqualFold fs name (lit "door32.sys"))
                            entries with
            | Some name => filepath_Join fs (filepath_Clean fs path) name
            | None => []
            end in
          let found :=
            if bool_decide (found = []) then
              match os_Stat fs (filepath_Join fs (filepath_Clean fs path)
                                              (lit "door32.sys")) with
              | inr _ => filepath_Join fs (filepath_Clean fs path)
                                       (lit "door32.sys")
              | inl _ => found
              end
            else found in
          if bool_decide (found = []) then
            inl (Errorf (lit "door32.sys not found in "
                         ++ filepath_Clean fs path))
          else inr found
      end = inr filePath).
    { destruct (os_Stat fs (filepath_Clean fs path)) as [e | [|]];
        [exact Hres | exact Hres | done]. }
    clear Hres Hstat.
    destruct (os_ReadDir fs (filepath_Clean fs path)) as [e | entries];
      [done |].
    exists entries. cbv zeta in Hdir.
    destruct (List.find _ entries) as [name |] eqn:Hfind.
    + apply List.find_some in Hfind as [Hin Hfold].
      apply list_elem_of_In in Hin.
      destruct (decide (filepath_Join fs (filepath_Clean fs path) name = []))
        as [Hnil | Hnil].
      * rewrite Hnil in Hdir.
        rewrite (bool_decide_eq_true_2 (@nil rune = []) eq_refl) in Hdir.
        destruct (os_Stat fs _) as [e | d].
        -- cbv beta iota in Hdir.
           by rewrite (bool_decide_eq_true_2 (@nil rune = []) eq_refl) in Hdir.
        -- destruct (bool_decide _); [done |]. injection Hdir as <-.
           exists (lit "door32.sys").
           split; [done |]. split; [done | by right].
      * rewrite !(bool_decide_eq_false_2 _ Hnil) in Hdir.
        injection Hdir as <-. exists name.
        split; [done |]. split; [done |]. by left.
    + rewrite (bool_decide_eq_true_2 (@nil rune = []) eq_refl) in Hdir.
      destruct (os_Stat fs _) as [e | d].
      * cbv beta iota in Hdir.
        by rewrite (bool_decide_eq_true_2 (@nil rune = []) eq_refl) in Hdir.
      * destruct (bool_decide _); [done |]. injection Hdir as <-.
        exists (lit "door32.sys").
           split; [done |]. split; [done | by right].
Qed.

Lemma DropFileData_lines_witness :
  exists filePath text,
    os_Open sampleFS filePath = inr (text, None)
    /\ mkDoor32Values (lit "2") (lit "0") (lit "38400") (lit "Mystic")
         (lit "1") (lit "Jane Doe") (lit "jane") (lit "255") (lit "60") [] []
       = valuesOfLines text
    /\ (os_Stat sampleFS (filepath_Clean sampleFS (lit "/bbs/temp/1"))
        = inr false ->
        filePath = filepath_Clean sampleFS (lit "/bbs/temp/1"))
    /\ (os_Stat sampleFS (filepath_Clean sampleFS (lit "/bbs/temp/1"))
        <> inr false ->
        exists entries name,
          os_ReadDir sampleFS (filepath_Clean sampleFS (lit "/bbs/temp/1"))
          = inr entries
          /\ filePath
             = filepath_Join sampleFS
                 (filepath_Clean sampleFS (lit "/bbs/temp/1")) name
          /\ (name ∈ entries
                /\ strings_EqualFold sampleFS name (lit "door32.sys") = true
              \/ name = lit "door32.sys")).
Proof.
  apply (DropFileData_lines sampleFS (lit "/bbs/temp/1")).
  reflexivity.
Defined.

End DropFileFacts.

Section TermDetectFacts.

Import TermDetect.

Variable os_Getenv : gostring -> gostring.
Variable strings_ToLower : gostring -> gostring.
Variable strconv_Atoi : gostring -> option Z.

(** X30: [DetectTerminalCapabilities] knows four terminals, each with
    fixed capabilities: Netrunner and Magiterm have the extended
    palette and no loadable fonts, Syncterm has both, ANSI-Term
    neither.  More than 80 columns always mean Netrunner, whatever TERM
    and TERM_PROGRAM say, so that Syncterm and Magiterm are detected
    only at 80 columns or fewer; and the size is 80 by 25 unless
    COLUMNS and LINES hold numbers. *)
Theorem terminal_capabilities :
  let '(terminal, loadableFonts, xtendPalette, cols, rows) :=
    DetectTerminalCapabilities os_Getenv strings_ToLower strconv_Atoi in
  (terminal, loadableFonts, xtendPalette) ∈ capabilities
  /\ (80 < cols -> terminal = lit "Netrunner")
  /\ (terminal = lit "Syncterm" \/ terminal = lit "Magiterm" -> cols <= 80)
  /\ (os_Getenv (lit "COLUMNS") = []
      \/ strconv_Atoi (os_Getenv (lit "COLUMNS")) = None -> cols = 80)
  /\ (os_Getenv (lit "LINES") = []
      \/ strconv_Atoi (os_Getenv (lit "LINES")) = None -> rows = 25).
Proof.
  unfold DetectTerminalCapabilities.
  assert (Hsize : forall name default,
    os_Getenv name = [] \/ strconv_Atoi (os_Getenv name) = None ->
    sizeFrom os_Getenv strconv_Atoi name default = default).
  { intros name default [H | H]; unfold sizeFrom.
    - by rewrite H.
    - rewrite H. by destruct (bool_decide _). }
  set (cols := sizeFrom os_Getenv strconv_Atoi (lit "COLUMNS") 80).
  set (rows := sizeFrom os_Getenv strconv_Atoi (lit "LINES") 25).
  cbv zeta.
  split; [| split; [| split; [| split; [apply Hsize | apply Hsize]]]].
  - unfold capabilities.
    destruct (bool_decide _ || (80 <? cols)); [set_solver |].
    destruct (bool_decide _ || bool_decide _); [set_solver |].
    destruct (bool_decide _ || bool_decide _); set_solver.
  - intros Hwide. rewrite (proj2 (Z.ltb_lt _ _) Hwide). by rewrite orb_true_r.
  - destruct (Z.ltb_spec 80 cols) as [Hwide | Hnarrow]; [| done].
    rewrite orb_true_r. by intros [? | ?].
Qed.

End TermDetectFacts.
